(** * exelvi.js: timestamp, number and colour helpers

    A shallow embedding of [src/index.ts] (the validating variant) and of
    [src/unnamed/part_000] (the variant of the timestamp formatter that
    does not validate the format tag), with the properties of the
    specification stated and proved over it.

    Numbers.  A JavaScript number is modelled as a rational, or one of
    NaN, +Infinity, -Infinity.  A sum, a difference, a product and a
    quotient are the binary64 value nearest to the exact result
    ([to_binary64]: ties to even, gradual underflow, an infinity on
    overflow), and so is the result of [parseInt]; a remainder,
    [Math.floor], [Math.round], [Math.abs], a minimum and a maximum are
    exact, as they are in binary64.  The two zeros are identified (no
    function of the library can tell them apart through its result,
    except by [Object.is]).

    Strings.  A string is a sequence of code units below 256.

    Values.  Arguments are the primitive values undefined, null, booleans,
    numbers and strings; a parameter declared as an array is a list of
    such values. *)

From Stdlib Require Import ZArith Zdivisibility QArith Qround Qabs Qminmax Qpower.
From Stdlib Require Import Bool List.
From Stdlib Require Import Lia Lqa.
From Stdlib Require Import Ascii String.
Import ListNotations.

Local Open Scope string_scope.
Local Open Scope Z_scope.

(* ================================================================== *)
(** ** Numbers *)

Inductive number : Type :=
| NaN
| PInf
| NInf
| Fin (q : Q).

(** Finite results are kept in lowest terms, so that equal numbers are
    equal terms. *)
Definition fin (q : Q) : number := Fin (Qred q).

Definition int (z : Z) : number := Fin (inject_Z z).

Definition Qtrunc (q : Q) : Z := Z.quot (Qnum q) (Zpos (Qden q)).

Definition Qis_neg (q : Q) : bool := Qnum q <? 0.
Definition Qis_zero (q : Q) : bool := Qnum q =? 0.

(** *** Rounding to binary64 *)

(** [2^k] *)
Definition pow2 (k : Z) : Q := Qpower (2 # 1) k.

(** The binade of a positive rational [a]: the [e] with
    2^e <= a < 2^(e+1). *)
Definition binade (a : Q) : Z :=
  let k := Z.log2 (Qnum a) - Z.log2 (Zpos (Qden a)) in
  if Qle_bool (pow2 k) a then k else k - 1.

(** The integer nearest to a rational, a half going to the even one. *)
Definition round_half_even (x : Q) : Z :=
  let f := Qfloor x in
  match (x - inject_Z f ?= 1 # 2)%Q with
  | Lt => f
  | Gt => f + 1
  | Eq => if Z.even f then f else f + 1
  end.

(** The binary64 value nearest to a rational, ties to even: 53
    significant bits from 2^-1022 on, the multiples of 2^-1074 below,
    and an infinity when the rounded magnitude reaches 2^1024. *)
Definition to_binary64 (q : Q) : number :=
  let q := Qred q in
  if Qis_zero q then Fin 0
  else
    let a := Qabs q in
    let ulp := pow2 (Z.max (binade a) (-1022) - 52) in
    let y := (inject_Z (round_half_even (a / ulp)) * ulp)%Q in
    if Qle_bool (pow2 1024) y then (if Qis_neg q then NInf else PInf)
    else fin (if Qis_neg q then - y else y).

(** *** Arithmetic *)

(** [-x] *)
Definition num_neg (a : number) : number :=
  match a with
  | NaN => NaN
  | PInf => NInf
  | NInf => PInf
  | Fin x => fin (- x)
  end.

(** [a + b] on numbers *)
Definition num_add (a b : number) : number :=
  match a, b with
  | NaN, _ | _, NaN => NaN
  | PInf, NInf | NInf, PInf => NaN
  | PInf, _ | _, PInf => PInf
  | NInf, _ | _, NInf => NInf
  | Fin x, Fin y => to_binary64 (x + y)
  end.

(** [a - b] *)
Definition num_sub (a b : number) : number := num_add a (num_neg b).

(** The infinity of sign [positive] times the finite [x];
    NaN when [x] is zero. *)
Definition inf_times (positive : bool) (x : Q) : number :=
  if Qis_zero x then NaN
  else if Bool.eqb positive (negb (Qis_neg x)) then PInf else NInf.

(** [a * b] *)
Definition num_mul (a b : number) : number :=
  match a, b with
  | NaN, _ | _, NaN => NaN
  | PInf, PInf | NInf, NInf => PInf
  | PInf, NInf | NInf, PInf => NInf
  | PInf, Fin x | Fin x, PInf => inf_times true x
  | NInf, Fin x | Fin x, NInf => inf_times false x
  | Fin x, Fin y => to_binary64 (x * y)
  end.

(** [a / b].  A zero divisor counts as +0. *)
Definition num_div (a b : number) : number :=
  match a, b with
  | NaN, _ | _, NaN => NaN
  | (PInf | NInf), (PInf | NInf) => NaN
  | PInf, Fin y => if Qis_neg y then NInf else PInf
  | NInf, Fin y => if Qis_neg y then PInf else NInf
  | Fin _, (PInf | NInf) => Fin 0
  | Fin x, Fin y =>
      if Qis_zero y then
        (if Qis_zero x then NaN else if Qis_neg x then NInf else PInf)
      else to_binary64 (x / y)
  end.

(** [a % b]: the remainder of the truncating division, with the sign of
    the dividend.  It is exact. *)
Definition num_rem (a b : number) : number :=
  match a, b with
  | NaN, _ | _, NaN => NaN
  | (PInf | NInf), _ => NaN
  | Fin x, (PInf | NInf) => Fin x
  | Fin x, Fin y =>
      if Qis_zero y then NaN
      else fin (x - y * inject_Z (Qtrunc (x / y)))
  end.

(** [i++] on the counter of a loop that starts at 2 and ends at the
    square root of a number: the counter plus 1, without rounding.
    Such a counter stays below 2^53, where the sum is exact: beyond
    2^53 a binary64 number is even, and 2 divides it. *)
Definition num_incr (i : number) : number :=
  match i with
  | Fin x => fin (x + 1)
  | _ => i
  end.

(** [a < b] *)
Definition num_lt (a b : number) : bool :=
  match a, b with
  | NaN, _ | _, NaN => false
  | _, NInf => false
  | NInf, _ => true
  | PInf, _ => false
  | Fin _, PInf => true
  | Fin x, Fin y => match x ?= y with Lt => true | _ => false end
  end%Q.

(** [a <= b] *)
Definition num_le (a b : number) : bool :=
  match a, b with
  | NaN, _ | _, NaN => false
  | NInf, _ => true
  | _, PInf => true
  | _, NInf => false
  | PInf, _ => false
  | Fin x, Fin y => match x ?= y with Gt => false | _ => true end
  end%Q.

(** [a === b] on numbers *)
Definition num_eq (a b : number) : bool :=
  match a, b with
  | PInf, PInf | NInf, NInf => true
  | Fin x, Fin y => Qeq_bool x y
  | _, _ => false
  end.

(** [Math.floor] *)
Definition Math_floor (a : number) : number :=
  match a with
  | Fin x => int (Qfloor x)
  | _ => a
  end.

(** [Math.abs] *)
Definition Math_abs (a : number) : number :=
  match a with
  | NaN => NaN
  | PInf | NInf => PInf
  | Fin x => fin (Qabs x)
  end.

(** [Math.round]: the nearest integer, halves towards +Infinity. *)
Definition Math_round (a : number) : number :=
  match a with
  | Fin x => int (Qfloor (x + (1 # 2)))
  | _ => a
  end.

(** [Math.min(a, b)] and [Math.max(a, b)]; NaN when an argument is. *)
Definition Math_min (a b : number) : number :=
  match a, b with
  | NaN, _ | _, NaN => NaN
  | _, _ => if num_le a b then a else b
  end.

Definition Math_max (a b : number) : number :=
  match a, b with
  | NaN, _ | _, NaN => NaN
  | _, _ => if num_le a b then b else a
  end.

(** [i <= Math.sqrt(num)], against the exact square root.
    [Math.sqrt] is NaN below zero and on NaN, and +Infinity on
    +Infinity. *)
Definition le_sqrt (i num : number) : bool :=
  match num with
  | NaN | NInf => false
  | PInf => num_le i PInf
  | Fin x =>
      if Qis_neg x then false
      else match i with
           | NaN | PInf => false
           | NInf => true
           | Fin y => Qis_neg y || Qle_bool (y * y) x
           end
  end.

(** *** Integer conversions and bitwise operators *)

Definition wrap32 (z : Z) : Z := (z + 2 ^ 31) mod 2 ^ 32 - 2 ^ 31.

(** [ToInt32] *)
Definition ToInt32 (a : number) : Z :=
  match a with
  | Fin x => wrap32 (Qtrunc x)
  | _ => 0
  end.

(** [ToUint32] *)
Definition ToUint32 (a : number) : Z :=
  match a with
  | Fin x => Qtrunc x mod 2 ^ 32
  | _ => 0
  end.

(** [a << b] *)
Definition num_shl (a b : number) : number :=
  int (wrap32 (Z.shiftl (ToInt32 a) (Z.land (ToUint32 b) 31))).

(** [a >> b] *)
Definition num_sar (a b : number) : number :=
  int (Z.shiftr (ToInt32 a) (Z.land (ToUint32 b) 31)).

(** [a & b] *)
Definition num_and (a b : number) : number :=
  int (Z.land (ToInt32 a) (ToInt32 b)).

(** The binary64 value nearest to an integer, ties to even; +-Infinity
    from 2^1024 on. *)
Definition round_binary64 (z : Z) : number :=
  let m := Z.abs z in
  if m <? 2 ^ 53 then int z
  else
    let shift := Z.log2 m - 52 in
    let q := Z.shiftr m shift in
    let r := m - Z.shiftl q shift in
    let half := Z.shiftl 1 (shift - 1) in
    let q' := if (half <? r) || ((half =? r) && Z.odd q) then q + 1 else q in
    let m' := Z.shiftl q' shift in
    if 2 ^ 1024 <=? m' then (if z <? 0 then NInf else PInf)
    else int (Z.sgn z * m').

(* ================================================================== *)
(** ** Strings *)

Definition code (c : ascii) : Z := Z.of_nat (nat_of_ascii c).

(** The digit [d] (below 36) as the host prints it: 0-9, then a-z. *)
Definition digit_char (d : Z) : ascii :=
  ascii_of_nat (Z.to_nat (if d <? 10 then 48 + d else 87 + d)).

(** The value of a digit character as [parseInt] reads it, in either
    case. *)
Definition digit_value (c : ascii) : option Z :=
  let n := code c in
  if (48 <=? n) && (n <=? 57) then Some (n - 48)
  else if (97 <=? n) && (n <=? 122) then Some (n - 87)
  else if (65 <=? n) && (n <=? 90) then Some (n - 55)
  else None.

(** The digits of a nonnegative integer, most significant first, in
    front of [acc]; [fuel] bounds the number of digits. *)
Fixpoint to_digits (radix : Z) (fuel : nat) (n : Z) (acc : string) : string :=
  match fuel with
  | O => acc
  | S fuel' =>
      let acc' := String (digit_char (n mod radix)) acc in
      if n / radix =? 0 then acc' else to_digits radix fuel' (n / radix) acc'
  end.

Definition nat_toString (radix : Z) (n : Z) : string :=
  to_digits radix (S (Z.to_nat (Z.log2 n))) n EmptyString.

(** An integer in a radix: a minus sign, then the digits of the
    magnitude. *)
Definition int_toString (radix : Z) (z : Z) : string :=
  if z <? 0 then String "-" (nat_toString radix (- z))
  else nat_toString radix z.

(** [s.slice(1)] *)
Definition slice1 (s : string) : string :=
  match s with
  | EmptyString => EmptyString
  | String _ rest => rest
  end.

(** [s.replace(c, '')] for a one-character pattern: the first occurrence
    goes. *)
Fixpoint remove_first (c : ascii) (s : string) : string :=
  match s with
  | EmptyString => EmptyString
  | String x rest => if Ascii.eqb x c then rest else String x (remove_first c rest)
  end.

(** White space and line terminators below 256: TAB, LF, VT, FF, CR,
    SP, NBSP. *)
Definition is_space (c : ascii) : bool :=
  let n := code c in
  ((9 <=? n) && (n <=? 13)) || (n =? 32) || (n =? 160).

Fixpoint trim_start (s : string) : string :=
  match s with
  | EmptyString => EmptyString
  | String c rest => if is_space c then trim_start rest else s
  end.

(** The longest prefix of digits of the radix, as their values. *)
Fixpoint take_digits (radix : Z) (s : string) : list Z :=
  match s with
  | EmptyString => []
  | String c rest =>
      match digit_value c with
      | Some d => if d <? radix then d :: take_digits radix rest else []
      | None => []
      end
  end.

Definition digits_value (radix : Z) (ds : list Z) : Z :=
  fold_left (fun acc d => acc * radix + d) ds 0.

Definition strip_sign (s : string) : Z * string :=
  match s with
  | String "-" rest => (-1, rest)
  | String "+" rest => (1, rest)
  | _ => (1, s)
  end.

Definition strip_0x (s : string) : string :=
  match s with
  | String "0" (String ("x" | "X") rest) => rest
  | _ => s
  end.

(** [parseInt(s, radix)] for a string [s] and an integer radix.  Radix 0
    stands for an absent radix. *)
Definition parseInt (s : string) (radix : Z) : number :=
  let '(sign, s1) := strip_sign (trim_start s) in
  if (radix =? 0) || ((2 <=? radix) && (radix <=? 36)) then
    let R := if radix =? 0 then 10 else radix in
    let s2 := if (radix =? 0) || (radix =? 16) then strip_0x s1 else s1 in
    let R := if (radix =? 0) && negb (String.eqb s2 s1) then 16 else R in
    match take_digits R s2 with
    | [] => NaN
    | ds => round_binary64 (sign * digits_value R ds)
    end
  else NaN.

(** [a.join(sep)] on strings *)
Definition join (sep : string) (l : list string) : string :=
  match l with
  | [] => EmptyString
  | x :: rest => fold_left (fun acc y => acc ++ sep ++ y) rest x
  end.

(* ================================================================== *)
(** ** Values, exceptions and outcomes *)

Inductive value : Type :=
| VUndefined
| VNull
| VBoolean (b : bool)
| VNumber (n : number)
| VString (s : string).

(** What a call can throw: [new Error(message)], which is the library's
    own argument error, or a [TypeError] or a [RangeError] of the
    host. *)
Inductive exn : Type :=
| Error (message : string)
| TypeError (message : string)
| RangeError (message : string).

(** How a call ends.  [OutOfFuel] stands for a loop that needs more
    steps than the fuel it was given. *)
Inductive outcome (A : Type) : Type :=
| Returns (a : A)
| Throws (e : exn)
| OutOfFuel.

Arguments Returns {A} a.
Arguments Throws {A} e.
Arguments OutOfFuel {A}.

Definition bind {A B : Type} (m : outcome A) (k : A -> outcome B) : outcome B :=
  match m with
  | Returns a => k a
  | Throws e => Throws e
  | OutOfFuel => OutOfFuel
  end.

Notation "x <- m ;; k" := (bind m (fun x => k))
  (at level 61, m at next level, right associativity).



(** [a.reduce(f)] without an initial value: the first element starts the
    accumulation, and the host throws on an empty array. *)
Fixpoint fold_outcome {A : Type} (f : A -> A -> outcome A) (acc : A) (l : list A)
  : outcome A :=
  match l with
  | [] => Returns acc
  | x :: rest => acc' <- f acc x ;; fold_outcome f acc' rest
  end.

Definition reduce {A : Type} (f : A -> A -> outcome A) (l : list A) : outcome A :=
  match l with
  | [] => Throws (TypeError "Reduce of empty array with no initial value")
  | x :: rest => fold_outcome f x rest
  end.

(** The elements as numbers, when [a.some(n => typeof n !== 'number')]
    is false. *)
Fixpoint all_numbers (l : list value) : option (list number) :=
  match l with
  | [] => Some []
  | VNumber n :: rest => option_map (cons n) (all_numbers rest)
  | _ :: _ => None
  end.

(* ================================================================== *)
(** ** The host *)

(** What the host prints and provides beyond this model:
    - [host_digits radix q]: the text of a finite number in a radix when
      it is not an integer, or, in radix 10, when its magnitude reaches
      2^53 (from there on the digits are the shortest ones that read
      back as the same binary64 value, and from 10^21 on the notation
      has an exponent);
    - [inherited_member key]: the text of [`${o[key]}`] for a member that
      an object literal [o] inherits (constructor, toString, ...), if
      [key] names one. *)
Class Host : Type := {
  host_digits : Z -> Q -> string;
  inherited_member : string -> option string
}.

(** The clock and the pseudo-random source: [Math.random()] hands out
    [random_source 0], [random_source 1], ... in turn. *)
Record world : Type := mkWorld {
  clock_ms : Z;
  random_source : nat -> Q;
  random_drawn : nat
}.

(** A host that prints nothing for the numbers outside the model, and
    whose objects inherit nothing. *)
Definition bare_host : Host :=
  {| host_digits := fun _ _ => EmptyString;
     inherited_member := fun _ => None |}.

Definition Date_now (w : world) : number := int (clock_ms w).

Definition Math_random (w : world) : number * world :=
  (Fin (random_source w (random_drawn w)),
   mkWorld (clock_ms w) (random_source w) (S (random_drawn w))).

Definition Qis_int (q : Q) : bool := Qeq_bool (inject_Z (Qfloor q)) q.

(** [x.toString(radix)]; radix 10 is also the conversion that a template
    literal applies. *)
Definition number_toString `{Host} (radix : Z) (x : number) : string :=
  match x with
  | NaN => "NaN"
  | PInf => "Infinity"
  | NInf => "-Infinity"
  | Fin q =>
      if Qis_int q && (negb (radix =? 10) || (Z.abs (Qfloor q) <? 2 ^ 53))
      then int_toString radix (Qfloor q)
      else host_digits radix q
  end.

(** [`${v}`] *)
Definition ToString `{Host} (v : value) : string :=
  match v with
  | VUndefined => "undefined"
  | VNull => "null"
  | VBoolean true => "true"
  | VBoolean false => "false"
  | VNumber n => number_toString 10 n
  | VString s => s
  end.

(** A parameter with a default value takes it when the argument is
    undefined. *)
Definition default_to (d : value) (v : value) : value :=
  match v with
  | VUndefined => d
  | _ => v
  end.

(* ================================================================== *)
(** ** discordTimestamps *)

Definition formats : list (string * string) :=
  [ ("RELATIVE", "R"); ("DATE", "D"); ("TIME", "T"); ("SHORT_TIME", "t");
    ("FULL", "F") ].

Definition Object_keys (o : list (string * string)) : list string :=
  map fst o.

(** [keys.includes(v)]: only a string equals a key. *)
Definition includes (keys : list string) (v : value) : bool :=
  match v with
  | VString s => existsb (String.eqb s) keys
  | _ => false
  end.

Fixpoint own_member (o : list (string * string)) (key : string) : option string :=
  match o with
  | [] => None
  | (k, c) :: rest => if String.eqb k key then Some c else own_member rest key
  end.

(** [`${o[v]}`]: the own member under the key [v] converts to, else an
    inherited one, else undefined. *)
Definition member_text `{Host} (o : list (string * string)) (v : value) : string :=
  let key := ToString v in
  match own_member o key with
  | Some c => c
  | None =>
      match inherited_member key with
      | Some text => text
      | None => "undefined"
      end
  end.

Definition invalid_format `{Host} (format : value) : exn :=
  Error ("Expected a valid format " ++ join ", " (Object_keys formats)
         ++ " but got " ++ ToString format).

Definition timestamp `{Host} (seconds : number) (format : value) : string :=
  ("<t:" ++ number_toString 10 seconds ++ ":" ++ member_text formats format
   ++ ">").

(** [src/index.ts] *)
Module discordTimestamps.

Definition fromDate `{Host} (date format : value) : outcome string :=
  let format := default_to (VString "FULL") format in
  match date with
  | VNumber date =>
      if negb (includes (Object_keys formats) format)
      then Throws (invalid_format format)
      else
        let parsed := Math_floor (num_div date (int 1000)) in
        Returns (timestamp parsed format)
  | _ => Throws (Error "The date must be a number")
  end.

Definition now `{Host} (w : world) (format : value) : outcome string :=
  let format := default_to (VString "FULL") format in
  if negb (includes (Object_keys formats) format)
  then Throws (invalid_format format)
  else Returns (timestamp (Math_floor (num_div (Date_now w) (int 1000))) format).

Definition fromNow `{Host} (w : world) (ms format : value) : outcome string :=
  let format := default_to (VString "FULL") format in
  match ms with
  | VNumber ms =>
      if negb (includes (Object_keys formats) format)
      then Throws (invalid_format format)
      else
        Returns (timestamp
                   (Math_floor (num_div (num_add (Date_now w) ms) (int 1000)))
                   format)
  | _ => Throws (Error "The ms must be a number")
  end.

End discordTimestamps.

(** [src/unnamed/part_000]: the same three functions without the check
    of the format. *)
Module looseTimestamps.

Definition fromDate `{Host} (date format : value) : outcome string :=
  let format := default_to (VString "FULL") format in
  match date with
  | VNumber date =>
      let parsed := Math_floor (num_div date (int 1000)) in
      Returns (timestamp parsed format)
  | _ => Throws (Error "The date must be a number")
  end.

Definition now `{Host} (w : world) (format : value) : outcome string :=
  let format := default_to (VString "FULL") format in
  Returns (timestamp (Math_floor (num_div (Date_now w) (int 1000))) format).

Definition fromNow `{Host} (w : world) (ms format : value) : outcome string :=
  let format := default_to (VString "FULL") format in
  match ms with
  | VNumber ms =>
      Returns (timestamp
                 (Math_floor (num_div (num_add (Date_now w) ms) (int 1000)))
                 format)
  | _ => Throws (Error "The ms must be a number")
  end.

End looseTimestamps.

(* ================================================================== *)
(** ** numbers *)

Module numbers.

Definition isEven (num : value) : outcome bool :=
  match num with
  | VNumber num => Returns (num_eq (num_rem num (int 2)) (int 0))
  | _ => Throws (Error "The num must be a number")
  end.

Definition isOdd (num : value) : outcome bool :=
  match num with
  | VNumber num => Returns (negb (num_eq (num_rem num (int 2)) (int 0)))
  | _ => Throws (Error "The num must be a number")
  end.

(** The loop [for (let i = 2; i <= Math.sqrt(num); i++)], entered with
    the current [i]; [fuel] bounds the number of increments. *)
Fixpoint isPrime_loop (fuel : nat) (num i : number) : outcome bool :=
  if le_sqrt i num then
    if num_eq (num_rem num i) (int 0) then Returns false
    else
      match fuel with
      | O => OutOfFuel
      | S fuel' => isPrime_loop fuel' num (num_incr i)
      end
  else Returns true.

Definition isPrime (fuel : nat) (num : value) : outcome bool :=
  match num with
  | VNumber num =>
      if num_lt num (int 2) then Returns false
      else isPrime_loop fuel num (int 2)
  | _ => Throws (Error "The num must be a number")
  end.

Definition random (w : world) (min max : value) : outcome number * world :=
  match min, max with
  | VNumber min, VNumber max =>
      let '(u, w') := Math_random w in
      (Returns
         (num_add
            (Math_floor (num_mul u (num_add (num_sub max min) (int 1))))
            min),
       w')
  | _, _ => (Throws (Error "The min and max must be numbers"), w)
  end.

Definition average (numbers : list value) : outcome number :=
  match all_numbers numbers with
  | Some ns =>
      sum <- reduce (fun a b => Returns (num_add a b)) ns ;;
      Returns (num_div sum (int (Z.of_nat (List.length ns))))
  | None => Throws (Error "All the arguments must be numbers")
  end.

(** The call stack of the host has room for [fuel] nested calls below
    the first one; a deeper recursion ends in the RangeError of the
    host. *)
Fixpoint gdc (fuel : nat) (a b : value) : outcome number :=
  match a, b with
  | VNumber x, VNumber y =>
      if num_eq y (int 0) then Returns x
      else
        match fuel with
        | O => Throws (RangeError "Maximum call stack size exceeded")
        | S fuel' => gdc fuel' (VNumber y) (VNumber (num_rem x y))
        end
  | _, _ => Throws (Error "The a and b must be numbers")
  end.

Definition gdcArray (fuel : nat) (numbers : list value) : outcome number :=
  match all_numbers numbers with
  | Some ns => reduce (fun a b => gdc fuel (VNumber a) (VNumber b)) ns
  | None => Throws (Error "All the arguments must be numbers")
  end.

Definition lcm (fuel : nat) (a b : value) : outcome number :=
  match a, b with
  | VNumber x, VNumber y =>
      let product := Math_abs (num_mul x y) in
      d <- gdc fuel a b ;;
      Returns (num_div product d)
  | _, _ => Throws (Error "The a and b must be numbers")
  end.

Definition lcmArray (fuel : nat) (numbers : list value) : outcome number :=
  match all_numbers numbers with
  | Some ns => reduce (fun a b => lcm fuel (VNumber a) (VNumber b)) ns
  | None => Throws (Error "All the arguments must be numbers")
  end.

End numbers.

(* ================================================================== *)
(** ** colors *)

Record rgb : Type := mkRgb { rgb_r : number; rgb_g : number; rgb_b : number }.
Record hsl : Type := mkHsl { hsl_h : number; hsl_s : number; hsl_l : number }.

Module colors.

Definition rgbToHex `{Host} (r g b : value) : outcome string :=
  match r, g, b with
  | VNumber r, VNumber g, VNumber b =>
      let packed :=
        num_add
          (num_add
             (num_add (num_shl (int 1) (int 24)) (num_shl r (int 16)))
             (num_shl g (int 8)))
          b in
      Returns (String "#" (slice1 (number_toString 16 packed)))
  | _, _, _ => Throws (Error "The r, g and b must be numbers")
  end.

Definition hexToRgb (hex : value) : outcome rgb :=
  match hex with
  | VString hex =>
      let bigint := parseInt (remove_first "#" hex) 16 in
      Returns
        (mkRgb (num_and (num_sar bigint (int 16)) (int 255))
               (num_and (num_sar bigint (int 8)) (int 255))
               (num_and bigint (int 255)))
  | _ => Throws (Error "The hex must be a string")
  end.

Definition randomHex `{Host} (w : world) : string * world :=
  let '(u, w') := Math_random w in
  (String "#"
     (number_toString 16 (Math_floor (num_mul u (int 16777215)))),
   w').

Definition randomRgb (w : world) : rgb * world :=
  let '(u1, w1) := Math_random w in
  let '(u2, w2) := Math_random w1 in
  let '(u3, w3) := Math_random w2 in
  (mkRgb (Math_floor (num_mul u1 (int 255)))
         (Math_floor (num_mul u2 (int 255)))
         (Math_floor (num_mul u3 (int 255))),
   w3).

Definition hslToRgb (h s l : value) : outcome rgb :=
  match h, s, l with
  | VNumber h, VNumber s, VNumber l =>
      let s := num_div s (int 100) in
      let l := num_div l (int 100) in
      let k := fun n => num_rem (num_add n (num_div h (int 30))) (int 12) in
      let a := num_mul s (Math_min l (num_sub (int 1) l)) in
      let f := fun n =>
        num_sub l
          (num_mul a
             (Math_max
                (Math_min
                   (Math_min (num_sub (k n) (int 3)) (num_sub (int 9) (k n)))
                   (int 1))
                (int (-1)))) in
      Returns
        (mkRgb (Math_round (num_mul (f (int 0)) (int 255)))
               (Math_round (num_mul (f (int 8)) (int 255)))
               (Math_round (num_mul (f (int 4)) (int 255))))
  | _, _, _ => Throws (Error "The h, s and l must be numbers")
  end.

Definition rgbToHsl (r g b : value) : outcome hsl :=
  match r, g, b with
  | VNumber r, VNumber g, VNumber b =>
      let r := num_div r (int 255) in
      let g := num_div g (int 255) in
      let b := num_div b (int 255) in
      let max := Math_max (Math_max r g) b in
      let min := Math_min (Math_min r g) b in
      let delta := num_sub max min in
      let l := num_div (num_add max min) (int 2) in
      let '(h, s) :=
        if negb (num_eq delta (int 0)) then
          let s :=
            num_div delta
              (num_sub (int 1)
                 (Math_abs (num_sub (num_mul (int 2) l) (int 1)))) in
          let h :=
            if num_eq max r then
              num_rem (num_div (num_sub g b) delta) (int 6)
            else if num_eq max g then
              num_add (num_div (num_sub b r) delta) (int 2)
            else if num_eq max b then
              num_add (num_div (num_sub r g) delta) (int 4)
            else int 0 in
          let h := Math_round (num_mul h (int 60)) in
          let h := if num_lt h (int 0) then num_add h (int 360) else h in
          (h, s)
        else (int 0, int 0) in
      Returns
        (mkHsl (Math_round h)
               (Math_round (num_mul s (int 100)))
               (Math_round (num_mul l (int 100))))
  | _, _, _ => Throws (Error "The r, g and b must be numbers")
  end.

Definition randomHsl (w : world) : hsl * world :=
  let '(u1, w1) := Math_random w in
  let '(u2, w2) := Math_random w1 in
  let '(u3, w3) := Math_random w2 in
  (mkHsl (Math_floor (num_mul u1 (int 360)))
         (Math_floor (num_mul u2 (int 100)))
         (Math_floor (num_mul u3 (int 100))),
   w3).

Definition hexToHsl (hex : value) : outcome hsl :=
  match hex with
  | VString _ =>
      c <- hexToRgb hex ;;
      rgbToHsl (VNumber (rgb_r c)) (VNumber (rgb_g c)) (VNumber (rgb_b c))
  | _ => Throws (Error "The hex must be a string")
  end.

Definition hslToHex `{Host} (h s l : value) : outcome string :=
  match h, s, l with
  | VNumber _, VNumber _, VNumber _ =>
      c <- hslToRgb h s l ;;
      rgbToHex (VNumber (rgb_r c)) (VNumber (rgb_g c)) (VNumber (rgb_b c))
  | _, _, _ => Throws (Error "The h, s and l must be numbers")
  end.

End colors.

(* ================================================================== *)
(** ** The vocabulary of the properties *)

(** The text of a list of digits, each as the host prints it. *)
Fixpoint string_of_digits (ds : list Z) : string :=
  match ds with
  | [] => EmptyString
  | d :: rest => String (digit_char d) (string_of_digits rest)
  end.

(** The value of a hexadecimal digit. *)
Definition hex_digit (d : Z) : Prop := 0 <= d < 16.

(** A character that ends a run of hexadecimal digits, and is not the
    x of a 0x prefix. *)
Definition stops_hex (c : ascii) : bool :=
  match digit_value c with
  | Some d => (16 <=? d) && negb (d =? 33)
  | None => true
  end.

(** What may follow the digits: nothing, or a character that stops
    them. *)
Definition ends_digits (tail : string) : bool :=
  match tail with
  | EmptyString => true
  | String c _ => stops_hex c
  end.

(** The channel that [hexToRgb] extracts at bit [k] of the parsed
    number. *)
Definition channel (bigint : number) (k : Z) : number :=
  num_and (num_sar bigint (int k)) (int 255).

(** The six digits that [rgbToHex] prints for channels within range. *)
Definition hex6 (r g b : Z) : list Z :=
  [r / 16; r mod 16; g / 16; g mod 16; b / 16; b mod 16].

(** [num % i === 0] for an integer [i]. *)
Definition divides_evenly (i : Z) (num : number) : bool :=
  num_eq (num_rem num (int i)) (int 0).

(** [Math.floor(Math.sqrt(num))] *)
Definition floor_sqrt (num : number) : number :=
  match num with
  | NaN | NInf => NaN
  | PInf => PInf
  | Fin q => if Qis_neg q then NaN else int (Z.sqrt (Qfloor q))
  end.

(** [2 <= i <= floor(sqrt(num))] *)
Definition in_trial_range (i : Z) (num : number) : bool :=
  (2 <=? i) && num_le (int i) (floor_sqrt num).

(** The increments that cover every candidate up to the root. *)
Definition trial_fuel (num : number) : nat :=
  match num with
  | Fin q => Z.to_nat (Z.sqrt (Qfloor q))
  | _ => O
  end.

(** The table of section 3 of the specification, tag by tag. *)
Definition specified_codes : list (string * string) :=
  [ ("RELATIVE", "R"); ("DATE", "D"); ("TIME", "T"); ("SHORT_TIME", "t");
    ("FULL", "F") ].

(** The format arguments that the specification recognizes: one of the
    five tags. *)
Definition recognized (format : value) : Prop :=
  exists tag : string,
    format = VString tag
    /\ In tag ["RELATIVE"; "DATE"; "TIME"; "SHORT_TIME"; "FULL"].

(** [Number.isInteger(x)] *)
Definition is_integer (x : number) : bool :=
  match x with
  | Fin q => Qis_int q
  | _ => false
  end.

(** The next value of the pseudo-random source. *)
Definition next_random (w : world) : Q := random_source w (random_drawn w).

(** A rational that is a binary64 value: its rounding is itself. *)
Definition binary64 (q : Q) : Prop := to_binary64 q = fin q.

(** A number that is a binary64 value between two rationals. *)
Definition within (lo hi : Q) (x : number) : Prop :=
  exists y : Q, x = Fin y /\ binary64 y /\ (lo <= y)%Q /\ (y <= hi)%Q.

(** What the host promises of a value of [Math.random()]: a binary64
    value in [0,1). *)
Definition random_value (u : Q) : Prop :=
  binary64 u /\ (0 <= u)%Q /\ (u < 1)%Q.
















(** An array of integers, as the argument of a call. *)
Definition numbers_of (l : list Z) : list value :=
  map (fun z => VNumber (int z)) l.

(** The product and the sum of a list of integers. *)
Definition Zproduct (l : list Z) : Z := fold_right Z.mul 1 l.
Definition Zsum (l : list Z) : Z := fold_right Z.add 0 l.

(** The value that the [i]-th coming call of [Math.random()] returns. *)
Definition draw (w : world) (i : nat) : Q :=
  random_source w (i + random_drawn w)%nat.

(** The world after [n] more calls of [Math.random()]. *)
Definition after_draws (n : nat) (w : world) : world :=
  mkWorld (clock_ms w) (random_source w) (n + random_drawn w)%nat.

(** The capital of an ASCII letter; any other character is itself. *)
Definition ascii_upper (c : ascii) : ascii :=
  let n := code c in
  if (97 <=? n) && (n <=? 122) then ascii_of_nat (Z.to_nat (n - 32)) else c.

Fixpoint string_upper (s : string) : string :=
  match s with
  | EmptyString => EmptyString
  | String c rest => String (ascii_upper c) (string_upper rest)
  end.

(** The string holds a '#'. *)
Fixpoint has_hash (s : string) : bool :=
  match s with
  | EmptyString => false
  | String c rest => Ascii.eqb c "#" || has_hash rest
  end.

(** [rgbToHex] applied to the record that [hexToRgb] returns. *)
Definition hex_of_rgb `{Host} (c : rgb) : outcome string :=
  colors.rgbToHex (VNumber (rgb_r c)) (VNumber (rgb_g c)) (VNumber (rgb_b c)).

(** The factor max(min(k - 3, 9 - k, 1), -1) of [hslToRgb], with
    k = (n + h / 30) % 12. *)
Definition hue_factor (h n : number) : number :=
  let k := num_rem (num_add n (num_div h (int 30))) (int 12) in
  Math_max
    (Math_min (Math_min (num_sub k (int 3)) (num_sub (int 9) k)) (int 1))
    (int (-1)).

(** The channel [Math.round(f(n) * 255)] of [hslToRgb]. *)
Definition hsl_channel (h s l n : number) : number :=
  let s := num_div s (int 100) in
  let l := num_div l (int 100) in
  let a := num_mul s (Math_min l (num_sub (int 1) l)) in
  Math_round (num_mul (num_sub l (num_mul a (hue_factor h n))) (int 255)).

(** The lightness that [rgbToHsl] returns. *)
Definition lightness_of (r g b : number) : number :=
  let r := num_div r (int 255) in
  let g := num_div g (int 255) in
  let b := num_div b (int 255) in
  let max := Math_max (Math_max r g) b in
  let min := Math_min (Math_min r g) b in
  Math_round (num_mul (num_div (num_add max min) (int 2)) (int 100)).

(* ================================================================== *)
(** * Properties *)

(** ** Numbers that are integers *)

Lemma Qred_inject_Z (z : Z) : Qred (inject_Z z) = inject_Z z.
Proof.
  unfold Qred, inject_Z.
  pose proof (Z.ggcd_gcd z 1) as Hg.
  pose proof (Z.ggcd_correct_divisors z 1) as Hd.
  destruct (Z.ggcd z 1) as [d [x y]]; simpl in *.
  rewrite Z.gcd_1_r in Hg; subst d.
  destruct Hd as [Hx Hy].
  assert (Ex : x = z) by lia. assert (Ey : y = 1) by lia.
  rewrite Ex, Ey. reflexivity.
Qed.

Lemma fin_int (q : Q) (z : Z) : (q == inject_Z z)%Q -> fin q = int z.
Proof.
  intros E. unfold fin, int.
  rewrite (Qred_complete _ _ E). now rewrite Qred_inject_Z.
Qed.

(** ** Rounding to binary64 *)

Lemma pow2_pos (k : Z) : (0 < pow2 k)%Q.
Proof. apply Qpower_0_lt. reflexivity. Qed.

Lemma pow2_add (a b : Z) : (pow2 (a + b) == pow2 a * pow2 b)%Q.
Proof. apply Qpower_plus. discriminate. Qed.

Lemma pow2_inject (k : Z) : 0 <= k -> (pow2 k == inject_Z (2 ^ k))%Q.
Proof. intros Hk. symmetry. apply (Zpower_Qpower 2 k Hk). Qed.

Lemma pow2_le (a b : Z) : a <= b -> (pow2 a <= pow2 b)%Q.
Proof. intros H. apply Qpower_le_compat_l; [assumption | discriminate]. Qed.

Lemma pow2_lt (a b : Z) : a < b -> (pow2 a < pow2 b)%Q.
Proof. intros H. apply Qpower_lt_compat_l; [assumption | reflexivity]. Qed.

Lemma pow2_lt_inv (a b : Z) : (pow2 a < pow2 b)%Q -> a < b.
Proof. intros H. apply (Qpower_lt_compat_l_inv (2 # 1)); [assumption | reflexivity]. Qed.

Lemma pow2_half (k : Z) : (pow2 (k - 1) == pow2 k * (1 # 2))%Q.
Proof. unfold Z.sub. rewrite pow2_add. reflexivity. Qed.

Lemma pow2_double (k : Z) : (pow2 (k + 1) == pow2 k * 2)%Q.
Proof. rewrite pow2_add. reflexivity. Qed.

Lemma binade_spec (a : Q) :
  (0 < a)%Q -> (pow2 (binade a) <= a)%Q /\ (a < pow2 (binade a + 1))%Q.
Proof.
  intros Ha. destruct a as [n d]. unfold binade. cbn [Qnum Qden].
  assert (Hn : 0 < n) by (unfold Qlt in Ha; simpl in Ha; lia).
  pose proof (Z.log2_spec n Hn) as [Hn1 Hn2].
  pose proof (Z.log2_spec (Zpos d) eq_refl) as [Hd1 Hd2].
  pose proof (Z.log2_nonneg n) as Ln. pose proof (Z.log2_nonneg (Zpos d)) as Ld.
  set (ln := Z.log2 n) in *. set (ld := Z.log2 (Zpos d)) in *.
  assert (N1 : (pow2 ln <= inject_Z n)%Q)
    by (rewrite pow2_inject by lia; now rewrite <- Zle_Qle).
  assert (N2 : (inject_Z n < pow2 (ln + 1))%Q).
  { rewrite pow2_inject by lia. rewrite <- Zlt_Qlt.
    now replace (ln + 1) with (Z.succ ln) by lia. }
  assert (D1 : (pow2 ld <= inject_Z (Zpos d))%Q)
    by (rewrite pow2_inject by lia; now rewrite <- Zle_Qle).
  assert (D2 : (inject_Z (Zpos d) < pow2 (ld + 1))%Q).
  { rewrite pow2_inject by lia. rewrite <- Zlt_Qlt.
    now replace (ld + 1) with (Z.succ ld) by lia. }
  assert (E : ((n # d) * inject_Z (Zpos d) == inject_Z n)%Q).
  { unfold Qeq, Qmult, inject_Z; simpl. lia. }
  pose proof (pow2_pos ld) as Pd. pose proof (pow2_pos (ln - ld)) as Pk.
  pose proof (pow2_add (ln - ld) ld) as A1.
  replace (ln - ld + ld) with ln in A1 by lia.
  pose proof (pow2_double ln) as A2. pose proof (pow2_double ld) as A3.
  pose proof (pow2_double (ln - ld)) as A4.
  pose proof (pow2_half (ln - ld)) as A5.
  set (a := (n # d)%Q) in *.
  set (N := inject_Z n) in *. set (D := inject_Z (Zpos d)) in *.
  set (P := pow2 (ln - ld)) in *. set (Pn := pow2 ln) in *.
  set (Pl := pow2 ld) in *.
  destruct (Qle_bool P a) eqn:C.
  - apply Qle_bool_iff in C. split; [exact C|].
    rewrite A4. nra.
  - assert (C' : (a < P)%Q).
    { apply Qnot_le_lt. intros C'. apply Qle_bool_iff in C'. congruence. }
    split.
    + rewrite A5. nra.
    + replace (ln - ld - 1 + 1) with (ln - ld) by lia. exact C'.
Qed.

Lemma binade_unique (a : Q) (e : Z) :
  (pow2 e <= a)%Q -> (a < pow2 (e + 1))%Q -> binade a = e.
Proof.
  intros H1 H2.
  assert (Ha : (0 < a)%Q) by (pose proof (pow2_pos e); lra).
  destruct (binade_spec a Ha) as [B1 B2].
  assert (binade a < e + 1) by (apply pow2_lt_inv; lra).
  assert (e < binade a + 1) by (apply pow2_lt_inv; lra).
  lia.
Qed.

Lemma Qfloor_unique (x : Q) (z : Z) :
  (inject_Z z <= x)%Q -> (x < inject_Z (z + 1))%Q -> Qfloor x = z.
Proof.
  intros H1 H2.
  pose proof (Qfloor_le x) as F1. pose proof (Qlt_floor x) as F2.
  assert (z < Qfloor x + 1) by (rewrite Zlt_Qlt; lra).
  assert (Qfloor x < z + 1) by (rewrite Zlt_Qlt; lra).
  lia.
Qed.

Lemma round_half_even_near (x : Q) :
  (Qabs (inject_Z (round_half_even x) - x) <= 1 # 2)%Q.
Proof.
  unfold round_half_even.
  pose proof (Qfloor_le x) as F1. pose proof (Qlt_floor x) as F2.
  rewrite inject_Z_plus in F2.
  apply Qabs_Qle_condition.
  destruct (Qcompare_spec (x - inject_Z (Qfloor x)) (1 # 2)) as [C|C|C];
    [destruct (Z.even (Qfloor x))| |];
    rewrite ?inject_Z_plus; change (inject_Z 1) with 1%Q in *; split; lra.
Qed.

Lemma round_half_even_comp (x y : Q) :
  (x == y)%Q -> round_half_even x = round_half_even y.
Proof.
  intros E. unfold round_half_even.
  rewrite (Qfloor_comp _ _ E).
  assert (E' : (x - inject_Z (Qfloor y) == y - inject_Z (Qfloor y))%Q)
    by (now rewrite E).
  now rewrite (Qcompare_comp _ _ E' _ _ (Qeq_refl (1 # 2))).
Qed.

Lemma round_half_even_int (z : Z) : round_half_even (inject_Z z) = z.
Proof.
  unfold round_half_even. rewrite Qfloor_Z.
  assert (C : (inject_Z z - inject_Z z < 1 # 2)%Q) by lra.
  now rewrite (proj1 (Qlt_alt _ _) C).
Qed.

Lemma round_half_even_nonneg (x : Q) : (0 <= x)%Q -> 0 <= round_half_even x.
Proof.
  intros Hx. unfold round_half_even.
  assert (0 <= Qfloor x).
  { rewrite <- (Qfloor_Z 0). now apply Qfloor_resp_le. }
  destruct (_ ?= _)%Q; [destruct (Z.even _)| |]; lia.
Qed.

Lemma Qis_zero_spec (q : Q) : Qis_zero q = true <-> (q == 0)%Q.
Proof.
  unfold Qis_zero, Qeq; simpl. rewrite Z.eqb_eq. lia.
Qed.

Lemma Qis_neg_spec (q : Q) : Qis_neg q = true <-> (q < 0)%Q.
Proof.
  unfold Qis_neg, Qlt; simpl. rewrite Z.ltb_lt. lia.
Qed.

Lemma to_binary64_comp (p q : Q) : (p == q)%Q -> to_binary64 p = to_binary64 q.
Proof. intros E. unfold to_binary64. now rewrite (Qred_complete _ _ E). Qed.

Lemma to_binary64_zero (q : Q) : (q == 0)%Q -> to_binary64 q = Fin 0.
Proof. intros E. now rewrite (to_binary64_comp _ _ E). Qed.

(** The rounded value of a rational that is not 0, below 2^(E+1) in
    magnitude: it is finite, within 2^(E-53) of the rational, and on
    the same side of 0. *)
Lemma to_binary64_near (q : Q) (E : Z) :
  ~ (q == 0)%Q -> (Qabs q < pow2 (E + 1))%Q -> -1022 <= E <= 1022 ->
  exists y : Q,
    to_binary64 q = Fin y
    /\ (Qabs (y - q) <= pow2 (E - 53))%Q
    /\ ((0 <= q)%Q -> (0 <= y)%Q)
    /\ ((q <= 0)%Q -> (y <= 0)%Q).
Proof.
  intros Hq Hlt HE. unfold to_binary64.
  pose proof (Qred_correct q) as Eq. set (q' := Qred q) in *.
  assert (Hz : Qis_zero q' = false).
  { destruct (Qis_zero q') eqn:Z; [|reflexivity].
    apply Qis_zero_spec in Z. elim Hq. now rewrite <- Eq. }
  rewrite Hz.
  assert (Ha : (0 < Qabs q')%Q).
  { destruct (Qlt_le_dec 0 (Qabs q')) as [L|L]; [exact L|].
    pose proof (Qabs_nonneg q') as N.
    assert (Z : (Qabs q' == 0)%Q) by lra.
    elim Hq. rewrite <- Eq.
    pose proof (Qle_Qabs q') as U. pose proof (Qle_Qabs (- q')) as V.
    rewrite Qabs_opp in V. lra. }
  assert (Hlt' : (Qabs q' < pow2 (E + 1))%Q) by (now rewrite Eq).
  destruct (binade_spec _ Ha) as [B1 B2].
  set (a := Qabs q') in *.
  assert (Hb : binade a <= E).
  { assert (binade a < E + 1) by (apply pow2_lt_inv; lra). lia. }
  set (e := Z.max (binade a) (-1022)).
  assert (He : e <= E) by lia.
  pose proof (pow2_pos (e - 52)) as Hulp.
  set (ulp := pow2 (e - 52)) in *.
  pose proof (round_half_even_near (a / ulp)) as Hm.
  assert (Hm0 : 0 <= round_half_even (a / ulp)).
  { apply round_half_even_nonneg. apply Qle_shift_div_l; lra. }
  set (m := round_half_even (a / ulp)) in *.
  apply Qabs_Qle_condition in Hm.
  assert (Hx : (a / ulp * ulp == a)%Q) by (field; lra).
  assert (Hy : (- (ulp * (1 # 2)) <= inject_Z m * ulp - a
                <= ulp * (1 # 2))%Q) by nra.
  assert (Hy0 : (0 <= inject_Z m * ulp)%Q).
  { apply Qmult_le_0_compat; [|lra]. rewrite <- (Zle_Qle 0). exact Hm0. }
  assert (Hbound : (ulp * (1 # 2) <= pow2 (E - 53))%Q).
  { unfold ulp. rewrite <- pow2_half. apply pow2_le. lia. }
  assert (Hover : Qle_bool (pow2 1024) (inject_Z m * ulp) = false).
  { destruct (Qle_bool _ _) eqn:O; [|reflexivity].
    apply Qle_bool_iff in O.
    pose proof (pow2_le (E + 1) 1023 ltac:(lia)) as P1.
    pose proof (pow2_lt (E - 53) 1023 ltac:(lia)) as P2.
    pose proof (pow2_double 1023) as P3.
    change (1023 + 1) with 1024 in P3. lra. }
  rewrite Hover.
  destruct (Qis_neg q') eqn:S.
  - apply Qis_neg_spec in S.
    assert (Ea : (a == - q')%Q) by (apply Qabs_neg; lra).
    exists (Qred (- (inject_Z m * ulp))). split; [reflexivity|].
    rewrite Qred_correct. split; [|split].
    + apply Qabs_Qle_condition. lra.
    + intros. lra.
    + intros. lra.
  - assert (S' : (0 <= q')%Q).
    { apply Qnot_lt_le. intros L. apply Qis_neg_spec in L. congruence. }
    assert (Ea : (a == q')%Q) by (now apply Qabs_pos).
    exists (Qred (inject_Z m * ulp)). split; [reflexivity|].
    rewrite Qred_correct. split; [|split].
    + apply Qabs_Qle_condition. lra.
    + intros. lra.
    + intros. lra.
Qed.

(** A rational of 53 significant bits, within the range of the normal
    binary64 values, is its own rounding. *)
Lemma to_binary64_exact (q : Q) (m e : Z) :
  (q == inject_Z m * pow2 (e - 52))%Q ->
  2 ^ 52 <= Z.abs m < 2 ^ 53 -> -1022 <= e <= 1023 ->
  to_binary64 q = fin q.
Proof.
  intros Eq Hm He. unfold to_binary64.
  pose proof (Qred_correct q) as Er. set (q' := Qred q) in *.
  pose proof (pow2_pos (e - 52)) as Hulp.
  assert (M1 : (pow2 52 <= inject_Z (Z.abs m))%Q)
    by (rewrite pow2_inject by lia; rewrite <- Zle_Qle; lia).
  assert (M2 : (inject_Z (Z.abs m) < pow2 53)%Q)
    by (rewrite pow2_inject by lia; rewrite <- Zlt_Qlt; lia).
  assert (Ea : (Qabs q' == inject_Z (Z.abs m) * pow2 (e - 52))%Q).
  { rewrite Er, Eq, Qabs_Qmult.
    rewrite (Qabs_pos (pow2 (e - 52))) by lra. reflexivity. }
  pose proof (pow2_add 52 (e - 52)) as P1.
  replace (52 + (e - 52)) with e in P1 by lia.
  pose proof (pow2_add 53 (e - 52)) as P2.
  replace (53 + (e - 52)) with (e + 1) in P2 by lia.
  pose proof (pow2_pos 52) as P52.
  assert (B : binade (Qabs q') = e).
  { apply binade_unique; rewrite Ea; [rewrite P1 | rewrite P2]; nra. }
  assert (Hz : Qis_zero q' = false).
  { destruct (Qis_zero q') eqn:Z; [|reflexivity].
    apply Qis_zero_spec in Z. rewrite Z in Ea.
    change (Qabs 0) with 0%Q in Ea. nra. }
  rewrite Hz, B. replace (Z.max e (-1022)) with e by lia.
  assert (R : round_half_even (Qabs q' / pow2 (e - 52)) = Z.abs m).
  { rewrite <- (round_half_even_int (Z.abs m)).
    apply round_half_even_comp. rewrite Ea. field. lra. }
  rewrite R.
  assert (Hover : Qle_bool (pow2 1024) (inject_Z (Z.abs m) * pow2 (e - 52))
                  = false).
  { destruct (Qle_bool _ _) eqn:O; [|reflexivity].
    apply Qle_bool_iff in O.
    pose proof (pow2_le (e + 1) 1024 ltac:(lia)). nra. }
  rewrite Hover. unfold fin. f_equal. apply Qred_complete.
  destruct (Qis_neg q') eqn:S.
  - apply Qis_neg_spec in S.
    pose proof (Qabs_neg q' ltac:(lra)). lra.
  - assert (S' : (0 <= q')%Q).
    { apply Qnot_lt_le. intros L. apply Qis_neg_spec in L. congruence. }
    pose proof (Qabs_pos q' S'). lra.
Qed.

(** The integers up to 2^53 in magnitude are binary64 values. *)
Lemma to_binary64_int (z : Z) :
  Z.abs z <= 2 ^ 53 -> to_binary64 (inject_Z z) = int z.
Proof.
  intros Hz.
  destruct (Z.eq_dec z 0) as [->|Hne]; [reflexivity|].
  rewrite <- (fin_int (inject_Z z) z) by reflexivity.
  pose proof (Z.log2_spec (Z.abs z) ltac:(lia)) as [L1 L2].
  pose proof (Z.log2_nonneg (Z.abs z)) as L0.
  set (e := Z.log2 (Z.abs z)) in *.
  assert (He : e <= 53).
  { destruct (Z.le_gt_cases e 53) as [H|H]; [exact H|].
    pose proof (Z.pow_le_mono_r 2 54 e ltac:(lia) ltac:(lia)).
    change (2 ^ 54) with (2 * 2 ^ 53) in *. lia. }
  destruct (Z.eq_dec e 53) as [E53|E53].
  - rewrite E53 in L1.
    apply (to_binary64_exact _ (z / 2) 53); [|Z.div_mod_to_equations; lia | lia].
    assert (Ez : z = 2 ^ 53 \/ z = - 2 ^ 53) by lia.
    destruct Ez as [-> | ->]; reflexivity.
  - apply (to_binary64_exact _ (z * 2 ^ (52 - e)) e); [| |lia].
    + rewrite inject_Z_mult, <- pow2_inject by lia.
      rewrite <- Qmult_assoc, <- pow2_add.
      replace (52 - e + (e - 52)) with 0 by lia.
      change (pow2 0) with 1%Q. ring.
    + rewrite Z.abs_mul.
      assert (P : 0 < 2 ^ (52 - e)) by (apply Z.pow_pos_nonneg; lia).
      rewrite (Z.abs_eq (2 ^ (52 - e))) by lia.
      assert (A1 : 2 ^ e * 2 ^ (52 - e) = 2 ^ 52)
        by (rewrite <- Z.pow_add_r by lia; f_equal; lia).
      assert (A2 : 2 ^ Z.succ e * 2 ^ (52 - e) = 2 ^ 53)
        by (rewrite <- Z.pow_add_r by lia; f_equal; lia).
      nia.
Qed.

(** ** Arithmetic on integers *)

Lemma num_add_int (x y : Z) :
  Z.abs (x + y) <= 2 ^ 53 -> num_add (int x) (int y) = int (x + y).
Proof.
  intros Hs. cbn [num_add int]. rewrite <- inject_Z_plus.
  now apply to_binary64_int.
Qed.

Lemma num_incr_int (i : Z) : num_incr (int i) = int (i + 1).
Proof.
  cbn [num_incr int]. apply fin_int. now rewrite inject_Z_plus.
Qed.

Lemma Qtrunc_inject_Z (z : Z) : Qtrunc (inject_Z z) = z.
Proof. unfold Qtrunc; simpl. apply Z.quot_1_r. Qed.

Lemma ToInt32_int (z : Z) : ToInt32 (int z) = wrap32 z.
Proof. unfold ToInt32, int. now rewrite Qtrunc_inject_Z. Qed.

Lemma ToUint32_int (z : Z) : ToUint32 (int z) = z mod 2 ^ 32.
Proof. unfold ToUint32, int. now rewrite Qtrunc_inject_Z. Qed.

Lemma wrap32_small (z : Z) : - 2 ^ 31 <= z < 2 ^ 31 -> wrap32 z = z.
Proof.
  intros Hz. unfold wrap32.
  rewrite Z.mod_small; change (2 ^ 32) with 4294967296;
    change (2 ^ 31) with 2147483648 in *; lia.
Qed.

Lemma wrap32_range (z : Z) : - 2 ^ 31 <= wrap32 z < 2 ^ 31.
Proof.
  unfold wrap32.
  pose proof (Z.mod_pos_bound (z + 2 ^ 31) (2 ^ 32) eq_refl).
  change (2 ^ 32) with 4294967296 in *;
    change (2 ^ 31) with 2147483648 in *; lia.
Qed.

Lemma Qfloor_inject_Z (z : Z) : Qfloor (inject_Z z) = z.
Proof. apply Qfloor_Z. Qed.

Lemma Qis_int_inject_Z (z : Z) : Qis_int (inject_Z z) = true.
Proof.
  unfold Qis_int. rewrite Qfloor_inject_Z. apply Qeq_bool_iff. reflexivity.
Qed.

Lemma number_toString_16_int `{Host} (z : Z) :
  number_toString 16 (int z) = int_toString 16 z.
Proof.
  unfold number_toString, int.
  now rewrite Qis_int_inject_Z, Qfloor_inject_Z.
Qed.

(** ** Digits *)

(** Case analysis on a small natural number. *)
Ltac peel k tac := destruct k as [|k]; [tac|].

Lemma digit_value_char (d : Z) :
  0 <= d < 36 -> digit_value (digit_char d) = Some d.
Proof.
  intros Hd. rewrite <- (Z2Nat.id d) by lia.
  assert (Hk : (Z.to_nat d < 36)%nat) by lia.
  remember (Z.to_nat d) as k eqn:Ek. clear Ek Hd.
  do 36 (peel k ltac:(reflexivity)). lia.
Qed.

Lemma append_assoc (s1 s2 s3 : string) : (s1 ++ s2) ++ s3 = s1 ++ (s2 ++ s3).
Proof. induction s1 as [|c s1 IH]; simpl; [reflexivity | now rewrite IH]. Qed.

Lemma to_digits_acc (radix : Z) (fuel : nat) :
  forall n acc,
    to_digits radix fuel n acc = to_digits radix fuel n EmptyString ++ acc.
Proof.
  induction fuel as [|fuel IH]; intros n acc; simpl.
  - reflexivity.
  - destruct (n / radix =? 0).
    + reflexivity.
    + rewrite IH. rewrite (IH _ (String _ EmptyString)).
      rewrite append_assoc. reflexivity.
Qed.

Lemma to_digits_enough (radix : Z) (Hr : 2 <= radix) (f1 : nat) :
  forall f2 n acc,
    0 <= n < radix ^ Z.of_nat (S f1) ->
    n < radix ^ Z.of_nat (S f2) ->
    to_digits radix (S f1) n acc = to_digits radix (S f2) n acc.
Proof.
  induction f1 as [|f1 IH]; intros f2 n acc H1 H2.
  - assert (E : n / radix = 0).
    { apply Z.div_small. change (Z.of_nat 1) with 1 in H1.
      rewrite Z.pow_1_r in H1. lia. }
    simpl. rewrite E. reflexivity.
  - cbn [to_digits]. destruct (n / radix =? 0) eqn:E; [reflexivity|].
    apply Z.eqb_neq in E.
    assert (Hdiv : forall k : nat,
               n < radix ^ Z.of_nat (S k) -> n / radix < radix ^ Z.of_nat k).
    { intros k Hk. apply Z.div_lt_upper_bound; [lia|].
      rewrite Nat2Z.inj_succ, Z.pow_succ_r in Hk by lia. exact Hk. }
    destruct f2 as [|f2].
    + exfalso. apply E. apply Z.div_small.
      change (Z.of_nat 1) with 1 in H2. rewrite Z.pow_1_r in H2. lia.
    + apply IH.
      * split; [apply Z.div_pos; lia | apply Hdiv; lia].
      * apply Hdiv; lia.
Qed.

Lemma lt_pow_log2 (radix : Z) (Hr : 2 <= radix) (n : Z) (k : nat) :
  0 <= n -> Z.log2 n <= Z.of_nat k -> n < radix ^ Z.of_nat (S k).
Proof.
  intros Hn Hk.
  apply Z.lt_le_trans with (2 ^ Z.of_nat (S k)).
  - destruct (Z.eq_dec n 0) as [->|Hz].
    + apply Z.pow_pos_nonneg; lia.
    + apply Z.log2_lt_pow2; lia.
  - apply Z.pow_le_mono_l. lia.
Qed.

(** Any fuel that covers the number gives the digits of
    [nat_toString]. *)
Lemma nat_toString_fuel (radix : Z) (Hr : 2 <= radix) (n : Z) (k : nat) :
  0 <= n -> n < radix ^ Z.of_nat (S k) ->
  nat_toString radix n = to_digits radix (S k) n EmptyString.
Proof.
  intros Hn Hk. unfold nat_toString.
  apply to_digits_enough; trivial.
  split; trivial. apply lt_pow_log2; trivial.
  rewrite Z2Nat.id; [lia | apply Z.log2_nonneg].
Qed.

(** One more digit at the end. *)
Lemma nat_toString_step (radix : Z) (Hr : 2 <= radix) (m d : Z) :
  0 < m -> 0 <= d < radix ->
  nat_toString radix (m * radix + d)
  = nat_toString radix m ++ String (digit_char d) EmptyString.
Proof.
  intros Hm Hd.
  assert (Hlog : Z.log2 m < Z.log2 (m * radix + d)).
  { apply Z.lt_le_trans with (Z.log2 (2 * m)).
    - rewrite Z.log2_double by lia. lia.
    - apply Z.log2_le_mono. nia. }
  pose proof (Z.log2_nonneg m) as Hl.
  assert (Ediv : (m * radix + d) / radix = m).
  { rewrite Z.div_add_l, Z.div_small by lia. lia. }
  assert (Emod : (m * radix + d) mod radix = d).
  { rewrite Z.add_comm, Z.mod_add, Z.mod_small by lia. reflexivity. }
  unfold nat_toString at 1. cbn [to_digits].
  rewrite Ediv, Emod.
  destruct (m =? 0) eqn:E; [apply Z.eqb_eq in E; lia|].
  rewrite to_digits_acc. f_equal.
  replace (Z.to_nat (Z.log2 (m * radix + d)))
    with (S (Z.to_nat (Z.log2 (m * radix + d) - 1))) by lia.
  symmetry. apply nat_toString_fuel; try lia.
  apply lt_pow_log2; lia.
Qed.

Lemma to_digits_length (radix : Z) (fuel : nat) :
  forall n acc,
    (String.length (to_digits radix fuel n acc)
     <= fuel + String.length acc)%nat.
Proof.
  induction fuel as [|fuel IH]; intros n acc; simpl.
  - lia.
  - destruct (n / radix =? 0); simpl.
    + lia.
    + specialize (IH (n / radix) (String (digit_char (n mod radix)) acc)).
      simpl in IH. lia.
Qed.

(** A number below [radix ^ k] has at most [k] digits. *)
Lemma nat_toString_length (radix : Z) (Hr : 2 <= radix) (n : Z) (k : nat) :
  0 <= n -> n < radix ^ Z.of_nat (S k) ->
  (String.length (nat_toString radix n) <= S k)%nat.
Proof.
  intros Hn Hk. rewrite (nat_toString_fuel radix Hr n k Hn Hk).
  pose proof (to_digits_length radix (S k) n EmptyString) as L.
  simpl in L |- *. lia.
Qed.

(** ** Reading back what was printed *)

Ltac hex_cases d Hd :=
  unfold hex_digit in Hd;
  rewrite <- (Z2Nat.id d) by lia;
  let k := fresh "k" in
  let Ek := fresh "Ek" in
  let Hk := fresh "Hk" in
  assert (Hk : (Z.to_nat d < 16)%nat) by lia;
  remember (Z.to_nat d) as k eqn:Ek; clear Ek Hd;
  do 16 (peel k ltac:(reflexivity)); lia.

Lemma trim_start_hex (d : Z) (rest : string) :
  hex_digit d ->
  trim_start (String (digit_char d) rest) = String (digit_char d) rest.
Proof. intros Hd. hex_cases d Hd. Qed.

Lemma strip_sign_hex (d : Z) (rest : string) :
  hex_digit d ->
  strip_sign (String (digit_char d) rest) = (1, String (digit_char d) rest).
Proof. intros Hd. hex_cases d Hd. Qed.

Lemma strip_0x_hex_nil (d : Z) :
  hex_digit d ->
  strip_0x (String (digit_char d) EmptyString)
  = String (digit_char d) EmptyString.
Proof. intros Hd. hex_cases d Hd. Qed.

Lemma strip_0x_hex_cons (c : ascii) (d : Z) (rest : string) :
  hex_digit d ->
  strip_0x (String c (String (digit_char d) rest))
  = String c (String (digit_char d) rest).
Proof.
  intros Hd. unfold strip_0x.
  destruct c as [[] [] [] [] [] [] [] []]; try reflexivity.
  hex_cases d Hd.
Qed.

Lemma round_binary64_small (z : Z) :
  Z.abs z < 2 ^ 53 -> round_binary64 z = int z.
Proof.
  intros Hz. unfold round_binary64.
  destruct (Z.abs z <? 2 ^ 53) eqn:E; [reflexivity|].
  apply Z.ltb_ge in E. lia.
Qed.

Lemma append_nil_r (s : string) : s ++ EmptyString = s.
Proof. induction s as [|c s IH]; simpl; [reflexivity | now rewrite IH]. Qed.

Lemma take_digits_prefix (ds : list Z) (tail : string) :
  Forall hex_digit ds -> ends_digits tail = true ->
  take_digits 16 (string_of_digits ds ++ tail) = ds.
Proof.
  intros Hall Htail. induction Hall as [|d ds Hd _ IH]; simpl.
  - destruct tail as [|c rest]; [reflexivity|]. simpl in *.
    unfold stops_hex in Htail. destruct (digit_value c) as [d|]; [|reflexivity].
    apply andb_prop in Htail. destruct Htail as [Hle _].
    apply Z.leb_le in Hle. destruct (d <? 16) eqn:E; [|reflexivity].
    apply Z.ltb_lt in E. lia.
  - unfold hex_digit in Hd. rewrite digit_value_char by lia.
    destruct (d <? 16) eqn:E; [now rewrite IH | apply Z.ltb_ge in E; lia].
Qed.

Lemma strip_0x_stops (a c : ascii) (rest : string) :
  stops_hex c = true ->
  strip_0x (String a (String c rest)) = String a (String c rest).
Proof.
  intros Hc. unfold strip_0x.
  destruct a as [[] [] [] [] [] [] [] []]; try reflexivity.
  destruct c as [[] [] [] [] [] [] [] []]; try reflexivity; discriminate Hc.
Qed.

(** [parseInt] reads a nonempty run of hexadecimal digits as the number
    they denote, and ignores what follows it. *)
Lemma parseInt_hex_prefix (ds : list Z) (tail : string) :
  ds <> [] -> Forall hex_digit ds -> ends_digits tail = true ->
  parseInt (string_of_digits ds ++ tail) 16
  = round_binary64 (digits_value 16 ds).
Proof.
  intros Hne Hall Htail.
  pose proof (take_digits_prefix ds tail Hall Htail) as Htake.
  destruct ds as [|d ds]; [contradiction|].
  inversion Hall as [|? ? Hd Hds]; subst.
  unfold parseInt. cbn [string_of_digits append] in *.
  rewrite trim_start_hex, strip_sign_hex by assumption.
  cbn [Z.eqb orb andb Z.leb Z.compare Pos.compare Pos.compare_cont Pos.eqb].
  assert (E : strip_0x (String (digit_char d) (string_of_digits ds ++ tail))
              = String (digit_char d) (string_of_digits ds ++ tail)).
  { destruct ds as [|d' ds']; cbn [string_of_digits append].
    - destruct tail as [|c rest].
      + now apply strip_0x_hex_nil.
      + now apply strip_0x_stops.
    - inversion Hds; subst. now apply strip_0x_hex_cons. }
  rewrite ?E, Htake. now rewrite Z.mul_1_l.
Qed.

Lemma parseInt_hex_digits (ds : list Z) :
  ds <> [] -> Forall hex_digit ds ->
  parseInt (string_of_digits ds) 16 = round_binary64 (digits_value 16 ds).
Proof.
  intros Hne Hall. rewrite <- (append_nil_r (string_of_digits ds)).
  now apply parseInt_hex_prefix.
Qed.

(** ** Shifts and masks on small integers *)

Lemma land_31 (k : Z) : 0 <= k < 32 -> Z.land (k mod 2 ^ 32) 31 = k.
Proof.
  intros Hk. rewrite Z.mod_small by (change (2 ^ 32) with 4294967296; lia).
  change 31 with (Z.ones 5). rewrite Z.land_ones by lia.
  apply Z.mod_small. change (2 ^ 5) with 32. lia.
Qed.

Lemma num_shl_int (x k : Z) :
  0 <= k < 32 -> - 2 ^ 31 <= x < 2 ^ 31 -> - 2 ^ 31 <= x * 2 ^ k < 2 ^ 31 ->
  num_shl (int x) (int k) = int (x * 2 ^ k).
Proof.
  intros Hk Hx Hs. unfold num_shl.
  rewrite ToInt32_int, ToUint32_int, land_31 by assumption.
  rewrite (wrap32_small x Hx), Z.shiftl_mul_pow2 by lia.
  now rewrite wrap32_small.
Qed.

Lemma num_sar_int (x k : Z) :
  0 <= k < 32 -> num_sar (int x) (int k) = int (Z.shiftr (wrap32 x) k).
Proof.
  intros Hk. unfold num_sar.
  now rewrite ToInt32_int, ToUint32_int, land_31.
Qed.

Lemma num_and_int (x y : Z) :
  num_and (int x) (int y) = int (Z.land (wrap32 x) (wrap32 y)).
Proof. unfold num_and. now rewrite !ToInt32_int. Qed.

Lemma land_255 (x : Z) : Z.land x 255 = x mod 256.
Proof. change 255 with (Z.ones 8). now rewrite Z.land_ones by lia. Qed.

Lemma channel_range (bigint : number) (k : Z) :
  exists c : Z, channel bigint k = int c /\ 0 <= c <= 255.
Proof.
  unfold channel, num_and. eexists; split; [reflexivity|].
  rewrite ToInt32_int. change (wrap32 255) with 255. rewrite land_255.
  pose proof (Z.mod_pos_bound (ToInt32 (num_sar bigint (int k))) 256 eq_refl).
  lia.
Qed.

Lemma channel_packed (r g b : Z) :
  0 <= r <= 255 -> 0 <= g <= 255 -> 0 <= b <= 255 ->
  let m := int (r * 65536 + g * 256 + b) in
  channel m 16 = int r /\ channel m 8 = int g /\ num_and m (int 255) = int b.
Proof.
  intros Hr Hg Hb m. subst m. unfold channel.
  rewrite !num_sar_int, !num_and_int by lia.
  change (wrap32 255) with 255.
  assert (Hw : wrap32 (r * 65536 + g * 256 + b) = r * 65536 + g * 256 + b).
  { apply wrap32_small. change (2 ^ 31) with 2147483648. lia. }
  rewrite Hw, !Z.shiftr_div_pow2 by lia.
  change (2 ^ 16) with 65536. change (2 ^ 8) with 256.
  assert (E16 : (r * 65536 + g * 256 + b) / 65536 = r)
    by (Z.div_mod_to_equations; lia).
  assert (E8 : (r * 65536 + g * 256 + b) / 256 = r * 256 + g)
    by (Z.div_mod_to_equations; lia).
  rewrite E16, E8.
  rewrite !wrap32_small by (change (2 ^ 31) with 2147483648; lia).
  rewrite !land_255.
  repeat split; f_equal; Z.div_mod_to_equations; lia.
Qed.

(** ** colors: printing and reading a colour *)

Lemma hex6_digits (r g b : Z) :
  0 <= r <= 255 -> 0 <= g <= 255 -> 0 <= b <= 255 ->
  Forall hex_digit (hex6 r g b).
Proof.
  intros Hr Hg Hb. unfold hex6, hex_digit.
  repeat constructor; Z.div_mod_to_equations; lia.
Qed.

Lemma hex6_value (r g b : Z) :
  digits_value 16 (hex6 r g b) = r * 65536 + g * 256 + b.
Proof.
  unfold digits_value, hex6; simpl. Z.div_mod_to_equations. lia.
Qed.

Lemma rgbToHex_in_range `{Host} (r g b : Z) :
  0 <= r <= 255 -> 0 <= g <= 255 -> 0 <= b <= 255 ->
  colors.rgbToHex (VNumber (int r)) (VNumber (int g)) (VNumber (int b))
  = Returns (String "#" (string_of_digits (hex6 r g b))).
Proof.
  intros Hr Hg Hb. unfold colors.rgbToHex.
  rewrite !num_shl_int
    by (change (2 ^ 31) with 2147483648; change (2 ^ 24) with 16777216;
        change (2 ^ 16) with 65536; change (2 ^ 8) with 256; lia).
  rewrite !num_add_int
    by (change (2 ^ 53) with 9007199254740992;
        change (2 ^ 24) with 16777216; change (2 ^ 16) with 65536;
        change (2 ^ 8) with 256; lia).
  rewrite number_toString_16_int.
  do 2 f_equal. unfold int_toString.
  change (2 ^ 24) with 16777216. change (2 ^ 16) with 65536.
  change (2 ^ 8) with 256.
  destruct (_ <? 0) eqn:E; [apply Z.ltb_lt in E; lia | clear E].
  pose proof (hex6_digits r g b Hr Hg Hb) as Hd.
  unfold hex6, hex_digit in Hd.
  repeat match goal with
         | Hf : Forall _ (_ :: _) |- _ => inversion_clear Hf
         end.
  replace (1 * 16777216 + r * 65536 + g * 256 + b)
    with ((((((1 * 16 + r / 16) * 16 + r mod 16) * 16 + g / 16) * 16
             + g mod 16) * 16 + b / 16) * 16 + b mod 16)
    by (Z.div_mod_to_equations; lia).
  rewrite !nat_toString_step by lia.
  reflexivity.
Qed.

(** C1.  For integer channels r, g, b in [0,255], the hexadecimal text
    that [rgbToHex] prints is read back by [hexToRgb] as the record
    { r, g, b }. *)
Theorem hexToRgb_rgbToHex `{Host} (r g b : Z) :
  0 <= r <= 255 -> 0 <= g <= 255 -> 0 <= b <= 255 ->
  (hex <- colors.rgbToHex (VNumber (int r)) (VNumber (int g)) (VNumber (int b)) ;;
   colors.hexToRgb (VString hex))
  = Returns (mkRgb (int r) (int g) (int b)).
Proof.
  intros Hr Hg Hb. rewrite rgbToHex_in_range by assumption.
  cbn [bind colors.hexToRgb remove_first].
  change (Ascii.eqb "#" "#") with true. cbv iota.
  rewrite parseInt_hex_digits
    by (try discriminate; now apply hex6_digits).
  rewrite hex6_value, round_binary64_small
    by (change (2 ^ 53) with 9007199254740992; lia).
  destruct (channel_packed r g b Hr Hg Hb) as (Er & Eg & Eb).
  unfold channel in Er, Eg. now rewrite Er, Eg, Eb.
Qed.

Lemma num_and_255_range (x : number) :
  exists c : Z, num_and x (int 255) = int c /\ 0 <= c <= 255.
Proof.
  unfold num_and. eexists; split; [reflexivity|].
  rewrite ToInt32_int. change (wrap32 255) with 255. rewrite land_255.
  pose proof (Z.mod_pos_bound (ToInt32 x) 256 eq_refl). lia.
Qed.

Lemma hexToRgb_unfold (s : string) :
  colors.hexToRgb (VString s)
  = let bigint := parseInt (remove_first "#" s) 16 in
    Returns (mkRgb (channel bigint 16) (channel bigint 8)
                   (num_and bigint (int 255))).
Proof. reflexivity. Qed.

(** C10.  Whatever the string, [hexToRgb] returns three channels that
    are integers in [0,255]; when the text does not parse (the parse
    result is NaN) the three are 0. *)
Theorem hexToRgb_channels_in_range (s : string) :
  (exists r g b : Z,
      colors.hexToRgb (VString s) = Returns (mkRgb (int r) (int g) (int b))
      /\ 0 <= r <= 255 /\ 0 <= g <= 255 /\ 0 <= b <= 255)
  /\ (parseInt (remove_first "#" s) 16 = NaN ->
      colors.hexToRgb (VString s) = Returns (mkRgb (int 0) (int 0) (int 0))).
Proof.
  rewrite hexToRgb_unfold. cbv zeta. split.
  - destruct (channel_range (parseInt (remove_first "#" s) 16) 16)
      as (r & Er & Hr).
    destruct (channel_range (parseInt (remove_first "#" s) 16) 8)
      as (g & Eg & Hg).
    destruct (num_and_255_range (parseInt (remove_first "#" s) 16))
      as (b & Eb & Hb).
    exists r, g, b. rewrite Er, Eg, Eb. auto.
  - intros ->. reflexivity.
Qed.

(** C9.  [hexToRgb] never throws on a string: it returns a record
    whatever the text.  A text that does not parse at all gives the
    channels that the shifts and the mask make of NaN, and a text whose
    digits stop early (wrong length, or a character that is not a
    hexadecimal digit) gives the channels of the digits before the
    stop. *)
Theorem hexToRgb_malformed_returns :
  (forall s : string, exists c : rgb, colors.hexToRgb (VString s) = Returns c)
  /\ (forall s : string,
        parseInt (remove_first "#" s) 16 = NaN ->
        colors.hexToRgb (VString s)
        = Returns (mkRgb (channel NaN 16) (channel NaN 8)
                         (num_and NaN (int 255))))
  /\ (forall (ds : list Z) (c : ascii) (rest : string),
        ds <> [] -> Forall hex_digit ds -> stops_hex c = true ->
        colors.hexToRgb
          (VString (String "#" (string_of_digits ds ++ String c rest)))
        = colors.hexToRgb (VString (String "#" (string_of_digits ds))))
  /\ colors.hexToRgb (VString "#fff")
     = Returns (mkRgb (int 0) (int 15) (int 255))
  /\ colors.hexToRgb (VString "#12345678")
     = Returns (mkRgb (int 52) (int 86) (int 120))
  /\ colors.hexToRgb (VString "#12xyz")
     = Returns (mkRgb (int 0) (int 0) (int 18))
  /\ colors.hexToRgb (VString "red")
     = Returns (mkRgb (int 0) (int 0) (int 0)).
Proof.
  split; [|split; [|split]].
  - intros s. eexists. reflexivity.
  - intros s E. rewrite hexToRgb_unfold, E. reflexivity.
  - intros ds c rest Hne Hall Hc.
    rewrite !hexToRgb_unfold. cbn [remove_first].
    change (Ascii.eqb "#" "#") with true. cbv iota zeta.
    rewrite parseInt_hex_prefix, parseInt_hex_digits by assumption.
    reflexivity.
  - repeat split; reflexivity.
Qed.

(** ** numbers.isPrime *)

Lemma Zle_Qfloor (z : Z) (q : Q) : (inject_Z z <= q)%Q <-> z <= Qfloor q.
Proof.
  split; intros Hz.
  - rewrite <- (Qfloor_Z z). now apply Qfloor_resp_le.
  - apply Qle_trans with (inject_Z (Qfloor q)).
    + now rewrite <- Zle_Qle.
    + apply Qfloor_le.
Qed.

Lemma Qis_neg_false (q : Q) : Qis_neg q = false -> (0 <= q)%Q.
Proof.
  unfold Qis_neg, Qle; simpl. intros Hq. apply Z.ltb_ge in Hq. lia.
Qed.

Lemma num_le_int (x y : Z) : num_le (int x) (int y) = (x <=? y).
Proof.
  unfold num_le, int, Qcompare, Z.leb; simpl.
  rewrite !Z.mul_1_r. reflexivity.
Qed.

Lemma num_lt_2_false (q : Q) : num_lt (Fin q) (int 2) = false -> (2 <= q)%Q.
Proof.
  intros Hq. apply Qnot_lt_le. intros Hlt.
  pose proof (proj1 (Qlt_alt q (inject_Z 2)) Hlt) as C.
  unfold num_lt, int in Hq. rewrite C in Hq. discriminate.
Qed.

Lemma le_sqrt_int (i : Z) (q : Q) :
  0 <= i -> Qis_neg q = false ->
  le_sqrt (int i) (Fin q) = (i <=? Z.sqrt (Qfloor q)).
Proof.
  intros Hi Hq. unfold le_sqrt, int. rewrite Hq.
  assert (Hneg : Qis_neg (inject_Z i) = false).
  { unfold Qis_neg; simpl. now apply Z.ltb_ge. }
  rewrite Hneg. cbn [orb].
  apply Qis_neg_false in Hq.
  assert (Hf : 0 <= Qfloor q) by (now apply Zle_Qfloor).
  apply Bool.eq_iff_eq_true.
  rewrite Qle_bool_iff, Z.leb_le, <- inject_Z_mult, Zle_Qfloor.
  now apply Z.sqrt_le_square.
Qed.

Lemma isPrime_loop_eq (fuel : nat) (num i : number) :
  numbers.isPrime_loop fuel num i
  = if le_sqrt i num then
      if num_eq (num_rem num i) (int 0) then Returns false
      else match fuel with
           | O => OutOfFuel
           | S fuel' => numbers.isPrime_loop fuel' num (num_incr i)
           end
    else Returns true.
Proof. destruct fuel; reflexivity. Qed.

(** From [i] on, with fuel for the candidates up to the root, the loop
    returns, and it returns false exactly when a candidate divides. *)
Lemma isPrime_loop_total (q : Q) (q_nonneg : Qis_neg q = false) (fuel : nat) :
  forall i : Z,
    0 <= i -> Z.sqrt (Qfloor q) + 1 - i <= Z.of_nat fuel ->
    exists b : bool,
      numbers.isPrime_loop fuel (Fin q) (int i) = Returns b
      /\ (b = false <->
          exists j : Z,
            i <= j <= Z.sqrt (Qfloor q) /\ divides_evenly j (Fin q) = true).
Proof.
  set (root := Z.sqrt (Qfloor q)).
  induction fuel as [|fuel IH]; intros i Hi Hfuel;
    rewrite isPrime_loop_eq, le_sqrt_int by assumption; fold root.
  - destruct (i <=? root) eqn:E; [apply Z.leb_le in E; lia|].
    exists true. split; [reflexivity|]. split; [discriminate|].
    intros (j & Hj & _). apply Z.leb_gt in E. lia.
  - destruct (i <=? root) eqn:E.
    + apply Z.leb_le in E.
      fold (divides_evenly i (Fin q)).
      destruct (divides_evenly i (Fin q)) eqn:D.
      * exists false. split; [reflexivity|]. split; [|reflexivity].
        intros _. exists i. split; [lia | assumption].
      * rewrite num_incr_int.
        destruct (IH (i + 1)) as (b & Eb & Hb); [lia | lia |].
        exists b. split; [assumption|]. rewrite Hb.
        split; intros (j & Hj & Dj).
        -- exists j. split; [lia | assumption].
        -- exists j. split; [|assumption].
           destruct (Z.eq_dec j i) as [->|Hne]; [congruence | lia].
    + exists true. split; [reflexivity|]. split; [discriminate|].
      intros (j & Hj & _). apply Z.leb_gt in E. lia.
Qed.

(** The loop stops at the first candidate that divides: the fuel to
    reach it is enough. *)
Lemma isPrime_loop_first (q : Q) (q_nonneg : Qis_neg q = false) (fuel : nat) :
  forall i d : Z,
    0 <= i <= d -> d <= Z.sqrt (Qfloor q) ->
    divides_evenly d (Fin q) = true ->
    (forall j : Z, i <= j < d -> divides_evenly j (Fin q) = false) ->
    d - i <= Z.of_nat fuel ->
    numbers.isPrime_loop fuel (Fin q) (int i) = Returns false.
Proof.
  set (root := Z.sqrt (Qfloor q)).
  induction fuel as [|fuel IH]; intros i d Hi Hd Hdiv Hleast Hfuel;
    rewrite isPrime_loop_eq, le_sqrt_int by (assumption || lia); fold root;
    (destruct (i <=? root) eqn:E; [|apply Z.leb_gt in E; lia]);
    fold (divides_evenly i (Fin q)).
  - assert (i = d) by lia. subst i. now rewrite Hdiv.
  - destruct (Z.eq_dec i d) as [->|Hne]; [now rewrite Hdiv|].
    rewrite Hleast by lia. rewrite num_incr_int.
    apply (IH (i + 1) d); try lia; try assumption.
    intros j Hj. apply Hleast. lia.
Qed.

Lemma two_le_nonneg (q : Q) : (2 <= q)%Q -> Qis_neg q = false.
Proof.
  unfold Qle, Qis_neg; simpl. intros Hq. apply Z.ltb_ge. lia.
Qed.

Lemma in_trial_range_Fin (i : Z) (q : Q) :
  Qis_neg q = false ->
  in_trial_range i (Fin q) = ((2 <=? i) && (i <=? Z.sqrt (Qfloor q))).
Proof.
  intros Hq. unfold in_trial_range, floor_sqrt. rewrite Hq.
  now rewrite num_le_int.
Qed.

Lemma isPrime_finite (q : Q) :
  num_lt (Fin q) (int 2) = false ->
  exists b : bool,
    (forall fuel : nat,
        (trial_fuel (Fin q) <= fuel)%nat ->
        numbers.isPrime fuel (VNumber (Fin q)) = Returns b)
    /\ (b = false <->
        exists i : Z,
          in_trial_range i (Fin q) = true /\ divides_evenly i (Fin q) = true).
Proof.
  intros Hlt. pose proof (two_le_nonneg q (num_lt_2_false q Hlt)) as Hq.
  assert (Hrange : forall b : bool,
    (b = false <->
     exists j : Z, 2 <= j <= Z.sqrt (Qfloor q)
                   /\ divides_evenly j (Fin q) = true) ->
    (b = false <->
     exists i : Z, in_trial_range i (Fin q) = true
                   /\ divides_evenly i (Fin q) = true)).
  { intros b Hb. rewrite Hb. split; intros (j & Hj & Dj); exists j.
    - rewrite in_trial_range_Fin by assumption. split; [|assumption].
      apply andb_true_intro. split; [apply Z.leb_le | apply Z.leb_le]; lia.
    - rewrite in_trial_range_Fin in Hj by assumption.
      apply andb_prop in Hj. destruct Hj as [H1 H2].
      apply Z.leb_le in H1, H2. split; [lia | assumption]. }
  pose proof (Z.sqrt_nonneg (Qfloor q)) as Hroot.
  destruct (isPrime_loop_total q Hq (trial_fuel (Fin q)) 2) as (b & _ & Hb);
    [lia | simpl; lia |].
  exists b. split; [|now apply Hrange].
  intros fuel Hfuel. unfold numbers.isPrime. rewrite Hlt.
  destruct (isPrime_loop_total q Hq fuel 2) as (b' & Eb' & Hb');
    [lia | simpl in Hfuel; lia |].
  rewrite Eb'. f_equal.
  destruct b, b'; try reflexivity.
  - symmetry. now apply Hb, Hb'.
  - now apply Hb', Hb.
Qed.

(** C3, as the code has it.  For every number other than +Infinity:
    below 2 the answer is false; otherwise [isPrime] returns (given the
    fuel for the candidates up to the root), and it returns false
    exactly when some integer i with 2 <= i <= floor(sqrt(num)) divides
    num evenly, stopping at the first such i.  In particular
    isPrime(2), isPrime(17) are true and isPrime(1), isPrime(18) are
    false. *)
Theorem isPrime_trial_division :
  (forall num : number,
      num <> PInf ->
      (num_lt num (int 2) = true ->
       forall fuel : nat, numbers.isPrime fuel (VNumber num) = Returns false)
      /\ (num_lt num (int 2) = false ->
          exists b : bool,
            (forall fuel : nat,
                (trial_fuel num <= fuel)%nat ->
                numbers.isPrime fuel (VNumber num) = Returns b)
            /\ (b = false <->
                exists i : Z,
                  in_trial_range i num = true /\ divides_evenly i num = true))
      /\ (forall d : Z,
             in_trial_range d num = true -> divides_evenly d num = true ->
             (forall j : Z, 2 <= j < d -> divides_evenly j num = false) ->
             numbers.isPrime (Z.to_nat (d - 2)) (VNumber num) = Returns false))
  /\ numbers.isPrime 0 (VNumber (int 2)) = Returns true
  /\ numbers.isPrime 0 (VNumber (int 1)) = Returns false
  /\ numbers.isPrime 3 (VNumber (int 17)) = Returns true
  /\ numbers.isPrime 0 (VNumber (int 18)) = Returns false.
Proof.
  split; [|repeat split; reflexivity].
  intros num Hnum. split; [|split].
  - intros Hlt fuel. unfold numbers.isPrime. now rewrite Hlt.
  - intros Hlt. destruct num as [| | |q].
    + exists true. split; [intros fuel _; now destruct fuel|].
      split; [discriminate|].
      intros (i & Hi & _). unfold in_trial_range in Hi. simpl in Hi.
      rewrite andb_false_r in Hi. discriminate.
    + contradiction.
    + discriminate.
    + now apply isPrime_finite.
  - intros d Hd Hdiv Hleast. unfold numbers.isPrime.
    destruct (num_lt num (int 2)) eqn:Hlt; [reflexivity|].
    destruct num as [| | |q].
    + unfold in_trial_range in Hd. simpl in Hd.
      rewrite andb_false_r in Hd. discriminate.
    + contradiction.
    + discriminate.
    + pose proof (two_le_nonneg q (num_lt_2_false q Hlt)) as Hq.
      rewrite in_trial_range_Fin in Hd by assumption.
      apply andb_prop in Hd. destruct Hd as [H1 H2].
      apply Z.leb_le in H1, H2.
      apply (isPrime_loop_first q Hq _ 2 d); try assumption; lia.
Qed.

(** On +Infinity the loop of [isPrime] never ends: every candidate is
    below the root and none divides. *)
Lemma isPrime_loop_Infinity (fuel : nat) :
  forall i : Z, numbers.isPrime_loop fuel PInf (int i) = OutOfFuel.
Proof.
  induction fuel as [|fuel IH]; intros i; rewrite isPrime_loop_eq.
  - reflexivity.
  - cbn [le_sqrt num_le int num_rem num_eq]. rewrite num_incr_int. apply IH.
Qed.

(** C3 fails as stated at +Infinity, which is a number and is not below
    2: no integer divides it evenly, yet [isPrime] does not return true;
    it returns nothing, whatever the fuel. *)
Lemma isPrime_Infinity_never_returns :
  num_lt PInf (int 2) = false
  /\ (forall i : Z, divides_evenly i PInf = false)
  /\ (forall fuel : nat, numbers.isPrime fuel (VNumber PInf) = OutOfFuel)
  /\ ~ (exists (fuel : nat) (b : bool),
           numbers.isPrime fuel (VNumber PInf) = Returns b).
Proof.
  assert (D : forall fuel : nat,
             numbers.isPrime fuel (VNumber PInf) = OutOfFuel).
  { intros fuel. unfold numbers.isPrime. cbn [num_lt int].
    apply isPrime_loop_Infinity. }
  repeat split; try reflexivity; try assumption.
  intros (fuel & b & E). rewrite D in E. discriminate.
Qed.

(** ** discordTimestamps.fromDate *)

Lemma Math_floor_int (z : Z) : Math_floor (int z) = int z.
Proof. cbn [Math_floor int]. now rewrite Qfloor_Z. Qed.

(** On an integer below 2^53 in magnitude, the floor of the rounded
    quotient by 1000 is the floor division: the exact quotient is an
    integer, or at least 1/1000 away from the next integers, and the
    rounding moves it by 2^-10 at most. *)
Lemma floor_div_1000 (z : Z) :
  Z.abs z < 2 ^ 53 ->
  Math_floor (num_div (int z) (int 1000)) = int (z / 1000).
Proof.
  intros Hz. change (2 ^ 53) with 9007199254740992 in Hz.
  cbn [num_div int]. change (Qis_zero (inject_Z 1000)) with false. cbv iota.
  pose proof (Z.div_mod z 1000 ltac:(lia)) as Hdm.
  pose proof (Z.mod_pos_bound z 1000 ltac:(lia)) as Hr.
  remember (z / 1000) as q eqn:Eq. remember (z mod 1000) as r eqn:Er.
  clear Eq Er.
  assert (Ez : inject_Z z = (inject_Z 1000 * inject_Z q + inject_Z r)%Q)
    by (rewrite Hdm at 1; now rewrite inject_Z_plus, inject_Z_mult).
  assert (Ex : (inject_Z z / inject_Z 1000
                == inject_Z q + inject_Z r / inject_Z 1000)%Q)
    by (rewrite Ez; field).
  assert (Hq1 : (inject_Z (- 9007199254740992) < inject_Z z)%Q)
    by (rewrite <- Zlt_Qlt; lia).
  assert (Hq2 : (inject_Z z < inject_Z 9007199254740992)%Q)
    by (rewrite <- Zlt_Qlt; lia).
  change (inject_Z (- 9007199254740992))
    with (- (9007199254740992 # 1))%Q in Hq1.
  change (inject_Z 9007199254740992) with (9007199254740992 # 1)%Q in Hq2.
  destruct (Z.eq_dec r 0) as [R0|R0].
  - rewrite (to_binary64_comp _ (inject_Z q))
      by (rewrite Ex, R0; field).
    rewrite to_binary64_int
      by (change (2 ^ 53) with 9007199254740992; lia).
    apply Math_floor_int.
  - assert (Hr' : (1 <= inject_Z r <= 999)%Q).
    { split; [change 1%Q with (inject_Z 1) | change 999%Q with (inject_Z 999)];
        rewrite <- Zle_Qle; lia. }
    destruct (to_binary64_near (inject_Z z / inject_Z 1000) 43)
      as (y & Ey & Hy & _).
    + intros E0.
      assert (Z0 : (inject_Z z == inject_Z 0)%Q).
      { assert (Ezx : (inject_Z z
                       == inject_Z z / inject_Z 1000 * inject_Z 1000)%Q)
          by field.
        rewrite Ezx, E0. reflexivity. }
      pose proof (proj1 (inject_Z_injective z 0) Z0). lia.
    + assert (P : (pow2 (43 + 1) == 17592186044416 # 1)%Q) by reflexivity.
      rewrite P. apply Qabs_Qlt_condition.
      change (inject_Z 1000) with (1000 # 1)%Q.
      split; [apply Qlt_shift_div_l | apply Qlt_shift_div_r];
        try reflexivity; lra.
    + lia.
    + rewrite Ey. cbn [Math_floor]. f_equal.
      assert (P : (pow2 (43 - 53) == 1 # 1024)%Q) by reflexivity.
      rewrite P in Hy. apply Qabs_Qle_condition in Hy.
      assert (Ex' : (inject_Z z / inject_Z 1000
                     == inject_Z q + inject_Z r * (1 # 1000))%Q)
        by (rewrite Ex; field).
      apply Qfloor_unique; rewrite ?inject_Z_plus;
        change (inject_Z 1) with 1%Q; lra.
Qed.

Lemma number_toString_10_int `{Host} (z : Z) :
  Z.abs z < 2 ^ 53 -> number_toString 10 (int z) = int_toString 10 z.
Proof.
  intros Hz. unfold number_toString, int.
  rewrite Qis_int_inject_Z, Qfloor_inject_Z.
  destruct (Z.abs z <? 2 ^ 53) eqn:E; [reflexivity|].
  apply Z.ltb_ge in E. lia.
Qed.

(** C4.  For every number [date] and each of the five tags, [fromDate]
    returns "<t:" ++ floor(date / 1000) ++ ":" ++ code ++ ">" with the
    code of the tag, the quotient being the binary64 one; an absent
    format stands for FULL; on a date that is an integer below 2^53 in
    magnitude the seconds are the floor division by 1000, printed in
    decimal.  In particular fromDate(0) is "<t:0:F>" and
    fromDate(1620000000000, 'FULL') is "<t:1620000000:F>". *)
Theorem fromDate_returns_timestamp `{Host} :
  (forall (date : number) (tag code : string),
      In (tag, code) specified_codes ->
      discordTimestamps.fromDate (VNumber date) (VString tag)
      = Returns ("<t:"
                 ++ number_toString 10 (Math_floor (num_div date (int 1000)))
                 ++ ":" ++ code ++ ">"))
  /\ (forall date : number,
         discordTimestamps.fromDate (VNumber date) VUndefined
         = discordTimestamps.fromDate (VNumber date) (VString "FULL"))
  /\ (forall (ms : Z) (tag code : string),
         In (tag, code) specified_codes -> Z.abs ms < 2 ^ 53 ->
         discordTimestamps.fromDate (VNumber (int ms)) (VString tag)
         = Returns ("<t:" ++ int_toString 10 (ms / 1000) ++ ":" ++ code ++ ">"))
  /\ discordTimestamps.fromDate (VNumber (int 0)) VUndefined
     = Returns "<t:0:F>"
  /\ discordTimestamps.fromDate (VNumber (int 1620000000000)) (VString "FULL")
     = Returns "<t:1620000000:F>".
Proof.
  assert (General : forall (date : number) (tag code : string),
    In (tag, code) specified_codes ->
    discordTimestamps.fromDate (VNumber date) (VString tag)
    = Returns ("<t:"
               ++ number_toString 10 (Math_floor (num_div date (int 1000)))
               ++ ":" ++ code ++ ">")).
  { intros date tag code Hin. unfold specified_codes in Hin.
    repeat (destruct Hin as [Hin|Hin];
            [injection Hin as <- <-; reflexivity|]).
    destruct Hin. }
  split; [exact General|]. split; [reflexivity|]. split.
  - intros ms tag code Hin Hms. rewrite (General _ _ _ Hin).
    rewrite floor_div_1000 by assumption.
    rewrite number_toString_10_int; [reflexivity|].
    change (2 ^ 53) with 9007199254740992 in *.
    Z.div_mod_to_equations. lia.
  - split; reflexivity.
Qed.

(** ** The two variants of the timestamp formatter *)

Lemma recognized_includes (format : value) :
  recognized format <-> includes (Object_keys formats) format = true.
Proof.
  split.
  - intros (tag & -> & Hin). simpl in Hin.
    repeat (destruct Hin as [<-|Hin]; [reflexivity|]). destruct Hin.
  - destruct format as [| | | |s]; try discriminate.
    intros Hs. exists s. split; [reflexivity|].
    unfold includes in Hs. apply existsb_exists in Hs.
    destruct Hs as (k & Hk & E). apply String.eqb_eq in E. now subst k.
Qed.

Lemma default_recognized (format : value) :
  recognized format -> default_to (VString "FULL") format = format.
Proof. intros (tag & -> & _). reflexivity. Qed.

(** C5.  On a number and one of the five tags, [fromDate] of
    [src/index.ts] and [fromDate] of [src/unnamed/part_000] return the
    same string.  Whatever the arguments, the two can differ only when
    the format is not one of the five tags, and then the first throws
    and the second returns. *)
Theorem fromDate_variants_agree `{Host} :
  (forall (date : number) (format : value),
      recognized format ->
      exists text : string,
        discordTimestamps.fromDate (VNumber date) format = Returns text
        /\ looseTimestamps.fromDate (VNumber date) format = Returns text)
  /\ (forall date format : value,
         discordTimestamps.fromDate date format
         <> looseTimestamps.fromDate date format ->
         ~ recognized format
         /\ (exists e : exn, discordTimestamps.fromDate date format = Throws e)
         /\ (exists text : string,
                looseTimestamps.fromDate date format = Returns text)).
Proof.
  split.
  - intros date format Hrec.
    unfold discordTimestamps.fromDate, looseTimestamps.fromDate.
    rewrite (default_recognized format Hrec).
    apply recognized_includes in Hrec. rewrite Hrec. cbn [negb].
    eexists. split; reflexivity.
  - intros date format Hdiff.
    unfold discordTimestamps.fromDate, looseTimestamps.fromDate in *.
    destruct date as [| | |date|]; try (now elim Hdiff).
    destruct (includes (Object_keys formats)
                (default_to (VString "FULL") format)) eqn:E;
      cbn [negb] in *; [now elim Hdiff|].
    split; [|split; eexists; reflexivity].
    intros Hrec. rewrite (default_recognized format Hrec) in E.
    apply recognized_includes in Hrec. congruence.
Qed.

(** ** numbers.random *)

Lemma num_neg_int (y : Z) : num_neg (int y) = int (- y).
Proof. cbn [num_neg int]. apply fin_int. now rewrite inject_Z_opp. Qed.

Lemma num_sub_int (x y : Z) :
  Z.abs (x - y) <= 2 ^ 53 -> num_sub (int x) (int y) = int (x - y).
Proof.
  intros Hd. unfold num_sub. rewrite num_neg_int.
  now rewrite num_add_int by (now replace (x + - y) with (x - y) by lia).
Qed.

(** The binary64 values between 2^e and 2^(e+1) are multiples of
    2^(e-52). *)
Lemma to_binary64_grid (q : Q) (e : Z) (y : Q) :
  (pow2 e <= q)%Q -> (q < pow2 (e + 1))%Q -> -1022 <= e ->
  to_binary64 q = Fin y ->
  exists m : Z, (y == inject_Z m * pow2 (e - 52))%Q.
Proof.
  intros H1 H2 He. unfold to_binary64.
  pose proof (Qred_correct q) as Er. set (q' := Qred q) in *.
  pose proof (pow2_pos e) as Pe.
  assert (Ea : (Qabs q' == q)%Q) by (rewrite Er; apply Qabs_pos; lra).
  assert (B : binade (Qabs q') = e)
    by (apply binade_unique; rewrite Ea; assumption).
  assert (Hz : Qis_zero q' = false).
  { destruct (Qis_zero q') eqn:Z; [|reflexivity].
    apply Qis_zero_spec in Z. lra. }
  assert (Hn : Qis_neg q' = false).
  { destruct (Qis_neg q') eqn:S; [|reflexivity].
    apply Qis_neg_spec in S. lra. }
  rewrite Hz, Hn, B. replace (Z.max e (-1022)) with e by lia.
  destruct (Qle_bool _ _); [discriminate|].
  intros E. exists (round_half_even (Qabs q' / pow2 (e - 52))).
  set (t := (inject_Z (round_half_even (Qabs q' / pow2 (e - 52)))
             * pow2 (e - 52))%Q) in *.
  assert (E' : Qred t = y) by (unfold fin in E; congruence).
  rewrite <- E'. apply Qred_correct.
Qed.

(** A binary64 value below 1 is at most 1 - 2^-53. *)
Lemma binary64_below_1 (u : Q) :
  binary64 u -> (u < 1)%Q -> (u <= 1 - pow2 (-53))%Q.
Proof.
  intros Hu H1.
  assert (P : (pow2 (-53) == 1 # 9007199254740992)%Q) by reflexivity.
  destruct (Qlt_le_dec u (1 # 2)) as [Hs|Hs]; [rewrite P; lra|].
  destruct (to_binary64_grid u (-1) (Qred u)) as (m & Em);
    [exact Hs | exact H1 | lia | exact Hu |].
  rewrite Qred_correct in Em. change (-1 - 52) with (-53) in Em.
  assert (Hm : m < 2 ^ 53).
  { rewrite Zlt_Qlt. change (inject_Z (2 ^ 53)) with (9007199254740992 # 1)%Q.
    rewrite P in Em. lra. }
  assert (Hm' : (inject_Z m <= inject_Z (2 ^ 53 - 1))%Q)
    by (rewrite <- Zle_Qle; lia).
  change (inject_Z (2 ^ 53 - 1)) with (9007199254740991 # 1)%Q in Hm'.
  rewrite P in *. lra.
Qed.

(** The floor of the rounded product of a binary64 value in [0,1) and
    a positive integer [n] up to 2^53 is an integer from 0 to n - 1:
    the rounding does not reach [n]. *)
Lemma floor_scaled (u : Q) (n : Z) :
  random_value u -> 1 <= n <= 2 ^ 53 ->
  exists k : Z,
    Math_floor (num_mul (Fin u) (int n)) = int k /\ 0 <= k < n.
Proof.
  intros (Hu & H0 & H1) Hn.
  pose proof (binary64_below_1 u Hu H1) as Hu1.
  cbn [num_mul int].
  destruct (Qeq_dec (u * inject_Z n) 0) as [Z|NZ].
  { rewrite (to_binary64_zero _ Z). exists 0. split; [reflexivity | lia]. }
  pose proof (Z.log2_spec n ltac:(lia)) as [L1 L2].
  pose proof (Z.log2_nonneg n) as L0.
  assert (L53 : Z.log2 n <= 53).
  { rewrite <- (Z.log2_pow2 53) by lia. apply Z.log2_le_mono. lia. }
  set (e := Z.log2 n) in *.
  assert (N1 : (pow2 e <= inject_Z n)%Q)
    by (rewrite pow2_inject by lia; now rewrite <- Zle_Qle).
  assert (N2 : (inject_Z n < pow2 (e + 1))%Q).
  { rewrite pow2_inject by lia. rewrite <- Zlt_Qlt.
    now replace (e + 1) with (Z.succ e) by lia. }
  pose proof (pow2_pos e) as Pe. pose proof (pow2_pos (-53)) as Pp.
  pose proof (pow2_add e (-53)) as A1.
  replace (e + -53) with (e - 53) in A1 by lia.
  assert (Hx0 : (0 <= u * inject_Z n)%Q)
    by (apply Qmult_le_0_compat; lra).
  assert (Hx1 : (u * inject_Z n
                 <= inject_Z n - inject_Z n * pow2 (-53))%Q) by nra.
  assert (Habs : (Qabs (u * inject_Z n) == u * inject_Z n)%Q)
    by (now apply Qabs_pos).
  assert (Bound : exists y : Q,
             to_binary64 (u * inject_Z n) = Fin y
             /\ (0 <= y)%Q /\ (y < inject_Z n)%Q).
  { destruct (Z.eq_dec n (2 ^ e)) as [Epow|Npow].
    - assert (N3 : (inject_Z n == pow2 e)%Q)
        by (rewrite pow2_inject by lia; now rewrite Epow).
      destruct (to_binary64_near (u * inject_Z n) (e - 1))
        as (y & Ey & Hy & Hpos & _);
        [exact NZ | | lia |].
      + replace (e - 1 + 1) with e by lia. rewrite Habs. nra.
      + exists y. split; [exact Ey|]. split; [now apply Hpos|].
        apply Qabs_Qle_condition in Hy.
        pose proof (pow2_half (e - 53)) as A2.
        replace (e - 53 - 1) with (e - 1 - 53) in A2 by lia.
        pose proof (pow2_pos (e - 53)). nra.
    - assert (N3 : (pow2 e + 1 <= inject_Z n)%Q).
      { rewrite pow2_inject by lia. change 1%Q with (inject_Z 1).
        rewrite <- inject_Z_plus, <- Zle_Qle. lia. }
      destruct (to_binary64_near (u * inject_Z n) e)
        as (y & Ey & Hy & Hpos & _);
        [exact NZ | | lia |].
      + rewrite Habs. nra.
      + exists y. split; [exact Ey|]. split; [now apply Hpos|].
        apply Qabs_Qle_condition in Hy. nra. }
  destruct Bound as (y & Ey & Hy0 & Hy1).
  rewrite Ey. exists (Qfloor y). split; [reflexivity|]. split.
  - now apply Zle_Qfloor.
  - rewrite Zlt_Qlt. apply Qle_lt_trans with y; [apply Qfloor_le | exact Hy1].
Qed.

(** C6, as the code has it.  For integers min <= max within 2^53 of 0
    and less than 2^53 apart, and a binary64 value of the pseudo-random
    source in [0,1), [random(min, max)] returns an integer k with
    min <= k <= max, which is min plus the floor of the rounded product
    of that value and max - min + 1, and uses up one value of the
    source. *)
Theorem random_in_range (w : world) (min max : Z) :
  random_value (next_random w) ->
  - 2 ^ 53 <= min -> min <= max -> max <= 2 ^ 53 -> max - min < 2 ^ 53 ->
  exists k : Z,
    numbers.random w (VNumber (int min)) (VNumber (int max))
    = (Returns (int k), snd (Math_random w))
    /\ Math_floor (num_mul (Fin (next_random w)) (int (max - min + 1)))
       = int (k - min)
    /\ min <= k <= max
    /\ is_integer (int k) = true.
Proof.
  intros Hu Hmin Hle Hmax Hspan.
  change (2 ^ 53) with 9007199254740992 in *.
  destruct (floor_scaled (next_random w) (max - min + 1) Hu)
    as (j & Ej & Hj);
    [change (2 ^ 53) with 9007199254740992; lia|].
  exists (j + min).
  split; [|split; [|split; [lia | apply Qis_int_inject_Z]]].
  - unfold numbers.random, Math_random. fold (next_random w).
    rewrite num_sub_int, num_add_int
      by (change (2 ^ 53) with 9007199254740992; lia).
    rewrite Ej.
    now rewrite num_add_int by (change (2 ^ 53) with 9007199254740992; lia).
  - rewrite Ej. f_equal. lia.
Qed.

(** C6 fails as stated on bounds that are not integers.  With
    min = 0.5 <= max = 1.5 and the source at 0 the result is 0.5, which
    is no integer; with min = 0 <= max = 1.25 and the source at 0.9375
    the result is 2, above max. *)
Lemma random_fractional_bounds :
  let w1 := mkWorld 0 (fun _ => 0%Q) 0 in
  let w2 := mkWorld 0 (fun _ => (15 # 16)%Q) 0 in
  ((0 <= next_random w1)%Q /\ (next_random w1 < 1)%Q
   /\ (0 <= next_random w2)%Q /\ (next_random w2 < 1)%Q)
  /\ (num_le (Fin (1 # 2)) (Fin (3 # 2)) = true
   /\ fst (numbers.random w1 (VNumber (Fin (1 # 2))) (VNumber (Fin (3 # 2))))
      = Returns (Fin (1 # 2))
   /\ is_integer (Fin (1 # 2)) = false)
  /\ (num_le (int 0) (Fin (5 # 4)) = true
      /\ fst (numbers.random w2 (VNumber (int 0)) (VNumber (Fin (5 # 4))))
         = Returns (int 2)
      /\ num_le (int 2) (Fin (5 # 4)) = false).
Proof.
  cbv zeta. split; [|repeat split; reflexivity].
  unfold next_random, Qle, Qlt; simpl. lia.
Qed.

(** ** numbers.gdc, lcm, gdcArray, lcmArray *)

Lemma num_rem_int (a b : Z) :
  b <> 0 -> num_rem (int a) (int b) = int (Z.rem a b).
Proof.
  intros Hb. unfold num_rem, int.
  assert (Hz : Qis_zero (inject_Z b) = false).
  { unfold Qis_zero; simpl. now apply Z.eqb_neq. }
  rewrite Hz. apply fin_int.
  assert (Et : Qtrunc (inject_Z a / inject_Z b) = Z.quot a b).
  { unfold Qtrunc, Qdiv, Qinv, inject_Z; simpl.
    destruct b as [|p|p]; [contradiction| |]; simpl.
    - now rewrite Z.mul_1_r.
    - rewrite <- (Z.quot_opp_opp (a * -1) (Z.pos p)) by lia.
      f_equal; lia. }
  rewrite Et. rewrite (Z.rem_eq a b) by assumption.
  unfold Qeq, Qminus, Qplus, Qopp, Qmult, inject_Z; simpl. lia.
Qed.

Lemma num_eq_int_0 (b : Z) : num_eq (int b) (int 0) = (b =? 0).
Proof.
  unfold num_eq, int, Qeq_bool, Z.eqb; simpl. rewrite Z.mul_1_r.
  destruct b; reflexivity.
Qed.

(** Euclid's recursion on nonnegative integers: fuel for the second
    argument is enough. *)
Lemma gdc_gcd (fuel : nat) :
  forall a b : Z,
    0 <= a -> 0 <= b -> (Z.to_nat b <= fuel)%nat ->
    numbers.gdc fuel (VNumber (int a)) (VNumber (int b))
    = Returns (int (Z.gcd a b)).
Proof.
  induction fuel as [|fuel IH]; intros a b Ha Hb Hfuel.
  - assert (b = 0) by lia. subst b. simpl.
    rewrite Z.gcd_0_r, Z.abs_eq by lia. reflexivity.
  - cbn [numbers.gdc]. rewrite num_eq_int_0.
    destruct (b =? 0) eqn:E.
    + apply Z.eqb_eq in E. subst b.
      rewrite Z.gcd_0_r, Z.abs_eq by lia. reflexivity.
    + apply Z.eqb_neq in E. rewrite num_rem_int by assumption.
      rewrite Z.rem_mod_nonneg by lia.
      pose proof (Z.mod_pos_bound a b) as Hm.
      rewrite IH by lia.
      rewrite Z.gcd_comm, Z.gcd_mod by assumption.
      now rewrite Z.gcd_comm.
Qed.

Lemma gdc_eq (fuel : nat) (a b : value) :
  numbers.gdc fuel a b
  = match a, b with
    | VNumber x, VNumber y =>
        if num_eq y (int 0) then Returns x
        else
          match fuel with
          | O => Throws (RangeError "Maximum call stack size exceeded")
          | S fuel' => numbers.gdc fuel' (VNumber y) (VNumber (num_rem x y))
          end
    | _, _ => Throws (Error "The a and b must be numbers")
    end.
Proof. destruct fuel; reflexivity. Qed.


(** C7.  On nonnegative integers a and b the recursion of [gdc] ends:
    while the second argument is not 0 the next one is a remainder
    smaller than it, so fuel b is enough; and the result is gcd(a, b).
    Hence gdc(12,18) = 6, lcm(12,18) = 36, gdcArray([12,18,24]) = 6 and
    lcmArray([12,18,24]) = 72. *)
Theorem gdc_terminates_with_gcd :
  (forall a b : Z,
      0 <= a -> 0 <= b ->
      (forall fuel : nat,
          (Z.to_nat b <= fuel)%nat ->
          numbers.gdc fuel (VNumber (int a)) (VNumber (int b))
          = Returns (int (Z.gcd a b)))
      /\ (b <> 0 ->
          exists r : Z, num_rem (int a) (int b) = int r /\ 0 <= r < b))
  /\ numbers.gdc 3 (VNumber (int 12)) (VNumber (int 18)) = Returns (int 6)
  /\ numbers.lcm 3 (VNumber (int 12)) (VNumber (int 18)) = Returns (int 36)
  /\ numbers.gdcArray 3 [VNumber (int 12); VNumber (int 18); VNumber (int 24)]
     = Returns (int 6)
  /\ numbers.lcmArray 3 [VNumber (int 12); VNumber (int 18); VNumber (int 24)]
     = Returns (int 72).
Proof.
  split; [|repeat split; reflexivity].
  intros a b Ha Hb. split.
  - intros fuel Hfuel. now apply gdc_gcd.
  - intros Hne. exists (a mod b).
    rewrite num_rem_int, Z.rem_mod_nonneg by lia.
    split; [reflexivity | apply Z.mod_pos_bound; lia].
Qed.

(** ** colors.randomHex *)

Lemma length_append (s1 s2 : string) :
  String.length (s1 ++ s2) = (String.length s1 + String.length s2)%nat.
Proof. induction s1 as [|c s1 IH]; simpl; [reflexivity | now rewrite IH]. Qed.

(** The digits are as many as the number needs: no padding. *)
Lemma nat_toString_length_exact (radix : Z) (Hr : 2 <= radix) (k : nat) :
  forall n : Z,
    radix ^ Z.of_nat k <= n < radix ^ Z.of_nat (S k) ->
    String.length (nat_toString radix n) = S k.
Proof.
  induction k as [|k IH]; intros n Hn.
  - change (Z.of_nat 0) with 0 in Hn. change (Z.of_nat 1) with 1 in Hn.
    rewrite Z.pow_0_r, Z.pow_1_r in Hn.
    rewrite (nat_toString_fuel radix Hr n 0)
      by (change (Z.of_nat 1) with 1; rewrite ?Z.pow_1_r; lia).
    cbn [to_digits]. rewrite Z.div_small by lia. reflexivity.
  - rewrite Nat2Z.inj_succ, Z.pow_succ_r in Hn by lia.
    rewrite (Nat2Z.inj_succ (S k)), Z.pow_succ_r in Hn by lia.
    assert (Hpos : 0 < radix ^ Z.of_nat k) by (apply Z.pow_pos_nonneg; lia).
    pose proof (Z.div_mod n radix ltac:(lia)) as Hdm.
    pose proof (Z.mod_pos_bound n radix ltac:(lia)) as Hmod.
    assert (Hq : radix ^ Z.of_nat k <= n / radix < radix ^ Z.of_nat (S k)).
    { split.
      - apply Z.div_le_lower_bound; lia.
      - apply Z.div_lt_upper_bound; lia. }
    replace n with (n / radix * radix + n mod radix) by lia.
    rewrite nat_toString_step by lia.
    rewrite length_append, (IH _ Hq). simpl. lia.
Qed.

(** C8, as the code has it.  For a binary64 value u of the
    pseudo-random source in [0,1), [randomHex] returns "#" followed by
    the hexadecimal digits of the floor of the rounded product of u and
    16777215, an integer from 0 to 16777214 (so below 2^24), without
    padding: at most six digits, and exactly k+1 digits for a value in
    [16^k, 16^(k+1)), so fewer than six below 16^5. *)
Theorem randomHex_digits `{Host} (w : world) :
  random_value (next_random w) ->
  exists n : Z,
    colors.randomHex w
    = (String "#" (nat_toString 16 n), snd (Math_random w))
    /\ Math_floor (num_mul (Fin (next_random w)) (int 16777215)) = int n
    /\ 0 <= n < 16777215
    /\ (String.length (nat_toString 16 n) <= 6)%nat
    /\ (forall k : nat,
           16 ^ Z.of_nat k <= n < 16 ^ Z.of_nat (S k) ->
           String.length (nat_toString 16 n) = S k).
Proof.
  intros Hu.
  destruct (floor_scaled (next_random w) 16777215 Hu) as (n & En & Hn);
    [change (2 ^ 53) with 9007199254740992; lia|].
  exists n. split; [|split; [exact En | split; [exact Hn | split]]].
  - unfold colors.randomHex, Math_random. fold (next_random w).
    rewrite En, number_toString_16_int. unfold int_toString.
    destruct (_ <? 0) eqn:E; [apply Z.ltb_lt in E; lia | reflexivity].
  - apply (nat_toString_length 16 ltac:(lia) _ 5); [lia|].
    change (16 ^ Z.of_nat 6) with 16777216. lia.
  - intros k Hk. now apply nat_toString_length_exact.
Qed.

(** C8 fails as stated: the text does start with '#'.  With the source
    at 0.5 the result is "#7fffff", and with the source at 0 it is "#0",
    two characters. *)
Lemma randomHex_has_hash :
  ((0 <= 1 # 2)%Q /\ (1 # 2 < 1)%Q)
  /\ fst (@colors.randomHex bare_host (mkWorld 0 (fun _ => (1 # 2)%Q) 0))
     = "#7fffff"
  /\ fst (@colors.randomHex bare_host (mkWorld 0 (fun _ => 0%Q) 0)) = "#0".
Proof.
  split; [|split; reflexivity].
  unfold Qle, Qlt; simpl. lia.
Qed.

(** ** The public operations and their argument checks *)


























(* ================================================================== *)
(** ** The properties at concrete inputs *)

Lemma hexToRgb_rgbToHex_witness :
  (0 <= 18 <= 255 /\ 0 <= 52 <= 255 /\ 0 <= 171 <= 255)
  /\ (hex <- @colors.rgbToHex bare_host
               (VNumber (int 18)) (VNumber (int 52)) (VNumber (int 171)) ;;
      colors.hexToRgb (VString hex))
     = Returns (mkRgb (int 18) (int 52) (int 171)).
Proof.
  split; [lia|]. apply (@hexToRgb_rgbToHex bare_host 18 52 171); lia.
Defined.


Lemma isPrime_trial_division_witness :
  (int 1 <> PInf /\ num_lt (int 1) (int 2) = true
   /\ numbers.isPrime 0 (VNumber (int 1)) = Returns false)
  /\ (int 9 <> PInf /\ in_trial_range 3 (int 9) = true
      /\ divides_evenly 3 (int 9) = true
      /\ (forall j : Z, 2 <= j < 3 -> divides_evenly j (int 9) = false)
      /\ numbers.isPrime 1 (VNumber (int 9)) = Returns false)
  /\ (int 17 <> PInf /\ num_lt (int 17) (int 2) = false
      /\ exists b : bool,
          (forall fuel : nat,
              (trial_fuel (int 17) <= fuel)%nat ->
              numbers.isPrime fuel (VNumber (int 17)) = Returns b)
          /\ (b = false <->
              exists i : Z,
                in_trial_range i (int 17) = true
                /\ divides_evenly i (int 17) = true)).
Proof.
  destruct isPrime_trial_division as [General _].
  assert (Least : forall j : Z, 2 <= j < 3 -> divides_evenly j (int 9) = false).
  { intros j Hj. assert (E : j = 2) by lia. rewrite E. reflexivity. }
  split; [|split].
  - split; [discriminate|]. split; [reflexivity|].
    destruct (General (int 1)) as (Below & _ & _); [discriminate|].
    apply Below. reflexivity.
  - split; [discriminate|]. split; [reflexivity|]. split; [reflexivity|].
    split; [exact Least|].
    destruct (General (int 9)) as (_ & _ & First); [discriminate|].
    apply (First 3); [reflexivity | reflexivity | exact Least].
  - split; [discriminate|]. split; [reflexivity|].
    destruct (General (int 17)) as (_ & Above & _); [discriminate|].
    apply Above. reflexivity.
Defined.

Lemma fromDate_returns_timestamp_witness :
  In ("TIME", "T") specified_codes
  /\ Z.abs 1620000000999 < 2 ^ 53
  /\ @discordTimestamps.fromDate bare_host
       (VNumber (int 1620000000999)) (VString "TIME")
     = Returns ("<t:" ++ int_toString 10 (1620000000999 / 1000) ++ ":T>").
Proof.
  assert (Hin : In ("TIME", "T") specified_codes)
    by (simpl; right; right; left; reflexivity).
  assert (Hms : Z.abs 1620000000999 < 2 ^ 53) by reflexivity.
  split; [exact Hin|]. split; [exact Hms|].
  destruct (@fromDate_returns_timestamp bare_host) as (_ & _ & Integer & _).
  apply (Integer 1620000000999 "TIME" "T" Hin Hms).
Defined.

Lemma fromDate_variants_agree_witness :
  (recognized (VString "DATE")
   /\ exists text : string,
       @discordTimestamps.fromDate bare_host (VNumber (int 5000)) (VString "DATE")
       = Returns text
       /\ @looseTimestamps.fromDate bare_host (VNumber (int 5000)) (VString "DATE")
          = Returns text)
  /\ (@discordTimestamps.fromDate bare_host (VNumber (int 5000)) (VString "BOGUS")
      <> @looseTimestamps.fromDate bare_host (VNumber (int 5000)) (VString "BOGUS")
      /\ ~ recognized (VString "BOGUS")).
Proof.
  destruct (@fromDate_variants_agree bare_host) as [Same Differ].
  assert (Hrec : recognized (VString "DATE")).
  { exists "DATE". split; [reflexivity|]. simpl. right; left; reflexivity. }
  assert (Hdiff :
    @discordTimestamps.fromDate bare_host (VNumber (int 5000)) (VString "BOGUS")
    <> @looseTimestamps.fromDate bare_host (VNumber (int 5000)) (VString "BOGUS"))
    by discriminate.
  split.
  - split; [exact Hrec|]. apply (Same (int 5000) (VString "DATE") Hrec).
  - split; [exact Hdiff|].
    apply (Differ (VNumber (int 5000)) (VString "BOGUS") Hdiff).
Defined.

Lemma random_in_range_witness :
  let w := mkWorld 0 (fun _ => (1 # 2)%Q) 0 in
  (random_value (next_random w)
   /\ - 2 ^ 53 <= 1 /\ 1 <= 10 /\ 10 <= 2 ^ 53 /\ 10 - 1 < 2 ^ 53)
  /\ exists k : Z,
      numbers.random w (VNumber (int 1)) (VNumber (int 10))
      = (Returns (int k), snd (Math_random w))
      /\ Math_floor (num_mul (Fin (next_random w)) (int (10 - 1 + 1)))
         = int (k - 1)
      /\ 1 <= k <= 10
      /\ is_integer (int k) = true.
Proof.
  intros w.
  assert (Hu : random_value (next_random w)).
  { split; [reflexivity|]. split; [unfold Qle | unfold Qlt]; simpl; lia. }
  split; [repeat split; try exact Hu; try apply Hu; lia|].
  apply (random_in_range w 1 10 Hu); lia.
Defined.

Lemma gdc_terminates_with_gcd_witness :
  (0 <= 12 /\ 0 <= 18 /\ (Z.to_nat 18 <= 18)%nat /\ 18 <> 0)
  /\ numbers.gdc 18 (VNumber (int 12)) (VNumber (int 18))
     = Returns (int (Z.gcd 12 18))
  /\ exists r : Z, num_rem (int 12) (int 18) = int r /\ 0 <= r < 18.
Proof.
  destruct gdc_terminates_with_gcd as [General _].
  destruct (General 12 18) as [Result Decreases]; [lia | lia |].
  split; [repeat split; try lia; discriminate|].
  split; [apply Result; lia | apply Decreases; discriminate].
Defined.

Lemma randomHex_digits_witness :
  let w := mkWorld 0 (fun _ => (1 # 1024)%Q) 0 in
  random_value (next_random w)
  /\ exists n : Z,
      @colors.randomHex bare_host w
      = (String "#" (nat_toString 16 n), snd (Math_random w))
      /\ Math_floor (num_mul (Fin (next_random w)) (int 16777215)) = int n
      /\ 0 <= n < 16777215
      /\ (String.length (nat_toString 16 n) <= 6)%nat
      /\ (forall k : nat,
             16 ^ Z.of_nat k <= n < 16 ^ Z.of_nat (S k) ->
             String.length (nat_toString 16 n) = S k).
Proof.
  intros w.
  assert (Hu : random_value (next_random w)).
  { split; [reflexivity|]. split; [unfold Qle | unfold Qlt]; simpl; lia. }
  split; [exact Hu|].
  apply (@randomHex_digits bare_host w Hu).
Defined.

Lemma hexToRgb_malformed_returns_witness :
  (parseInt (remove_first "#" "red") 16 = NaN
   /\ colors.hexToRgb (VString "red")
      = Returns (mkRgb (channel NaN 16) (channel NaN 8) (num_and NaN (int 255))))
  /\ ([1; 2] <> [] /\ Forall hex_digit [1; 2] /\ stops_hex "g" = true
      /\ colors.hexToRgb (VString "#12gh") = colors.hexToRgb (VString "#12")).
Proof.
  destruct hexToRgb_malformed_returns as (_ & Unparsed & Truncated & _).
  assert (Hds : Forall hex_digit [1; 2])
    by (repeat constructor; unfold hex_digit; lia).
  split.
  - split; [reflexivity|]. apply Unparsed. reflexivity.
  - split; [discriminate|]. split; [exact Hds|]. split; [reflexivity|].
    apply (Truncated [1; 2] "g"%char "h"); [discriminate | exact Hds |].
    reflexivity.
Defined.

Lemma hexToRgb_channels_in_range_witness :
  parseInt (remove_first "#" "zz") 16 = NaN
  /\ colors.hexToRgb (VString "zz") = Returns (mkRgb (int 0) (int 0) (int 0)).
Proof.
  split; [reflexivity|].
  apply (proj2 (hexToRgb_channels_in_range "zz")). reflexivity.
Defined.

(* ================================================================== *)
(** * Further properties *)

(** ** Arithmetic on integers, continued *)

Lemma num_mul_int (x y : Z) :
  Z.abs (x * y) <= 2 ^ 53 -> num_mul (int x) (int y) = int (x * y).
Proof.
  intros Hp. cbn [num_mul int]. rewrite <- inject_Z_mult.
  now apply to_binary64_int.
Qed.

Lemma Math_abs_int (x : Z) : Math_abs (int x) = int (Z.abs x).
Proof.
  unfold int at 1; simpl. apply fin_int.
  unfold Qeq, Qabs, inject_Z; simpl. lia.
Qed.

Lemma Qis_zero_inject_Z (z : Z) : Qis_zero (inject_Z z) = (z =? 0).
Proof. reflexivity. Qed.

(** A division of integers that leaves no remainder. *)
Lemma num_div_int_exact (p g : Z) :
  g <> 0 -> (g | p) -> Z.abs (p / g) <= 2 ^ 53 ->
  num_div (int p) (int g) = int (p / g).
Proof.
  intros Hg (k & ->) Hq. unfold num_div, int.
  rewrite Qis_zero_inject_Z. destruct (g =? 0) eqn:E;
    [apply Z.eqb_eq in E; contradiction|].
  rewrite Z.div_mul in * by assumption.
  transitivity (to_binary64 (inject_Z k)); [|now apply to_binary64_int].
  apply to_binary64_comp.
  rewrite inject_Z_mult. field.
  intros Hz. apply Hg. rewrite <- (Qfloor_inject_Z g), (Qfloor_comp _ _ Hz).
  reflexivity.
Qed.

(** ** numbers.isEven and numbers.isOdd *)

Lemma rem_2_even (z : Z) : (Z.rem z 2 =? 0) = Z.even z.
Proof.
  apply Bool.eq_iff_eq_true. rewrite Z.eqb_eq, Z.even_spec.
  rewrite Z.rem_divide by lia. split.
  - intros (k & ->). exists k. lia.
  - intros (k & ->). exists k. lia.
Qed.

Lemma rem_2_fraction (q : Q) :
  Qis_int q = false -> num_eq (num_rem (Fin q) (int 2)) (int 0) = false.
Proof.
  intros Hq. unfold num_rem, int. cbn [Qis_zero inject_Z Qnum Z.eqb].
  unfold fin, num_eq. apply Bool.not_true_is_false. intros E.
  apply Qeq_bool_iff in E. rewrite Qred_correct in E.
  assert (Eq : (q == inject_Z (2 * Qtrunc (q / (2 # 1))))%Q).
  { rewrite inject_Z_mult. change (inject_Z 2) with (2 # 1)%Q.
    change (inject_Z 0) with 0%Q in E.
    apply Qplus_inj_r with (z := (- ((2 # 1) * inject_Z (Qtrunc (q / (2 # 1)))))%Q).
    rewrite Qplus_opp_r. exact E. }
  unfold Qis_int in Hq. apply Bool.not_true_iff_false in Hq. apply Hq.
  apply Qeq_bool_iff. rewrite (Qfloor_comp _ _ Eq), Qfloor_inject_Z.
  symmetry. exact Eq.
Qed.

(** X1.  On an integer, [isEven] and [isOdd] are the parity of the
    integer, negative ones included; on every other number (a fraction,
    NaN, an infinity) [isEven] is false and [isOdd] is true. *)
Theorem isEven_isOdd_parity :
  (forall z : Z,
      numbers.isEven (VNumber (int z)) = Returns (Z.even z)
      /\ numbers.isOdd (VNumber (int z)) = Returns (Z.odd z))
  /\ (forall x : number,
         is_integer x = false ->
         numbers.isEven (VNumber x) = Returns false
         /\ numbers.isOdd (VNumber x) = Returns true).
Proof.
  split.
  - intros z. unfold numbers.isEven, numbers.isOdd.
    rewrite num_rem_int, num_eq_int_0, rem_2_even by lia.
    now rewrite Z.negb_even.
  - intros x Hx. unfold numbers.isEven, numbers.isOdd.
    destruct x as [| | |q]; try (split; reflexivity).
    simpl in Hx. now rewrite rem_2_fraction.
Qed.

Lemma isEven_isOdd_parity_witness :
  is_integer (Fin (5 # 2)) = false
  /\ numbers.isEven (VNumber (Fin (5 # 2))) = Returns false
  /\ numbers.isOdd (VNumber (Fin (5 # 2))) = Returns true.
Proof.
  split; [reflexivity|].
  apply (proj2 isEven_isOdd_parity (Fin (5 # 2))). reflexivity.
Defined.

(** ** numbers.isPrime on integers *)

Lemma divides_evenly_int (i n : Z) :
  i <> 0 -> divides_evenly i (int n) = true <-> (i | n).
Proof.
  intros Hi. unfold divides_evenly.
  rewrite num_rem_int, num_eq_int_0, Z.eqb_eq by assumption.
  now apply Z.rem_divide.
Qed.

Lemma num_lt_int (x y : Z) : num_lt (int x) (int y) = (x <? y).
Proof.
  unfold num_lt, int, Qcompare, Z.ltb; simpl.
  rewrite !Z.mul_1_r. reflexivity.
Qed.

(** A divisor strictly between 1 and [n] comes with one between 2 and
    the integer square root of [n]. *)
Lemma small_divisor (n m : Z) :
  1 < m < n -> (m | n) -> exists i : Z, 2 <= i <= Z.sqrt n /\ (i | n).
Proof.
  intros Hm (e & He).
  assert (He' : 1 < e < n) by nia.
  destruct (Z_le_gt_dec (m * m) n) as [Hsq|Hsq].
  - exists m. split; [|exists e; exact He].
    split; [lia|]. apply Z.sqrt_le_square; lia.
  - exists e. split; [|exists m; lia].
    split; [lia|]. apply Z.sqrt_le_square; try lia. nia.
Qed.

(** X2.  On an integer, [isPrime] decides primality: with fuel for the
    candidates up to the square root it returns true exactly when the
    integer is a Z.prime number. *)
Theorem isPrime_decides_prime (n : Z) (fuel : nat) :
  (Z.to_nat (Z.sqrt n) <= fuel)%nat ->
  exists b : bool,
    numbers.isPrime fuel (VNumber (int n)) = Returns b
    /\ (b = true <-> Z.prime n).
Proof.
  intros Hfuel. destruct (num_lt (int n) (int 2)) eqn:Hlt.
  - exists false. split; [unfold numbers.isPrime; now rewrite Hlt|].
    split; [discriminate|]. intros Hp. apply Z.prime_ge_2 in Hp.
    rewrite num_lt_int in Hlt. apply Z.ltb_lt in Hlt. lia.
  - assert (H2 : 2 <= n).
    { rewrite num_lt_int in Hlt. now apply Z.ltb_ge in Hlt. }
    assert (Hq : Qis_neg (inject_Z n) = false)
      by (now apply two_le_nonneg, num_lt_2_false).
    destruct (isPrime_finite (inject_Z n) Hlt) as (b & Hb & Hiff).
    exists b. split.
    + apply Hb. unfold trial_fuel. now rewrite Qfloor_inject_Z.
    + assert (Hdivs : (exists i : Z,
                          in_trial_range i (Fin (inject_Z n)) = true
                          /\ divides_evenly i (Fin (inject_Z n)) = true)
                      <-> exists i : Z, 2 <= i <= Z.sqrt n /\ (i | n)).
      { split; intros (i & Hi & Hd); exists i.
        - rewrite in_trial_range_Fin, Qfloor_inject_Z in Hi by exact Hq.
          apply andb_prop in Hi. destruct Hi as [H1 H3].
          apply Z.leb_le in H1, H3. split; [lia|].
          apply (divides_evenly_int i n); [lia | exact Hd].
        - rewrite in_trial_range_Fin, Qfloor_inject_Z by exact Hq.
          split.
          + apply andb_true_intro. split; apply Z.leb_le; lia.
          + apply (divides_evenly_int i n); [lia | exact Hd]. }
      rewrite Hdivs in Hiff. split.
      * intros ->. split; [lia|]. intros m Hm Hdiv.
        destruct (small_divisor n m Hm Hdiv) as (i & Hi).
        assert (E : true = false) by (apply Hiff; now exists i).
        discriminate E.
      * intros [_ Hp]. destruct b; [reflexivity|].
        destruct (proj1 Hiff eq_refl) as (i & Hi & Hd).
        pose proof (Z.sqrt_lt_lin n ltac:(lia)) as Hroot.
        exfalso. apply (Hp i); [lia | exact Hd].
Qed.

Lemma isPrime_decides_prime_witness :
  (Z.to_nat (Z.sqrt 97) <= 9)%nat
  /\ exists b : bool,
      numbers.isPrime 9 (VNumber (int 97)) = Returns b
      /\ (b = true <-> Z.prime 97).
Proof.
  assert (Hfuel : (Z.to_nat (Z.sqrt 97) <= 9)%nat) by (vm_compute; lia).
  split; [exact Hfuel|]. apply (isPrime_decides_prime 97 9 Hfuel).
Defined.

(** ** numbers.gdc and numbers.lcm on integers *)

Lemma gcd_rem (a b : Z) : b <> 0 -> Z.gcd b (Z.rem a b) = Z.gcd a b.
Proof.
  intros Hb. rewrite Z.rem_eq by assumption.
  replace (a - b * (a ÷ b)) with (a + - (a ÷ b) * b) by lia.
  rewrite Z.gcd_add_mult_diag_r. apply Z.gcd_comm.
Qed.

Lemma gdc_integers (fuel : nat) :
  forall a b : Z,
    (Z.to_nat (Z.abs b) <= fuel)%nat ->
    exists r : Z,
      numbers.gdc fuel (VNumber (int a)) (VNumber (int b)) = Returns (int r)
      /\ Z.abs r = Z.gcd a b.
Proof.
  induction fuel as [|fuel IH]; intros a b Hfuel; rewrite gdc_eq, num_eq_int_0.
  - assert (b = 0) by lia. subst b. exists a.
    split; [reflexivity | now rewrite Z.gcd_0_r].
  - destruct (b =? 0) eqn:E.
    + apply Z.eqb_eq in E. subst b. exists a.
      split; [reflexivity | now rewrite Z.gcd_0_r].
    + apply Z.eqb_neq in E. rewrite num_rem_int by assumption.
      pose proof (Z.rem_bound_abs a b E) as Hrem.
      destruct (IH b (Z.rem a b)) as (r & Er & Hr); [lia|].
      exists r. split; [exact Er|]. now rewrite Hr, gcd_rem.
Qed.

(** X3.  On any two integers, negative ones included, the recursion of
    [gdc] ends within |b| calls and returns the greatest common divisor
    up to its sign; the sign can be negative, as for gdc(4, -6) = -2. *)
Theorem gdc_on_integers (a b : Z) (fuel : nat) :
  (Z.to_nat (Z.abs b) <= fuel)%nat ->
  (exists r : Z,
      numbers.gdc fuel (VNumber (int a)) (VNumber (int b)) = Returns (int r)
      /\ Z.abs r = Z.gcd a b)
  /\ numbers.gdc 3 (VNumber (int 4)) (VNumber (int (-6))) = Returns (int (-2)).
Proof.
  intros Hfuel. split; [now apply gdc_integers | reflexivity].
Qed.

Lemma gdc_on_integers_witness :
  (Z.to_nat (Z.abs (-18)) <= 18)%nat
  /\ exists r : Z,
      numbers.gdc 18 (VNumber (int (-12))) (VNumber (int (-18)))
      = Returns (int r)
      /\ Z.abs r = Z.gcd (-12) (-18).
Proof.
  assert (Hfuel : (Z.to_nat (Z.abs (-18)) <= 18)%nat) by (simpl; lia).
  split; [exact Hfuel|].
  apply (proj1 (gdc_on_integers (-12) (-18) 18 Hfuel)).
Defined.

(** The least common multiple of two nonnegative integers, not both
    zero, whose product is exact. *)
Lemma lcm_nonneg (fuel : nat) (a b : Z) :
  0 <= a -> 0 <= b -> a <> 0 \/ b <> 0 -> a * b <= 2 ^ 53 ->
  (Z.to_nat b <= fuel)%nat ->
  numbers.lcm fuel (VNumber (int a)) (VNumber (int b))
  = Returns (int (Z.lcm a b)).
Proof.
  intros Ha Hb Hnz Hp Hfuel. unfold numbers.lcm.
  rewrite gdc_gcd by assumption. cbn [bind].
  assert (Hab : 0 <= a * b) by nia.
  rewrite num_mul_int, Math_abs_int by (rewrite Z.abs_eq; assumption).
  assert (Hg : Z.gcd a b <> 0).
  { intros E. apply Z.gcd_eq_0 in E. lia. }
  pose proof (Z.gcd_nonneg a b) as Hg0.
  pose proof (Z.gcd_divide_r a b) as Hdiv.
  rewrite (Z.abs_eq (a * b)) by assumption.
  assert (Hq : 0 <= b / Z.gcd a b) by (apply Z.div_pos; lia).
  assert (El : a * b / Z.gcd a b = Z.lcm a b).
  { unfold Z.lcm. rewrite Z.abs_eq by nia.
    now rewrite Z.divide_div_mul_exact. }
  rewrite num_div_int_exact.
  - now rewrite El.
  - exact Hg.
  - now apply Z.divide_mul_r.
  - rewrite Z.abs_eq by (apply Z.div_pos; lia).
    apply Z.le_trans with (a * b); [|exact Hp].
    apply Z.div_le_upper_bound; [lia|]. nia.
Qed.

(** X4.  On nonnegative integers that are not both zero, and whose
    product is at most 2^53, [lcm] returns the least common multiple;
    [lcm(0, 0)] divides zero by zero and returns NaN, whatever the depth
    of the call stack. *)
Theorem lcm_on_naturals :
  (forall (fuel : nat) (a b : Z),
      0 <= a -> 0 <= b -> a <> 0 \/ b <> 0 -> a * b <= 2 ^ 53 ->
      (Z.to_nat b <= fuel)%nat ->
      numbers.lcm fuel (VNumber (int a)) (VNumber (int b))
      = Returns (int (Z.lcm a b)))
  /\ (forall fuel : nat,
         numbers.lcm fuel (VNumber (int 0)) (VNumber (int 0)) = Returns NaN).
Proof.
  split; [exact lcm_nonneg|].
  intros fuel. unfold numbers.lcm. rewrite gdc_eq. reflexivity.
Qed.

Lemma lcm_on_naturals_witness :
  (0 <= 4 /\ 0 <= 6 /\ (4 <> 0 \/ 6 <> 0) /\ 4 * 6 <= 2 ^ 53
   /\ (Z.to_nat 6 <= 6)%nat)
  /\ numbers.lcm 6 (VNumber (int 4)) (VNumber (int 6))
     = Returns (int (Z.lcm 4 6)).
Proof.
  assert (Hnz : 4 <> 0 \/ 6 <> 0) by (left; discriminate).
  assert (Hp : 4 * 6 <= 2 ^ 53) by (vm_compute; discriminate).
  assert (Hfuel : (Z.to_nat 6 <= 6)%nat) by (simpl; lia).
  split; [repeat split; try lia; assumption|].
  apply (proj1 lcm_on_naturals 6%nat 4 6); try lia; assumption.
Defined.

(** ** numbers.gdcArray and numbers.lcmArray *)

Lemma all_numbers_of (l : list Z) :
  all_numbers (numbers_of l) = Some (map int l).
Proof.
  induction l as [|z l IH]; simpl; [reflexivity | now rewrite IH].
Qed.

Lemma fold_gdc (fuel : nat) (rest : list Z) :
  forall acc : Z,
    0 <= acc ->
    Forall (fun y => 0 <= y /\ (Z.to_nat y <= fuel)%nat) rest ->
    exists g : Z,
      fold_outcome (fun a b => numbers.gdc fuel (VNumber a) (VNumber b))
        (int acc) (map int rest)
      = Returns (int g)
      /\ 0 <= g
      /\ (g | acc)
      /\ (forall y : Z, In y rest -> (g | y))
      /\ (forall d : Z,
             (d | acc) -> (forall y : Z, In y rest -> (d | y)) -> (d | g)).
Proof.
  induction rest as [|y rest IH]; intros acc Hacc Hall.
  - exists acc. simpl. repeat split; trivial.
    + apply Z.divide_refl.
    + intros y [].
  - inversion_clear Hall as [|? ? [Hy Hfuel] Hrest].
    cbn [map fold_outcome]. rewrite gdc_gcd by assumption. cbn [bind].
    destruct (IH (Z.gcd acc y) (Z.gcd_nonneg acc y) Hrest)
      as (g & Eg & Hg & Hdiv & Hin & Hgreatest).
    exists g. split; [exact Eg|]. split; [exact Hg|].
    split; [|split].
    + apply Z.divide_trans with (Z.gcd acc y);
        [exact Hdiv | apply Z.gcd_divide_l].
    + intros z [<-|Hz].
      * apply Z.divide_trans with (Z.gcd acc y);
          [exact Hdiv | apply Z.gcd_divide_r].
      * now apply Hin.
    + intros d Hd Hds. apply Hgreatest.
      * apply Z.gcd_greatest; [exact Hd | apply Hds; now left].
      * intros z Hz. apply Hds. now right.
Qed.

(** X5.  On a nonempty array of nonnegative integers, with fuel for the
    largest of them, [gdcArray] returns their greatest common divisor:
    a nonnegative integer that divides every element and that every
    common divisor divides.  An array of one number returns that
    number as it is, without a call of [gdc]. *)
Theorem gdcArray_greatest_common_divisor :
  (forall (fuel : nat) (x : Z) (rest : list Z),
      0 <= x ->
      Forall (fun y => 0 <= y /\ (Z.to_nat y <= fuel)%nat) rest ->
      exists g : Z,
        numbers.gdcArray fuel (numbers_of (x :: rest)) = Returns (int g)
        /\ 0 <= g
        /\ (forall y : Z, In y (x :: rest) -> (g | y))
        /\ (forall d : Z,
               (forall y : Z, In y (x :: rest) -> (d | y)) -> (d | g)))
  /\ (forall (fuel : nat) (n : number),
         numbers.gdcArray fuel [VNumber n] = Returns n).
Proof.
  split; [|reflexivity].
  intros fuel x rest Hx Hall. unfold numbers.gdcArray.
  rewrite all_numbers_of. cbn [map reduce].
  destruct (fold_gdc fuel rest x Hx Hall)
    as (g & Eg & Hg & Hdiv & Hin & Hgreatest).
  exists g. split; [exact Eg|]. split; [exact Hg|]. split.
  - intros y [<-|Hy]; [exact Hdiv | now apply Hin].
  - intros d Hd. apply Hgreatest.
    + apply Hd. now left.
    + intros y Hy. apply Hd. now right.
Qed.

Lemma gdcArray_greatest_common_divisor_witness :
  (0 <= 12
   /\ Forall (fun y => 0 <= y /\ (Z.to_nat y <= 24)%nat) [18; 24])
  /\ exists g : Z,
      numbers.gdcArray 24 (numbers_of [12; 18; 24]) = Returns (int g)
      /\ 0 <= g
      /\ (forall y : Z, In y [12; 18; 24] -> (g | y))
      /\ (forall d : Z,
             (forall y : Z, In y [12; 18; 24] -> (d | y)) -> (d | g)).
Proof.
  assert (Hall : Forall (fun y => 0 <= y /\ (Z.to_nat y <= 24)%nat) [18; 24])
    by (repeat constructor; simpl; lia).
  split; [split; [lia | exact Hall]|].
  apply (proj1 gdcArray_greatest_common_divisor 24%nat 12 [18; 24]);
    [lia | exact Hall].
Defined.

Lemma lcm_le_mul (a b : Z) : 0 < a -> 0 < b -> Z.lcm a b <= a * b.
Proof.
  intros Ha Hb. unfold Z.lcm.
  pose proof (Z.gcd_nonneg a b) as Hg0.
  assert (Hg : Z.gcd a b <> 0) by (intros E; apply Z.gcd_eq_0 in E; lia).
  assert (Hq : 0 <= b / Z.gcd a b <= b).
  { split; [apply Z.div_pos; lia|].
    apply Z.div_le_upper_bound; [lia|]. nia. }
  rewrite Z.abs_eq by nia. nia.
Qed.

Lemma Zproduct_pos (l : list Z) :
  Forall (fun y => 0 < y) l -> 0 < Zproduct l.
Proof.
  induction 1 as [|y l Hy _ IH]; cbn [Zproduct fold_right]; [lia|].
  fold (Zproduct l). nia.
Qed.

Lemma fold_lcm (fuel : nat) (rest : list Z) :
  forall acc : Z,
    0 < acc ->
    Forall (fun y => 0 < y /\ (Z.to_nat y <= fuel)%nat) rest ->
    acc * Zproduct rest <= 2 ^ 53 ->
    exists m : Z,
      fold_outcome (fun a b => numbers.lcm fuel (VNumber a) (VNumber b))
        (int acc) (map int rest)
      = Returns (int m)
      /\ 0 < m
      /\ (acc | m)
      /\ (forall y : Z, In y rest -> (y | m))
      /\ (forall c : Z,
             (acc | c) -> (forall y : Z, In y rest -> (y | c)) -> (m | c)).
Proof.
  induction rest as [|y rest IH]; intros acc Hacc Hall Hprod.
  - exists acc. simpl. repeat split; trivial.
    + apply Z.divide_refl.
    + intros y [].
  - inversion_clear Hall as [|? ? [Hy Hfuel] Hrest].
    cbn [Zproduct fold_right] in Hprod. fold (Zproduct rest) in Hprod.
    assert (Hpos : 0 < Zproduct rest).
    { apply Zproduct_pos. eapply Forall_impl; [|exact Hrest].
      now intros z [Hz _]. }
    pose proof (lcm_le_mul acc y Hacc Hy) as Hle.
    cbn [map fold_outcome]. rewrite lcm_nonneg by nia. cbn [bind].
    assert (Hl : 0 < Z.lcm acc y).
    { pose proof (Z.lcm_nonneg acc y) as Hn.
      assert (Z.lcm acc y <> 0) by (rewrite Z.lcm_eq_0; lia). lia. }
    destruct (IH (Z.lcm acc y) Hl Hrest ltac:(nia))
      as (m & Em & Hm & Hdiv & Hin & Hleast).
    exists m. split; [exact Em|]. split; [exact Hm|].
    split; [|split].
    + apply Z.divide_trans with (Z.lcm acc y);
        [apply Z.divide_lcm_l | exact Hdiv].
    + intros z [<-|Hz].
      * apply Z.divide_trans with (Z.lcm acc y);
          [apply Z.divide_lcm_r | exact Hdiv].
      * now apply Hin.
    + intros c Hc Hcs. apply Hleast.
      * apply Z.lcm_least; [exact Hc | apply Hcs; now left].
      * intros z Hz. apply Hcs. now right.
Qed.

(** X6.  On a nonempty array of positive integers whose product is at
    most 2^53, with a call stack for the largest of them, [lcmArray]
    returns their least common multiple: a positive integer that every
    element divides and that divides every common multiple. *)
Theorem lcmArray_least_common_multiple (fuel : nat) (x : Z) (rest : list Z) :
  0 < x ->
  Forall (fun y => 0 < y /\ (Z.to_nat y <= fuel)%nat) rest ->
  Zproduct (x :: rest) <= 2 ^ 53 ->
  exists m : Z,
    numbers.lcmArray fuel (numbers_of (x :: rest)) = Returns (int m)
    /\ 0 < m
    /\ (forall y : Z, In y (x :: rest) -> (y | m))
    /\ (forall c : Z,
           (forall y : Z, In y (x :: rest) -> (y | c)) -> (m | c)).
Proof.
  intros Hx Hall Hprod. unfold numbers.lcmArray.
  rewrite all_numbers_of. cbn [map reduce].
  destruct (fold_lcm fuel rest x Hx Hall Hprod)
    as (m & Em & Hm & Hdiv & Hin & Hleast).
  exists m. split; [exact Em|]. split; [exact Hm|]. split.
  - intros y [<-|Hy]; [exact Hdiv | now apply Hin].
  - intros c Hc. apply Hleast.
    + apply Hc. now left.
    + intros y Hy. apply Hc. now right.
Qed.

Lemma lcmArray_least_common_multiple_witness :
  (0 < 12
   /\ Forall (fun y => 0 < y /\ (Z.to_nat y <= 24)%nat) [18; 24]
   /\ Zproduct [12; 18; 24] <= 2 ^ 53)
  /\ exists m : Z,
      numbers.lcmArray 24 (numbers_of [12; 18; 24]) = Returns (int m)
      /\ 0 < m
      /\ (forall y : Z, In y [12; 18; 24] -> (y | m))
      /\ (forall c : Z,
             (forall y : Z, In y [12; 18; 24] -> (y | c)) -> (m | c)).
Proof.
  assert (Hall : Forall (fun y => 0 < y /\ (Z.to_nat y <= 24)%nat) [18; 24])
    by (repeat constructor; simpl; lia).
  assert (Hprod : Zproduct [12; 18; 24] <= 2 ^ 53)
    by (vm_compute; discriminate).
  split; [split; [lia | split; [exact Hall | exact Hprod]]|].
  apply (lcmArray_least_common_multiple 24 12 [18; 24]);
    [lia | exact Hall | exact Hprod].
Defined.

(** ** numbers.average *)

Lemma all_numbers_map (ns : list number) :
  all_numbers (map VNumber ns) = Some ns.
Proof.
  induction ns as [|n ns IH]; simpl; [reflexivity | now rewrite IH].
Qed.

Lemma Zsum_nonneg (l : list Z) : Forall (fun y => 0 <= y) l -> 0 <= Zsum l.
Proof.
  induction 1 as [|y l Hy _ IH]; cbn [Zsum fold_right]; [lia|].
  fold (Zsum l). lia.
Qed.

(** The sum of nonnegative integers is exact as long as it stays within
    2^53. *)
Lemma fold_add_integers (rest : list Z) :
  forall acc : Z,
    0 <= acc -> Forall (fun y => 0 <= y) rest ->
    acc + Zsum rest <= 2 ^ 53 ->
    fold_outcome (fun a b => Returns (num_add a b)) (int acc) (map int rest)
    = Returns (int (acc + Zsum rest)).
Proof.
  induction rest as [|y rest IH]; intros acc Hacc Hall Hsum.
  - cbn [map fold_outcome Zsum fold_right]. now rewrite Z.add_0_r.
  - inversion_clear Hall as [|? ? Hy Hrest].
    cbn [Zsum fold_right] in *. fold (Zsum rest) in *.
    pose proof (Zsum_nonneg rest Hrest) as Hs.
    cbn [map fold_outcome bind].
    rewrite num_add_int by lia.
    rewrite IH by (assumption || lia). f_equal. f_equal. lia.
Qed.

Lemma num_add_NaN_r (x : number) : num_add x NaN = NaN.
Proof. now destruct x. Qed.

Lemma fold_add_NaN (rest : list number) :
  forall acc : number,
    acc = NaN \/ In NaN rest ->
    fold_outcome (fun a b => Returns (num_add a b)) acc rest = Returns NaN.
Proof.
  induction rest as [|y rest IH]; intros acc H; simpl.
  - destruct H as [->|[]]. reflexivity.
  - apply IH. destruct H as [->|[->|H]].
    + now left.
    + left. apply num_add_NaN_r.
    + now right.
Qed.

(** X7.  On one or more nonnegative integers whose sum is at most 2^53,
    [average] returns the binary64 value nearest to their arithmetic
    mean: the sum is exact, and its quotient by the count is rounded
    once.  When one of the numbers is NaN the result is NaN.  In
    particular average(1, 2, 3, 4) is 2.5, and the average of two
    numbers that are the largest binary64 value is +Infinity, as their
    sum is. *)
Theorem average_is_mean :
  (forall (x : Z) (rest : list Z),
      Forall (fun y => 0 <= y) (x :: rest) -> Zsum (x :: rest) <= 2 ^ 53 ->
      numbers.average (numbers_of (x :: rest))
      = Returns
          (to_binary64
             (inject_Z (Zsum (x :: rest))
              / inject_Z (Z.of_nat (List.length (x :: rest))))))
  /\ (forall ns : list number,
         In NaN ns -> numbers.average (map VNumber ns) = Returns NaN)
  /\ numbers.average (numbers_of [1; 2; 3; 4]) = Returns (Fin (5 # 2))
  /\ numbers.average
       [VNumber (int ((2 ^ 53 - 1) * 2 ^ 971));
        VNumber (int ((2 ^ 53 - 1) * 2 ^ 971))]
     = Returns PInf.
Proof.
  split; [|split; [|split; vm_compute; reflexivity]].
  - intros x rest Hall Hsum. unfold numbers.average.
    rewrite all_numbers_of, length_map. cbn [map reduce].
    inversion_clear Hall as [|? ? Hx Hrest].
    cbn [Zsum fold_right] in *. fold (Zsum rest) in *.
    rewrite fold_add_integers by assumption. cbn [bind].
    set (n := Z.of_nat (List.length (x :: rest))).
    assert (Hn : 0 < n) by (subst n; simpl; lia).
    unfold num_div, int. rewrite Qis_zero_inject_Z.
    destruct (n =? 0) eqn:E; [apply Z.eqb_eq in E; lia | reflexivity].
  - intros ns Hin. unfold numbers.average.
    rewrite all_numbers_map. destruct ns as [|x rest]; [destruct Hin|].
    cbn [reduce]. rewrite fold_add_NaN.
    + reflexivity.
    + destruct Hin as [->|Hin]; [now left | now right].
Qed.

Lemma average_is_mean_witness :
  (Forall (fun y => 0 <= y) [2; 4; 9] /\ Zsum [2; 4; 9] <= 2 ^ 53)
  /\ numbers.average (numbers_of [2; 4; 9])
     = Returns
         (to_binary64
            (inject_Z (Zsum [2; 4; 9])
             / inject_Z (Z.of_nat (List.length [2; 4; 9])))).
Proof.
  assert (Hall : Forall (fun y => 0 <= y) [2; 4; 9])
    by (repeat constructor; lia).
  assert (Hsum : Zsum [2; 4; 9] <= 2 ^ 53) by (vm_compute; discriminate).
  split; [split; assumption|].
  apply (proj1 average_is_mean 2 [4; 9] Hall Hsum).
Defined.

(** ** colors.randomRgb and colors.randomHsl *)

(** X8.  [randomRgb] takes three values of the pseudo-random source, in
    the order r, g, b, and each channel, the floor of the rounded
    product of a value and 255, is an integer from 0 to 254: the factor
    is 255, so 255 itself never comes out. *)
Theorem randomRgb_channels (w : world) :
  random_value (draw w 0) -> random_value (draw w 1) ->
  random_value (draw w 2) ->
  exists r g b : Z,
    colors.randomRgb w = (mkRgb (int r) (int g) (int b), after_draws 3 w)
    /\ Math_floor (num_mul (Fin (draw w 0)) (int 255)) = int r
    /\ Math_floor (num_mul (Fin (draw w 1)) (int 255)) = int g
    /\ Math_floor (num_mul (Fin (draw w 2)) (int 255)) = int b
    /\ 0 <= r <= 254 /\ 0 <= g <= 254 /\ 0 <= b <= 254.
Proof.
  intros H0 H1 H2.
  assert (Hn : 1 <= 255 <= 2 ^ 53)
    by (change (2 ^ 53) with 9007199254740992; lia).
  destruct (floor_scaled _ 255 H0 Hn) as (r & Er & Hr).
  destruct (floor_scaled _ 255 H1 Hn) as (g & Eg & Hg).
  destruct (floor_scaled _ 255 H2 Hn) as (b & Eb & Hb).
  exists r, g, b.
  split; [|repeat split; try assumption; lia].
  unfold colors.randomRgb, Math_random;
    cbn [random_drawn random_source clock_ms].
  unfold draw in Er, Eg, Eb. cbn [Nat.add] in Er, Eg, Eb.
  now rewrite Er, Eg, Eb.
Qed.

Lemma randomRgb_channels_witness :
  let w := mkWorld 0 (fun i => (Z.of_nat i # 4)%Q) 0 in
  (random_value (draw w 0) /\ random_value (draw w 1)
   /\ random_value (draw w 2))
  /\ exists r g b : Z,
      colors.randomRgb w = (mkRgb (int r) (int g) (int b), after_draws 3 w)
      /\ Math_floor (num_mul (Fin (draw w 0)) (int 255)) = int r
      /\ Math_floor (num_mul (Fin (draw w 1)) (int 255)) = int g
      /\ Math_floor (num_mul (Fin (draw w 2)) (int 255)) = int b
      /\ 0 <= r <= 254 /\ 0 <= g <= 254 /\ 0 <= b <= 254.
Proof.
  intros w.
  assert (H0 : random_value (draw w 0))
    by (split; [reflexivity | split; [unfold Qle | unfold Qlt]; simpl; lia]).
  assert (H1 : random_value (draw w 1))
    by (split; [reflexivity | split; [unfold Qle | unfold Qlt]; simpl; lia]).
  assert (H2 : random_value (draw w 2))
    by (split; [reflexivity | split; [unfold Qle | unfold Qlt]; simpl; lia]).
  split; [split; [exact H0 | split; [exact H1 | exact H2]]|].
  apply (randomRgb_channels w H0 H1 H2).
Defined.

(** X9.  [randomHsl] takes three values of the pseudo-random source, in
    the order h, s, l; the hue, the floor of the rounded product of a
    value and 360, is an integer from 0 to 359; the saturation and the
    lightness, with the factor 100, are integers from 0 to 99. *)
Theorem randomHsl_components (w : world) :
  random_value (draw w 0) -> random_value (draw w 1) ->
  random_value (draw w 2) ->
  exists h s l : Z,
    colors.randomHsl w = (mkHsl (int h) (int s) (int l), after_draws 3 w)
    /\ Math_floor (num_mul (Fin (draw w 0)) (int 360)) = int h
    /\ Math_floor (num_mul (Fin (draw w 1)) (int 100)) = int s
    /\ Math_floor (num_mul (Fin (draw w 2)) (int 100)) = int l
    /\ 0 <= h <= 359 /\ 0 <= s <= 99 /\ 0 <= l <= 99.
Proof.
  intros H0 H1 H2.
  assert (Hn : 1 <= 360 <= 2 ^ 53)
    by (change (2 ^ 53) with 9007199254740992; lia).
  assert (Hm : 1 <= 100 <= 2 ^ 53)
    by (change (2 ^ 53) with 9007199254740992; lia).
  destruct (floor_scaled _ 360 H0 Hn) as (h & Eh & Hh).
  destruct (floor_scaled _ 100 H1 Hm) as (s & Es & Hs).
  destruct (floor_scaled _ 100 H2 Hm) as (l & El & Hl).
  exists h, s, l.
  split; [|repeat split; try assumption; lia].
  unfold colors.randomHsl, Math_random;
    cbn [random_drawn random_source clock_ms].
  unfold draw in Eh, Es, El. cbn [Nat.add] in Eh, Es, El.
  now rewrite Eh, Es, El.
Qed.

Lemma randomHsl_components_witness :
  let w := mkWorld 0 (fun i => (Z.of_nat i # 4)%Q) 0 in
  (random_value (draw w 0) /\ random_value (draw w 1)
   /\ random_value (draw w 2))
  /\ exists h s l : Z,
      colors.randomHsl w = (mkHsl (int h) (int s) (int l), after_draws 3 w)
      /\ Math_floor (num_mul (Fin (draw w 0)) (int 360)) = int h
      /\ Math_floor (num_mul (Fin (draw w 1)) (int 100)) = int s
      /\ Math_floor (num_mul (Fin (draw w 2)) (int 100)) = int l
      /\ 0 <= h <= 359 /\ 0 <= s <= 99 /\ 0 <= l <= 99.
Proof.
  intros w.
  assert (H0 : random_value (draw w 0))
    by (split; [reflexivity | split; [unfold Qle | unfold Qlt]; simpl; lia]).
  assert (H1 : random_value (draw w 1))
    by (split; [reflexivity | split; [unfold Qle | unfold Qlt]; simpl; lia]).
  assert (H2 : random_value (draw w 2))
    by (split; [reflexivity | split; [unfold Qle | unfold Qlt]; simpl; lia]).
  split; [split; [exact H0 | split; [exact H1 | exact H2]]|].
  apply (randomHsl_components w H0 H1 H2).
Defined.

(** ** colors.rgbToHex and colors.hexToRgb: more on the two directions *)

Lemma string_of_digits_length (ds : list Z) :
  String.length (string_of_digits ds) = List.length ds.
Proof. induction ds as [|d ds IH]; simpl; [reflexivity | now rewrite IH]. Qed.

(** Six hexadecimal digits after a '#' are read as three channels of two
    digits each. *)
Lemma hexToRgb_six_digits (d1 d2 d3 d4 d5 d6 : Z) :
  Forall hex_digit [d1; d2; d3; d4; d5; d6] ->
  colors.hexToRgb (VString (String "#" (string_of_digits [d1; d2; d3; d4; d5; d6])))
  = Returns (mkRgb (int (d1 * 16 + d2)) (int (d3 * 16 + d4)) (int (d5 * 16 + d6))).
Proof.
  intros Hall. rewrite hexToRgb_unfold. cbn [remove_first].
  change (Ascii.eqb "#" "#") with true. cbv iota zeta.
  rewrite parseInt_hex_digits by (try discriminate; exact Hall).
  unfold hex_digit in Hall.
  repeat match goal with
         | Hf : Forall _ (_ :: _) |- _ => inversion_clear Hf
         end.
  assert (Ev : digits_value 16 [d1; d2; d3; d4; d5; d6]
               = (d1 * 16 + d2) * 65536 + (d3 * 16 + d4) * 256 + (d5 * 16 + d6)).
  { unfold digits_value; simpl. lia. }
  rewrite Ev, round_binary64_small
    by (change (2 ^ 53) with 9007199254740992; lia).
  destruct (channel_packed (d1 * 16 + d2) (d3 * 16 + d4) (d5 * 16 + d6))
    as (Er & Eg & Eb); try lia.
  now rewrite Er, Eg, Eb.
Qed.

Lemma hex6_of_pairs (d1 d2 d3 d4 d5 d6 : Z) :
  Forall hex_digit [d1; d2; d3; d4; d5; d6] ->
  hex6 (d1 * 16 + d2) (d3 * 16 + d4) (d5 * 16 + d6) = [d1; d2; d3; d4; d5; d6].
Proof.
  intros Hall. unfold hex_digit in Hall.
  repeat match goal with
         | Hf : Forall _ (_ :: _) |- _ => inversion_clear Hf
         end.
  unfold hex6. repeat f_equal; Z.div_mod_to_equations; lia.
Qed.

(** X10.  For channels that are integers in [0,255], [rgbToHex] returns
    '#' and exactly six characters, and different colours get different
    strings. *)
Theorem rgbToHex_injective `{Host} (r g b r' g' b' : Z) :
  0 <= r <= 255 -> 0 <= g <= 255 -> 0 <= b <= 255 ->
  0 <= r' <= 255 -> 0 <= g' <= 255 -> 0 <= b' <= 255 ->
  (exists text : string,
      colors.rgbToHex (VNumber (int r)) (VNumber (int g)) (VNumber (int b))
      = Returns (String "#" text)
      /\ String.length text = 6%nat)
  /\ (colors.rgbToHex (VNumber (int r)) (VNumber (int g)) (VNumber (int b))
      = colors.rgbToHex (VNumber (int r')) (VNumber (int g')) (VNumber (int b')) ->
      r = r' /\ g = g' /\ b = b').
Proof.
  intros Hr Hg Hb Hr' Hg' Hb'. rewrite !rgbToHex_in_range by assumption. split.
  - eexists. split; [reflexivity|]. now rewrite string_of_digits_length.
  - intros E.
    apply (f_equal (fun o => match o with
                             | Returns (String _ text) => text
                             | _ => EmptyString
                             end)) in E.
    change (string_of_digits (hex6 r g b) = string_of_digits (hex6 r' g' b'))
      in E.
    pose proof (hex6_digits r g b Hr Hg Hb) as Hd.
    pose proof (hex6_digits r' g' b' Hr' Hg' Hb') as Hd'.
    pose proof (hexToRgb_six_digits _ _ _ _ _ _ Hd) as P.
    pose proof (hexToRgb_six_digits _ _ _ _ _ _ Hd') as P'.
    fold (hex6 r g b) in P. fold (hex6 r' g' b') in P'.
    rewrite E, P' in P. injection P as Er Eg Eb.
    Z.div_mod_to_equations. lia.
Qed.

Lemma rgbToHex_injective_witness :
  (0 <= 1 <= 255 /\ 0 <= 2 <= 255 /\ 0 <= 3 <= 255)
  /\ exists text : string,
      @colors.rgbToHex bare_host (VNumber (int 1)) (VNumber (int 2)) (VNumber (int 3))
      = Returns (String "#" text)
      /\ String.length text = 6%nat.
Proof.
  split; [lia|].
  apply (proj1 (@rgbToHex_injective bare_host 1 2 3 1 2 3
                  ltac:(lia) ltac:(lia) ltac:(lia) ltac:(lia) ltac:(lia) ltac:(lia))).
Defined.

Lemma remove_first_none (s : string) :
  has_hash s = false -> remove_first "#" s = s.
Proof.
  induction s as [|c s IH]; simpl; [reflexivity|].
  intros H. apply orb_false_elim in H. destruct H as [Hc Hs].
  now rewrite Hc, IH.
Qed.

Lemma remove_first_app (s1 s2 : string) :
  has_hash s1 = false ->
  remove_first "#" (s1 ++ String "#" s2) = s1 ++ s2.
Proof.
  induction s1 as [|c s1 IH]; simpl.
  - reflexivity.
  - intros H. apply orb_false_elim in H. destruct H as [Hc Hs].
    now rewrite Hc, IH.
Qed.

Lemma has_hash_app (s1 s2 : string) :
  has_hash (s1 ++ s2) = has_hash s1 || has_hash s2.
Proof.
  induction s1 as [|c s1 IH]; simpl; [reflexivity|].
  now rewrite IH, orb_assoc.
Qed.

Lemma digit_char_not_hash (d : Z) :
  hex_digit d -> Ascii.eqb (digit_char d) "#" = false.
Proof. intros Hd. hex_cases d Hd. Qed.

Lemma has_hash_digits (ds : list Z) :
  Forall hex_digit ds -> has_hash (string_of_digits ds) = false.
Proof.
  induction 1 as [|d ds Hd _ IH]; simpl; [reflexivity|].
  now rewrite digit_char_not_hash, IH.
Qed.

(** X11.  A '#' and six lowercase hexadecimal digits survive the way
    through [hexToRgb] and back through [rgbToHex]; the same digits
    without the '#' come back with it. *)
Theorem rgbToHex_hexToRgb `{Host} (ds : list Z) :
  List.length ds = 6%nat -> Forall hex_digit ds ->
  (c <- colors.hexToRgb (VString (String "#" (string_of_digits ds))) ;;
   hex_of_rgb c)
  = Returns (String "#" (string_of_digits ds))
  /\ (c <- colors.hexToRgb (VString (string_of_digits ds)) ;; hex_of_rgb c)
     = Returns (String "#" (string_of_digits ds)).
Proof.
  intros Hlen Hall.
  assert (Hsame : colors.hexToRgb (VString (string_of_digits ds))
                  = colors.hexToRgb (VString (String "#" (string_of_digits ds)))).
  { rewrite !hexToRgb_unfold. cbn [remove_first].
    change (Ascii.eqb "#" "#") with true. cbv iota.
    now rewrite remove_first_none by (now apply has_hash_digits). }
  rewrite Hsame. clear Hsame.
  do 6 (destruct ds as [|? ds]; [discriminate Hlen|]).
  destruct ds; [clear Hlen | discriminate Hlen].
  rewrite hexToRgb_six_digits by exact Hall.
  cbn [bind]. unfold hex_of_rgb. cbn [rgb_r rgb_g rgb_b].
  pose proof (hex6_of_pairs _ _ _ _ _ _ Hall) as Hpairs.
  unfold hex_digit in Hall.
  repeat match goal with
         | Hf : Forall _ (_ :: _) |- _ => inversion_clear Hf
         end.
  rewrite rgbToHex_in_range by lia.
  rewrite Hpairs. split; reflexivity.
Qed.

Lemma rgbToHex_hexToRgb_witness :
  (List.length [10; 11; 12; 1; 2; 3] = 6%nat
   /\ Forall hex_digit [10; 11; 12; 1; 2; 3])
  /\ (c <- colors.hexToRgb (VString "#abc123") ;; @hex_of_rgb bare_host c)
     = Returns "#abc123"
  /\ (c <- colors.hexToRgb (VString "abc123") ;; @hex_of_rgb bare_host c)
     = Returns "#abc123".
Proof.
  assert (Hall : Forall hex_digit [10; 11; 12; 1; 2; 3])
    by (repeat constructor; unfold hex_digit; lia).
  split; [split; [reflexivity | exact Hall]|].
  apply (@rgbToHex_hexToRgb bare_host [10; 11; 12; 1; 2; 3] eq_refl Hall).
Defined.

(** X12.  [hexToRgb] drops the first '#' wherever it stands, so the
    leading '#' is optional; a second '#' stays, and a text that starts
    with two of them parses to nothing and gives the channels 0, 0, 0. *)
Theorem hexToRgb_drops_one_hash :
  (forall s1 s2 : string,
      has_hash s1 = false -> has_hash s2 = false ->
      colors.hexToRgb (VString (s1 ++ String "#" s2))
      = colors.hexToRgb (VString (s1 ++ s2)))
  /\ (forall s : string,
         colors.hexToRgb (VString (String "#" (String "#" s)))
         = Returns (mkRgb (int 0) (int 0) (int 0))).
Proof.
  split.
  - intros s1 s2 H1 H2. rewrite !hexToRgb_unfold.
    rewrite remove_first_app by exact H1.
    rewrite remove_first_none; [reflexivity|].
    now rewrite has_hash_app, H1, H2.
  - intros s. reflexivity.
Qed.

Lemma hexToRgb_drops_one_hash_witness :
  (has_hash "12" = false /\ has_hash "3456" = false)
  /\ colors.hexToRgb (VString "12#3456") = colors.hexToRgb (VString "123456").
Proof.
  split; [split; reflexivity|].
  apply (proj1 hexToRgb_drops_one_hash "12" "3456"); reflexivity.
Defined.

Lemma ascii_upper_hash (c : ascii) :
  Ascii.eqb (ascii_upper c) "#" = Ascii.eqb c "#".
Proof. destruct c as [[] [] [] [] [] [] [] []]; reflexivity. Qed.

Lemma ascii_upper_space (c : ascii) : is_space (ascii_upper c) = is_space c.
Proof. destruct c as [[] [] [] [] [] [] [] []]; reflexivity. Qed.

Lemma ascii_upper_digit (c : ascii) :
  digit_value (ascii_upper c) = digit_value c.
Proof. destruct c as [[] [] [] [] [] [] [] []]; reflexivity. Qed.

Lemma remove_first_upper (s : string) :
  remove_first "#" (string_upper s) = string_upper (remove_first "#" s).
Proof.
  induction s as [|c s IH]; simpl; [reflexivity|].
  rewrite ascii_upper_hash. destruct (Ascii.eqb c "#"); [reflexivity|].
  simpl. now rewrite IH.
Qed.

Lemma trim_start_upper (s : string) :
  trim_start (string_upper s) = string_upper (trim_start s).
Proof.
  induction s as [|c s IH]; simpl; [reflexivity|].
  rewrite ascii_upper_space. destruct (is_space c); [exact IH | reflexivity].
Qed.

Lemma strip_sign_upper (s : string) :
  strip_sign (string_upper s)
  = (fst (strip_sign s), string_upper (snd (strip_sign s))).
Proof.
  destruct s as [|c s]; [reflexivity|].
  destruct c as [[] [] [] [] [] [] [] []]; reflexivity.
Qed.

Lemma strip_0x_upper (s : string) :
  strip_0x (string_upper s) = string_upper (strip_0x s).
Proof.
  destruct s as [|c s]; [reflexivity|].
  destruct c as [[] [] [] [] [] [] [] []]; try reflexivity.
  destruct s as [|c' s]; [reflexivity|].
  destruct c' as [[] [] [] [] [] [] [] []]; reflexivity.
Qed.

Lemma take_digits_upper (radix : Z) (s : string) :
  take_digits radix (string_upper s) = take_digits radix s.
Proof.
  induction s as [|c s IH]; simpl; [reflexivity|].
  rewrite ascii_upper_digit. destruct (digit_value c) as [d|]; [|reflexivity].
  now rewrite IH.
Qed.

Lemma parseInt_16_upper (s : string) :
  parseInt (string_upper s) 16 = parseInt s 16.
Proof.
  unfold parseInt. rewrite trim_start_upper, strip_sign_upper.
  destruct (strip_sign (trim_start s)) as [sign s1]. cbn [fst snd].
  cbn [Z.eqb orb andb Z.leb Z.compare Pos.compare Pos.compare_cont Pos.eqb].
  now rewrite strip_0x_upper, take_digits_upper.
Qed.

(** X13.  [hexToRgb] does not tell capital letters from small ones:
    turning the ASCII letters of any text into capitals leaves the
    result as it is. *)
Theorem hexToRgb_ignores_case (s : string) :
  colors.hexToRgb (VString (string_upper s)) = colors.hexToRgb (VString s).
Proof.
  rewrite !hexToRgb_unfold. now rewrite remove_first_upper, parseInt_16_upper.
Qed.

(** ** discordTimestamps.now and discordTimestamps.fromNow *)

Lemma timestamp_of_seconds `{Host} (secs : Z) (tag code : string) :
  In (tag, code) specified_codes -> Z.abs secs < 2 ^ 53 ->
  timestamp (int secs) (VString tag)
  = "<t:" ++ int_toString 10 secs ++ ":" ++ code ++ ">".
Proof.
  intros Hin Hsecs. unfold timestamp.
  rewrite number_toString_10_int by exact Hsecs.
  unfold specified_codes in Hin.
  repeat (destruct Hin as [Hin|Hin]; [injection Hin as <- <-; reflexivity|]).
  destruct Hin.
Qed.

Lemma tag_included (tag code : string) :
  In (tag, code) specified_codes ->
  includes (Object_keys formats) (VString tag) = true.
Proof.
  intros Hin. unfold specified_codes in Hin.
  repeat (destruct Hin as [Hin|Hin]; [injection Hin as <- <-; reflexivity|]).
  destruct Hin.
Qed.

(** X14.  [now] is [fromDate] at the time of the clock and [fromNow] is
    [fromDate] at that time plus the offset, errors included.  So, with
    a clock below 2^53 milliseconds, fromNow(0) is now(); and for a tag
    of the table and an integer offset ms that leaves the time below
    2^53 in magnitude, fromNow(ms) returns
    "<t:" ++ floor((clock + ms) / 1000) ++ ":" ++ code ++ ">", the
    seconds being the floor division. *)
Theorem now_fromNow_at_clock `{Host} (w : world) :
  (forall format : value,
      discordTimestamps.now w format
      = discordTimestamps.fromDate (VNumber (Date_now w)) format)
  /\ (forall (ms : number) (format : value),
         discordTimestamps.fromNow w (VNumber ms) format
         = discordTimestamps.fromDate (VNumber (num_add (Date_now w) ms)) format)
  /\ (Z.abs (clock_ms w) < 2 ^ 53 ->
      forall format : value,
        discordTimestamps.fromNow w (VNumber (int 0)) format
        = discordTimestamps.now w format)
  /\ (forall (ms : Z) (tag code : string),
         In (tag, code) specified_codes ->
         Z.abs (clock_ms w + ms) < 2 ^ 53 ->
         discordTimestamps.fromNow w (VNumber (int ms)) (VString tag)
         = Returns ("<t:" ++ int_toString 10 ((clock_ms w + ms) / 1000)
                    ++ ":" ++ code ++ ">")).
Proof.
  split; [reflexivity|]. split; [reflexivity|]. split.
  - intros Hclock format.
    unfold discordTimestamps.fromNow, discordTimestamps.now.
    unfold Date_now. rewrite num_add_int by (rewrite Z.add_0_r; lia).
    now rewrite Z.add_0_r.
  - intros ms tag code Hin Hsecs. unfold discordTimestamps.fromNow.
    cbn [default_to]. rewrite (tag_included tag code Hin). cbn [negb].
    unfold Date_now. rewrite num_add_int, floor_div_1000 by lia.
    rewrite (timestamp_of_seconds _ tag code Hin); [reflexivity|].
    change (2 ^ 53) with 9007199254740992 in *.
    Z.div_mod_to_equations. lia.
Qed.

Lemma now_fromNow_at_clock_witness :
  let w := mkWorld 1620000000000 (fun _ => 0%Q) 0 in
  (Z.abs (clock_ms w) < 2 ^ 53
   /\ In ("RELATIVE", "R") specified_codes
   /\ Z.abs (clock_ms w + 60000) < 2 ^ 53)
  /\ @discordTimestamps.fromNow bare_host w (VNumber (int 0)) VUndefined
     = @discordTimestamps.now bare_host w VUndefined
  /\ @discordTimestamps.fromNow bare_host w (VNumber (int 60000))
       (VString "RELATIVE")
     = Returns ("<t:" ++ int_toString 10 ((clock_ms w + 60000) / 1000)
                ++ ":R>").
Proof.
  intros w.
  assert (Hclock : Z.abs (clock_ms w) < 2 ^ 53) by reflexivity.
  assert (Hin : In ("RELATIVE", "R") specified_codes) by (left; reflexivity).
  assert (Hsecs : Z.abs (clock_ms w + 60000) < 2 ^ 53) by reflexivity.
  split; [split; [exact Hclock | split; [exact Hin | exact Hsecs]]|].
  destruct (@now_fromNow_at_clock bare_host w) as (_ & _ & Zero & Formula).
  split.
  - apply (Zero Hclock VUndefined).
  - apply (Formula 60000 "RELATIVE" "R" Hin Hsecs).
Defined.



(** ** The variant that does not check the format *)




(** ** numbers.isPrime off the integers *)

Lemma fraction_never_divides (q : Q) (i : Z) :
  Qis_int q = false -> divides_evenly i (Fin q) = false.
Proof.
  intros Hq. unfold divides_evenly, num_rem, int.
  rewrite Qis_zero_inject_Z. destruct (i =? 0); [reflexivity|].
  unfold fin, num_eq. apply Bool.not_true_is_false. intros E.
  apply Qeq_bool_iff in E. rewrite Qred_correct in E.
  change (inject_Z 0) with 0%Q in E.
  assert (Eq : (q == inject_Z (i * Qtrunc (q / inject_Z i)))%Q).
  { rewrite inject_Z_mult. lra. }
  unfold Qis_int in Hq. apply Bool.not_true_iff_false in Hq. apply Hq.
  apply Qeq_bool_iff. rewrite (Qfloor_comp _ _ Eq), Qfloor_inject_Z.
  symmetry. exact Eq.
Qed.

(** X25.  [isPrime] calls every fraction from 2 on a prime: no integer
    divides it evenly, so the loop runs to the square root and the
    answer is true.  NaN is called a prime as well, at once. *)
Theorem isPrime_on_fractions :
  (forall (q : Q) (fuel : nat),
      Qis_int q = false -> num_lt (Fin q) (int 2) = false ->
      (trial_fuel (Fin q) <= fuel)%nat ->
      numbers.isPrime fuel (VNumber (Fin q)) = Returns true)
  /\ (forall fuel : nat, numbers.isPrime fuel (VNumber NaN) = Returns true).
Proof.
  split.
  - intros q fuel Hq Hlt Hfuel.
    destruct (isPrime_finite q Hlt) as (b & Hb & Hiff).
    rewrite (Hb fuel Hfuel). destruct b; [reflexivity|].
    destruct (proj1 Hiff eq_refl) as (i & _ & Hd).
    rewrite fraction_never_divides in Hd by exact Hq. discriminate.
  - intros fuel. now destruct fuel.
Qed.

Lemma isPrime_on_fractions_witness :
  (Qis_int (9 # 2) = false /\ num_lt (Fin (9 # 2)) (int 2) = false
   /\ (trial_fuel (Fin (9 # 2)) <= 2)%nat)
  /\ numbers.isPrime 2 (VNumber (Fin (9 # 2))) = Returns true.
Proof.
  assert (Hfuel : (trial_fuel (Fin (9 # 2)) <= 2)%nat) by (vm_compute; lia).
  split; [split; [reflexivity | split; [reflexivity | exact Hfuel]]|].
  apply (proj1 isPrime_on_fractions (9 # 2)%Q 2%nat eq_refl eq_refl Hfuel).
Defined.

(** ** Rounding is monotone *)

Lemma binade_comp (a b : Q) : (a == b)%Q -> (0 < a)%Q -> binade a = binade b.
Proof.
  intros E Ha. destruct (binade_spec a Ha) as [B1 B2].
  symmetry. apply binade_unique; rewrite <- E; assumption.
Qed.

Lemma binade_le (a b : Q) : (0 < a)%Q -> (a <= b)%Q -> binade a <= binade b.
Proof.
  intros Ha Hab.
  destruct (binade_spec a Ha) as [A1 A2].
  destruct (binade_spec b ltac:(lra)) as [B1 B2].
  assert (binade a < binade b + 1) by (apply pow2_lt_inv; lra). lia.
Qed.

Lemma round_half_even_le (x : Q) (z : Z) :
  (x <= inject_Z z)%Q -> round_half_even x <= z.
Proof.
  intros Hx. unfold round_half_even.
  pose proof (Qfloor_le x) as F1.
  assert (Hf : Qfloor x <= z) by (rewrite Zle_Qle; lra).
  destruct (Qcompare_spec (x - inject_Z (Qfloor x)) (1 # 2)) as [C|C|C];
    [destruct (Z.even (Qfloor x)); [exact Hf|] | exact Hf |];
    (assert (Qfloor x < z) by (rewrite Zlt_Qlt; lra); lia).
Qed.

Lemma round_half_even_ge (x : Q) (z : Z) :
  (inject_Z z <= x)%Q -> z <= round_half_even x.
Proof.
  intros Hx. unfold round_half_even.
  assert (Hf : z <= Qfloor x) by (now apply Zle_Qfloor).
  destruct (_ ?= _)%Q; [destruct (Z.even _)| |]; lia.
Qed.

(** The rounding of a positive rational, on the rational itself. *)
Lemma to_binary64_pos (x : Q) :
  (0 < x)%Q ->
  to_binary64 x
  = let ulp := pow2 (Z.max (binade x) (-1022) - 52) in
    let y := (inject_Z (round_half_even (x / ulp)) * ulp)%Q in
    if Qle_bool (pow2 1024) y then PInf else fin y.
Proof.
  intros Hx. unfold to_binary64.
  pose proof (Qred_correct x) as Er. set (q' := Qred x) in *.
  assert (Ea : (Qabs q' == x)%Q) by (rewrite Er; apply Qabs_pos; lra).
  assert (Hz : Qis_zero q' = false).
  { destruct (Qis_zero q') eqn:Z; [|reflexivity].
    apply Qis_zero_spec in Z. lra. }
  assert (Hn : Qis_neg q' = false).
  { destruct (Qis_neg q') eqn:S; [|reflexivity].
    apply Qis_neg_spec in S. lra. }
  rewrite Hz, Hn, (binade_comp _ _ Ea) by lra. cbv zeta.
  set (ulp := pow2 (Z.max (binade x) (-1022) - 52)).
  assert (Hr : round_half_even (Qabs q' / ulp) = round_half_even (x / ulp))
    by (apply round_half_even_comp; now rewrite Ea).
  now rewrite Hr.
Qed.

(** A binary64 value above 0 is a multiple of the unit of its binade,
    below 2^1024. *)
Lemma binary64_grid (r : Q) :
  binary64 r -> (0 < r)%Q ->
  (exists m : Z,
      (r == inject_Z m * pow2 (Z.max (binade r) (-1022) - 52))%Q)
  /\ (r < pow2 1024)%Q.
Proof.
  intros Hr Hpos. unfold binary64 in Hr.
  rewrite to_binary64_pos in Hr by exact Hpos. cbv zeta in Hr.
  set (ulp := pow2 (Z.max (binade r) (-1022) - 52)) in *.
  set (m := round_half_even (r / ulp)) in *.
  destruct (Qle_bool (pow2 1024) (inject_Z m * ulp)) eqn:O;
    [discriminate|].
  assert (E : (inject_Z m * ulp == r)%Q).
  { unfold fin in Hr.
    assert (E' : Qred (inject_Z m * ulp) = Qred r) by congruence.
    rewrite <- (Qred_correct r), <- E'. symmetry. apply Qred_correct. }
  split.
  - exists m. now rewrite E.
  - rewrite <- E. apply Qnot_le_lt. intros L.
    apply Qle_bool_iff in L. congruence.
Qed.

(** Rounding a positive rational does not pass a binary64 value above
    it. *)
Lemma to_binary64_upper (x hi : Q) :
  binary64 hi -> (0 < x)%Q -> (x <= hi)%Q ->
  exists y : Q, to_binary64 x = Fin y /\ (0 <= y)%Q /\ (y <= hi)%Q.
Proof.
  intros Hhi Hx Hle.
  destruct (binary64_grid hi Hhi ltac:(lra)) as [(M & EM) Hmax].
  rewrite to_binary64_pos by exact Hx. cbv zeta.
  pose proof (binade_le x hi Hx Hle) as Hb.
  set (e := Z.max (binade x) (-1022)) in *.
  set (eh := Z.max (binade hi) (-1022)) in *.
  assert (He : e <= eh) by lia.
  pose proof (pow2_pos (e - 52)) as Hulp.
  pose proof (pow2_add (eh - e) (e - 52)) as A.
  replace (eh - e + (e - 52)) with (eh - 52) in A by lia.
  rewrite (pow2_inject (eh - e)) in A by lia.
  set (ulp := pow2 (e - 52)) in *.
  assert (Ehi : (hi == inject_Z (M * 2 ^ (eh - e)) * ulp)%Q).
  { rewrite EM, A, inject_Z_mult. ring. }
  assert (Hm : round_half_even (x / ulp) <= M * 2 ^ (eh - e)).
  { apply round_half_even_le. apply Qle_shift_div_r; [exact Hulp|].
    now rewrite <- Ehi. }
  assert (Hm0 : 0 <= round_half_even (x / ulp)).
  { apply round_half_even_nonneg. apply Qle_shift_div_l; lra. }
  set (m := round_half_even (x / ulp)) in *.
  assert (Hy : (inject_Z m * ulp <= hi)%Q).
  { rewrite Ehi. apply Qmult_le_compat_r; [|lra].
    now rewrite <- Zle_Qle. }
  assert (Hy0 : (0 <= inject_Z m * ulp)%Q).
  { apply Qmult_le_0_compat; [|lra]. now rewrite <- (Zle_Qle 0). }
  destruct (Qle_bool (pow2 1024) (inject_Z m * ulp)) eqn:O.
  { apply Qle_bool_iff in O. lra. }
  exists (Qred (inject_Z m * ulp)). split; [reflexivity|].
  rewrite Qred_correct. split; assumption.
Qed.

(** Rounding a positive rational does not pass a positive binary64
    value below it. *)
Lemma to_binary64_lower (x lo : Q) :
  binary64 lo -> (0 < lo)%Q -> (lo <= x)%Q ->
  to_binary64 x = PInf
  \/ exists y : Q, to_binary64 x = Fin y /\ (lo <= y)%Q.
Proof.
  intros Hlo Hpos Hle.
  assert (Hx : (0 < x)%Q) by lra.
  destruct (binary64_grid lo Hlo Hpos) as [(M & EM) _].
  rewrite to_binary64_pos by exact Hx. cbv zeta.
  pose proof (binade_le lo x Hpos Hle) as Hb.
  destruct (binade_spec x Hx) as [X1 X2].
  destruct (binade_spec lo Hpos) as [L1 L2].
  set (e := Z.max (binade x) (-1022)) in *.
  set (el := Z.max (binade lo) (-1022)) in *.
  pose proof (pow2_pos (e - 52)) as Hulp.
  set (ulp := pow2 (e - 52)) in *.
  assert (Hy : (lo <= inject_Z (round_half_even (x / ulp)) * ulp)%Q).
  { destruct (Z.eq_dec el e) as [Eq|Ne].
    - assert (Hm : M <= round_half_even (x / ulp)).
      { apply round_half_even_ge. apply Qle_shift_div_l; [exact Hulp|].
        unfold ulp. rewrite <- Eq. fold el. now rewrite <- EM. }
      rewrite EM. fold el. rewrite Eq. fold ulp.
      apply Qmult_le_compat_r; [|lra]. now rewrite <- Zle_Qle.
    - assert (Hlt : binade lo < binade x) by lia.
      assert (Ee : e = binade x) by lia.
      pose proof (pow2_add 52 (e - 52)) as A.
      replace (52 + (e - 52)) with e in A by lia.
      rewrite (pow2_inject 52) in A by lia. fold ulp in A.
      assert (Hm : 2 ^ 52 <= round_half_even (x / ulp)).
      { apply round_half_even_ge. apply Qle_shift_div_l; [exact Hulp|].
        rewrite <- A, Ee. exact X1. }
      pose proof (pow2_le (binade lo + 1) e ltac:(lia)) as P.
      apply Qle_trans with (pow2 e); [lra|].
      rewrite A. apply Qmult_le_compat_r; [|lra]. now rewrite <- Zle_Qle. }
  destruct (Qle_bool _ _); [now left|].
  right. exists (Qred (inject_Z (round_half_even (x / ulp)) * ulp)).
  split; [reflexivity|]. now rewrite Qred_correct.
Qed.

Lemma Qabs_opp_eq (q : Q) : Qabs (- q) = Qabs q.
Proof. destruct q as [n d]. unfold Qabs, Qopp; simpl. now rewrite Z.abs_opp. Qed.

Lemma num_neg_fin (z : Q) : num_neg (fin z) = fin (- z).
Proof.
  unfold fin, num_neg, fin. f_equal. apply Qred_complete.
  now rewrite Qred_correct.
Qed.

(** Rounding commutes with the change of sign. *)
Lemma to_binary64_opp (q : Q) : to_binary64 (- q) = num_neg (to_binary64 q).
Proof.
  unfold to_binary64. rewrite Qred_opp. generalize (Qred q). clear q.
  intros q. rewrite Qabs_opp_eq.
  assert (Hz : Qis_zero (- q) = Qis_zero q)
    by (destruct q as [[|p|p] d]; reflexivity).
  rewrite Hz. destruct (Qis_zero q) eqn:Z; [reflexivity|].
  assert (Hn : Qis_neg (- q) = negb (Qis_neg q)).
  { destruct q as [[|p|p] d]; try reflexivity. discriminate Z. }
  rewrite Hn. cbv zeta.
  destruct (Qle_bool _ _); [now destruct (Qis_neg q)|].
  rewrite num_neg_fin.
  destruct (Qis_neg q); cbn [negb]; [|reflexivity].
  unfold fin. f_equal. apply Qred_complete. ring.
Qed.

Lemma binary64_comp (p q : Q) : (p == q)%Q -> binary64 p -> binary64 q.
Proof.
  unfold binary64, fin. intros E Hp.
  now rewrite <- (to_binary64_comp _ _ E), <- (Qred_complete _ _ E).
Qed.

Lemma binary64_opp (q : Q) : binary64 q -> binary64 (- q).
Proof.
  unfold binary64. intros Hq.
  now rewrite to_binary64_opp, Hq, num_neg_fin.
Qed.

Lemma binary64_int (z : Z) : Z.abs z <= 2 ^ 53 -> binary64 (inject_Z z).
Proof.
  intros Hz. unfold binary64. rewrite to_binary64_int by exact Hz.
  symmetry. now apply fin_int.
Qed.

(** A multiple of 2^-1074 below 2^-1022 in magnitude is its own
    rounding. *)
Lemma to_binary64_exact_sub (q : Q) (m : Z) :
  (q == inject_Z m * pow2 (-1074))%Q -> Z.abs m < 2 ^ 52 ->
  to_binary64 q = fin q.
Proof.
  intros Eq Hm.
  destruct (Z.eq_dec m 0) as [->|Hne].
  { rewrite to_binary64_zero by (rewrite Eq; ring).
    unfold fin. f_equal. symmetry.
    apply (Qred_complete q 0). rewrite Eq. ring. }
  unfold to_binary64.
  pose proof (Qred_correct q) as Er. set (q' := Qred q) in *.
  pose proof (pow2_pos (-1074)) as Hulp.
  assert (M1 : (1 <= inject_Z (Z.abs m))%Q)
    by (change 1%Q with (inject_Z 1); rewrite <- Zle_Qle; lia).
  assert (M2 : (inject_Z (Z.abs m) < pow2 52)%Q)
    by (rewrite pow2_inject by lia; rewrite <- Zlt_Qlt; lia).
  assert (Ea : (Qabs q' == inject_Z (Z.abs m) * pow2 (-1074))%Q).
  { rewrite Er, Eq, Qabs_Qmult.
    rewrite (Qabs_pos (pow2 (-1074))) by lra. reflexivity. }
  pose proof (pow2_add 52 (-1074)) as P1.
  change (52 + -1074) with (-1022) in P1.
  assert (Ha : (0 < Qabs q')%Q) by (rewrite Ea; nra).
  assert (B : binade (Qabs q') < -1022).
  { destruct (binade_spec _ Ha) as [B1 _].
    assert (Hs : (Qabs q' < pow2 (-1022))%Q) by (rewrite Ea, P1; nra).
    apply pow2_lt_inv. lra. }
  assert (Hz : Qis_zero q' = false).
  { destruct (Qis_zero q') eqn:Z; [|reflexivity].
    apply Qis_zero_spec in Z. rewrite Z in Ha. discriminate Ha. }
  rewrite Hz. replace (Z.max (binade (Qabs q')) (-1022)) with (-1022) by lia.
  change (-1022 - 52) with (-1074).
  assert (R : round_half_even (Qabs q' / pow2 (-1074)) = Z.abs m).
  { rewrite <- (round_half_even_int (Z.abs m)).
    apply round_half_even_comp. rewrite Ea. field. lra. }
  rewrite R.
  assert (Hover : Qle_bool (pow2 1024) (inject_Z (Z.abs m) * pow2 (-1074))
                  = false).
  { destruct (Qle_bool _ _) eqn:O; [|reflexivity].
    apply Qle_bool_iff in O.
    pose proof (pow2_lt (-1022) 1024 ltac:(lia)). nra. }
  rewrite Hover. unfold fin. f_equal. apply Qred_complete.
  destruct (Qis_neg q') eqn:S.
  - apply Qis_neg_spec in S.
    pose proof (Qabs_neg q' ltac:(lra)). lra.
  - assert (S' : (0 <= q')%Q).
    { apply Qnot_lt_le. intros L. apply Qis_neg_spec in L. congruence. }
    pose proof (Qabs_pos q' S'). lra.
Qed.

Lemma to_binary64_binary64_pos (x y : Q) :
  (0 < x)%Q -> to_binary64 x = Fin y -> binary64 y.
Proof.
  intros Hx. rewrite to_binary64_pos by exact Hx. cbv zeta.
  destruct (binade_spec x Hx) as [X1 X2].
  set (e := Z.max (binade x) (-1022)).
  pose proof (pow2_pos (e - 52)) as Hulp.
  pose proof (pow2_add 52 (e - 52)) as A52.
  replace (52 + (e - 52)) with e in A52 by lia.
  rewrite (pow2_inject 52) in A52 by lia.
  pose proof (pow2_add 53 (e - 52)) as A53.
  replace (53 + (e - 52)) with (e + 1) in A53 by lia.
  rewrite (pow2_inject 53) in A53 by lia.
  set (ulp := pow2 (e - 52)) in *.
  assert (Hm0 : 0 <= round_half_even (x / ulp)).
  { apply round_half_even_nonneg. apply Qle_shift_div_l; lra. }
  assert (Hm53 : round_half_even (x / ulp) <= 2 ^ 53).
  { apply round_half_even_le. apply Qle_shift_div_r; [exact Hulp|].
    rewrite <- A53. pose proof (pow2_le (binade x + 1) (e + 1) ltac:(lia)).
    lra. }
  set (m := round_half_even (x / ulp)) in *.
  destruct (Qle_bool (pow2 1024) (inject_Z m * ulp)) eqn:O; [discriminate|].
  assert (Hmax : (inject_Z m * ulp < pow2 1024)%Q).
  { apply Qnot_le_lt. intros L. apply Qle_bool_iff in L. congruence. }
  intros E. unfold fin in E.
  assert (Ey : y = Qred (inject_Z m * ulp)) by congruence.
  apply (binary64_comp (inject_Z m * ulp)); [rewrite Ey; symmetry;
                                             apply Qred_correct|].
  clear E Ey y. unfold binary64.
  destruct (Z_lt_le_dec m (2 ^ 52)) as [Small|Normal].
  - destruct (Z_lt_le_dec (binade x) (-1022)) as [Sub|Nor].
    + apply (to_binary64_exact_sub _ m); [|lia].
      unfold ulp, e. replace (Z.max (binade x) (-1022)) with (-1022) by lia.
      reflexivity.
    + exfalso.
      assert (Ee : e = binade x) by (unfold e; lia).
      assert (Hm : 2 ^ 52 <= m).
      { apply round_half_even_ge. apply Qle_shift_div_l; [exact Hulp|].
        rewrite <- A52, Ee. exact X1. }
      lia.
  - assert (He : e <= 1023).
    { assert (e < 1024); [|lia]. apply pow2_lt_inv.
      apply Qle_lt_trans with (inject_Z m * ulp)%Q; [|exact Hmax].
      rewrite A52. apply Qmult_le_compat_r; [|lra]. now rewrite <- Zle_Qle. }
    assert (He0 : -1022 <= e) by (unfold e; lia).
    destruct (Z.eq_dec m (2 ^ 53)) as [Top|NotTop].
    + assert (He' : e + 1 <= 1023).
      { assert (e + 1 < 1024); [|lia]. apply pow2_lt_inv.
        rewrite A53, <- Top. exact Hmax. }
      apply (to_binary64_exact _ (2 ^ 52) (e + 1)); [| |lia].
      * rewrite Top. replace (e + 1 - 52) with (1 + (e - 52)) by lia.
        rewrite pow2_add. fold ulp.
        change (inject_Z (2 ^ 53)) with (inject_Z (2 ^ 52) * pow2 1)%Q.
        ring.
      * rewrite Z.abs_eq by lia.
        change (2 ^ 52) with 4503599627370496.
        change (2 ^ 53) with 9007199254740992. lia.
    + apply (to_binary64_exact _ m e); [reflexivity | | lia].
      rewrite Z.abs_eq by lia. lia.
Qed.

(** What rounding returns is a binary64 value. *)
Lemma to_binary64_binary64 (x y : Q) : to_binary64 x = Fin y -> binary64 y.
Proof.
  intros E.
  destruct (Q_dec x 0) as [[Neg|Pos]|Zero].
  - assert (E' : to_binary64 (- x) = Fin (Qred (- y)))
      by (rewrite to_binary64_opp, E; reflexivity).
    apply to_binary64_binary64_pos in E'; [|lra].
    apply binary64_opp in E'.
    apply (binary64_comp (- Qred (- y)) y); [|exact E'].
    rewrite Qred_correct. ring.
  - now apply (to_binary64_binary64_pos x).
  - rewrite (to_binary64_zero _ Zero) in E.
    assert (Ey : y = 0%Q) by congruence. rewrite Ey. reflexivity.
Qed.

Lemma to_binary64_between_pos (x lo hi : Q) :
  binary64 lo -> binary64 hi -> (0 < x)%Q -> (lo <= x)%Q -> (x <= hi)%Q ->
  exists y : Q, to_binary64 x = Fin y /\ (lo <= y)%Q /\ (y <= hi)%Q.
Proof.
  intros Hlo Hhi Hx H1 H2.
  destruct (to_binary64_upper x hi Hhi Hx H2) as (y & Ey & Hy0 & Hy).
  exists y. split; [exact Ey|]. split; [|exact Hy].
  destruct (Qlt_le_dec 0 lo) as [Pos|Neg]; [|lra].
  destruct (to_binary64_lower x lo Hlo Pos H1) as [Inf|(y' & Ey' & Hy')].
  - congruence.
  - assert (y' = y) by congruence. now subst y'.
Qed.

(** Rounding is monotone and leaves the binary64 values as they are:
    the rounding of a rational between two binary64 values lies between
    them. *)
Lemma to_binary64_between (x lo hi : Q) :
  binary64 lo -> binary64 hi -> (lo <= x)%Q -> (x <= hi)%Q ->
  exists y : Q, to_binary64 x = Fin y /\ (lo <= y)%Q /\ (y <= hi)%Q.
Proof.
  intros Hlo Hhi H1 H2.
  destruct (Q_dec x 0) as [[Neg|Pos]|Zero].
  - destruct (to_binary64_between_pos (- x) (- hi) (- lo))
      as (y & Ey & Hy1 & Hy2);
      try (now apply binary64_opp); try lra.
    exists (Qred (- y)). split.
    + rewrite (to_binary64_comp x (- - x)) by ring.
      now rewrite to_binary64_opp, Ey.
    + rewrite Qred_correct. split; lra.
  - now apply to_binary64_between_pos.
  - exists 0%Q. split; [now apply to_binary64_zero|]. split; lra.
Qed.

(** ** Numbers between two binary64 values *)

(** An integer of at most 53 bits, scaled by a power of 2 within the
    range of the normal binary64 values, is a binary64 value. *)
Lemma binary64_scaled (k j : Z) :
  0 < k < 2 ^ 53 -> -1022 <= Z.log2 k + j <= 1023 ->
  binary64 (inject_Z k * pow2 j).
Proof.
  intros Hk Hj. unfold binary64.
  pose proof (Z.log2_spec k ltac:(lia)) as [L1 L2].
  pose proof (Z.log2_nonneg k) as L0.
  assert (L52 : Z.log2 k < 53) by (apply Z.log2_lt_pow2; lia).
  set (e := Z.log2 k) in *.
  apply (to_binary64_exact _ (k * 2 ^ (52 - e)) (e + j)); [| |lia].
  - rewrite inject_Z_mult, <- pow2_inject by lia.
    rewrite <- Qmult_assoc, <- pow2_add.
    now replace (52 - e + (e + j - 52)) with j by lia.
  - rewrite Z.abs_mul.
    assert (P : 0 < 2 ^ (52 - e)) by (apply Z.pow_pos_nonneg; lia).
    rewrite (Z.abs_eq (2 ^ (52 - e))), (Z.abs_eq k) by lia.
    assert (A1 : 2 ^ e * 2 ^ (52 - e) = 2 ^ 52)
      by (rewrite <- Z.pow_add_r by lia; f_equal; lia).
    assert (A2 : 2 ^ Z.succ e * 2 ^ (52 - e) = 2 ^ 53)
      by (rewrite <- Z.pow_add_r by lia; f_equal; lia).
    nia.
Qed.

Lemma binary64_pow2 (k : Z) : -1022 <= k <= 1023 -> binary64 (pow2 k).
Proof.
  intros Hk. apply (binary64_comp (inject_Z 1 * pow2 k)).
  - change (inject_Z 1) with 1%Q. ring.
  - apply binary64_scaled; [|exact Hk].
    change (2 ^ 53) with 9007199254740992. lia.
Qed.

(** Sterbenz: the difference of 1 and a binary64 value between 1/2 and
    1 is a binary64 value. *)
Lemma binary64_one_minus (v : Q) :
  binary64 v -> (1 # 2 <= v)%Q -> (v <= 1)%Q -> binary64 (1 - v).
Proof.
  intros Hv H1 H2.
  destruct (Qlt_le_dec v 1) as [Lt|Ge].
  2: { apply (binary64_comp 0); [lra | reflexivity]. }
  destruct (binary64_grid v Hv ltac:(lra)) as [(M & EM) _].
  assert (B : binade v = -1) by (apply binade_unique; [exact H1 | exact Lt]).
  rewrite B in EM. change (Z.max (-1) (-1022) - 52) with (-53) in EM.
  assert (P : (pow2 (-53) == 1 # 9007199254740992)%Q) by reflexivity.
  assert (HM : 2 ^ 52 <= M < 2 ^ 53).
  { split; [rewrite Zle_Qle | rewrite Zlt_Qlt].
    - change (inject_Z (2 ^ 52)) with (4503599627370496 # 1)%Q.
      rewrite P in EM. lra.
    - change (inject_Z (2 ^ 53)) with (9007199254740992 # 1)%Q.
      rewrite P in EM. lra. }
  apply (binary64_comp (inject_Z (2 ^ 53 - M) * pow2 (-53))).
  - unfold Z.sub. rewrite inject_Z_plus, inject_Z_opp, EM.
    change (inject_Z (2 ^ 53)) with (9007199254740992 # 1)%Q.
    rewrite P. ring.
  - apply binary64_scaled; [lia|].
    assert (0 <= Z.log2 (2 ^ 53 - M)) by apply Z.log2_nonneg.
    assert (Z.log2 (2 ^ 53 - M) < 53) by (apply Z.log2_lt_pow2; lia).
    lia.
Qed.

Lemma num_sub_Fin (x y : Q) : num_sub (Fin x) (Fin y) = to_binary64 (x - y).
Proof.
  unfold num_sub, num_neg, fin, num_add. apply to_binary64_comp.
  now rewrite Qred_correct.
Qed.

Lemma within_rounded (lo hi x : Q) :
  binary64 lo -> binary64 hi -> (lo <= x)%Q -> (x <= hi)%Q ->
  within lo hi (to_binary64 x).
Proof.
  intros Hlo Hhi H1 H2.
  destruct (to_binary64_between x lo hi Hlo Hhi H1 H2) as (y & Ey & Hy).
  exists y. split; [exact Ey|]. split; [|exact Hy].
  now apply (to_binary64_binary64 x).
Qed.

Lemma Math_min_Fin (a b : Q) :
  exists c : Q,
    Math_min (Fin a) (Fin b) = Fin c
    /\ (c = a \/ c = b) /\ (c <= a)%Q /\ (c <= b)%Q.
Proof.
  unfold Math_min, num_le.
  destruct (Qcompare_spec a b) as [C|C|C];
    [exists a | exists a | exists b]; repeat split; auto; lra.
Qed.

Lemma Math_max_Fin (a b : Q) :
  exists c : Q,
    Math_max (Fin a) (Fin b) = Fin c
    /\ (c = a \/ c = b) /\ (a <= c)%Q /\ (b <= c)%Q.
Proof.
  unfold Math_max, num_le.
  destruct (Qcompare_spec a b) as [C|C|C];
    [exists b | exists b | exists a]; repeat split; auto; lra.
Qed.

(** The truncation of a rational is less than 1 away from it. *)
Lemma Qtrunc_near (q : Q) :
  (-1 < q - inject_Z (Qtrunc q))%Q /\ (q - inject_Z (Qtrunc q) < 1)%Q.
Proof.
  destruct q as [n d]. unfold Qtrunc. cbn [Qnum Qden].
  pose proof (Z.quot_rem' n (Zpos d)) as E.
  pose proof (Z.rem_bound_abs n (Zpos d) ltac:(lia)) as B.
  unfold Qlt, Qminus, Qplus, Qopp, inject_Z; simpl.
  rewrite !Z.mul_1_r. lia.
Qed.

(** A remainder by 12 is a number between -12 and 12. *)
Lemma rem_12_Fin (x : Q) :
  exists k : Q,
    num_rem (Fin x) (int 12) = Fin k /\ (-12 <= k)%Q /\ (k <= 12)%Q.
Proof.
  unfold num_rem, int. change (Qis_zero (inject_Z 12)) with false. cbv iota.
  eexists. split; [reflexivity|]. rewrite Qred_correct.
  destruct (Qtrunc_near (x / inject_Z 12)) as [T1 T2].
  change (inject_Z 12) with (12 # 1)%Q in *.
  set (t := inject_Z (Qtrunc (x / (12 # 1)))) in *.
  assert (E : (x - (12 # 1) * t == (12 # 1) * (x / (12 # 1) - t))%Q) by field.
  rewrite E. split; lra.
Qed.

(** ** colors.hslToRgb *)

Lemma num_div_Fin_int (x : Q) (d : Z) :
  d <> 0 -> num_div (Fin x) (int d) = to_binary64 (x / inject_Z d).
Proof.
  intros Hd. unfold num_div, int. rewrite Qis_zero_inject_Z.
  destruct (d =? 0) eqn:E; [apply Z.eqb_eq in E; contradiction | reflexivity].
Qed.

(** Rounding a value between [lo] and [hi] to an integer gives an
    integer between them. *)
Lemma round_between (q : Q) (lo hi : Z) :
  (inject_Z lo <= q)%Q -> (q <= inject_Z hi)%Q ->
  lo <= Qfloor (q + (1 # 2)) <= hi.
Proof.
  intros Hlo Hhi. split.
  - apply Zle_Qfloor. lra.
  - assert (H1 : Qfloor (q + (1 # 2)) < hi + 1); [|lia].
    rewrite Zlt_Qlt. apply Qle_lt_trans with (q + (1 # 2))%Q.
    + apply Qfloor_le.
    + rewrite inject_Z_plus. change (inject_Z 1) with 1%Q. lra.
Qed.

Lemma hslToRgb_unfold (h s l : number) :
  colors.hslToRgb (VNumber h) (VNumber s) (VNumber l)
  = Returns (mkRgb (hsl_channel h s l (int 0)) (hsl_channel h s l (int 8))
                   (hsl_channel h s l (int 4))).
Proof. reflexivity. Qed.

(** A percentage scaled to [0,1]. *)
Lemma percent_within (x : Q) :
  (0 <= x)%Q -> (x <= 100)%Q -> within 0 1 (num_div (Fin x) (int 100)).
Proof.
  intros H0 H1. rewrite num_div_Fin_int by lia.
  change (inject_Z 100) with (100 # 1)%Q.
  apply within_rounded;
    [apply (binary64_int 0); discriminate
    | apply (binary64_int 1); discriminate
    | apply Qle_shift_div_l; [reflexivity | lra]
    | apply Qle_shift_div_r; [reflexivity | lra]].
Qed.

(** A number of magnitude up to 2^1023, divided by 16 or more. *)
Lemma scaled_down (v : Q) (d : Z) :
  (Qabs v <= pow2 1023)%Q -> 16 <= d ->
  within (- pow2 1019) (pow2 1019) (num_div (Fin v) (int d)).
Proof.
  intros Hv Hd. rewrite num_div_Fin_int by lia.
  pose proof (pow2_add 4 1019) as P. change (4 + 1019) with 1023 in P.
  change (pow2 4) with (16 # 1)%Q in P.
  pose proof (pow2_pos 1019) as P0.
  assert (Bh : binary64 (pow2 1019)) by (apply binary64_pow2; lia).
  apply Qabs_Qle_condition in Hv.
  assert (HD : (16 <= inject_Z d)%Q)
    by (change 16%Q with (inject_Z 16); rewrite <- Zle_Qle; lia).
  apply within_rounded;
    [now apply binary64_opp | exact Bh
     | apply Qle_shift_div_l; [lra | nra]
     | apply Qle_shift_div_r; [lra | nra]].
Qed.

(** The factor of the hue lies between -1 and 1. *)
Lemma hue_factor_within (h : Q) (n : Z) :
  (Qabs h <= pow2 1023)%Q -> 0 <= n <= 8 ->
  exists c : Q,
    hue_factor (Fin h) (int n) = Fin c /\ (-1 <= c)%Q /\ (c <= 1)%Q.
Proof.
  intros Hh Hn. unfold hue_factor. cbv zeta.
  destruct (scaled_down h 30 Hh ltac:(lia)) as (hv & Eh & _ & Hhv0 & Hhv1).
  rewrite Eh.
  pose proof (pow2_double 1019) as P1020. change (1019 + 1) with 1020 in P1020.
  pose proof (pow2_le 3 1019 ltac:(lia)) as P3.
  change (pow2 3) with (8 # 1)%Q in P3.
  assert (Bt : binary64 (pow2 1020)) by (apply binary64_pow2; lia).
  assert (Hn' : (0 <= inject_Z n <= 8)%Q).
  { split; [change 0%Q with (inject_Z 0) | change 8%Q with (inject_Z 8)];
      rewrite <- Zle_Qle; lia. }
  assert (Et : within (- pow2 1020) (pow2 1020) (num_add (int n) (Fin hv))).
  { cbn [num_add int].
    apply within_rounded; [now apply binary64_opp | exact Bt | lra | lra]. }
  destruct Et as (tv & Et & _). rewrite Et.
  destruct (rem_12_Fin tv) as (k & Ek & K1 & K2). rewrite Ek.
  unfold int. rewrite !num_sub_Fin.
  assert (B32 : binary64 (inject_Z 32)) by (apply binary64_int; discriminate).
  assert (B32' : binary64 (inject_Z (-32)))
    by (apply binary64_int; discriminate).
  change (inject_Z 3) with (3 # 1)%Q. change (inject_Z 9) with (9 # 1)%Q.
  destruct (within_rounded (inject_Z (-32)) (inject_Z 32) (k - (3 # 1))
              B32' B32) as (c1 & E1 & _);
    [change (inject_Z (-32)) with (- (32 # 1))%Q; lra
    | change (inject_Z 32) with (32 # 1)%Q; lra |].
  destruct (within_rounded (inject_Z (-32)) (inject_Z 32) ((9 # 1) - k)
              B32' B32) as (c2 & E2 & _);
    [change (inject_Z (-32)) with (- (32 # 1))%Q; lra
    | change (inject_Z 32) with (32 # 1)%Q; lra |].
  rewrite E1, E2.
  destruct (Math_min_Fin c1 c2) as (m1 & Em1 & _). rewrite Em1.
  destruct (Math_min_Fin m1 (inject_Z 1)) as (m2 & Em2 & _ & _ & Hm2).
  rewrite Em2.
  destruct (Math_max_Fin m2 (inject_Z (-1))) as (c & Ec & Hc & Hc1 & Hc2).
  rewrite Ec. exists c. split; [reflexivity|].
  change (inject_Z 1) with 1%Q in *.
  change (inject_Z (-1)) with (- (1))%Q in *.
  split; [lra|]. destruct Hc as [-> | ->]; lra.
Qed.

(** Each channel of [hslToRgb]. *)
Lemma hsl_channel_range (h s l : Q) (n : Z) :
  (Qabs h <= pow2 1023)%Q ->
  (0 <= s)%Q -> (s <= 100)%Q -> (0 <= l)%Q -> (l <= 100)%Q ->
  0 <= n <= 8 ->
  exists c : Z,
    hsl_channel (Fin h) (Fin s) (Fin l) (int n) = int c /\ 0 <= c <= 255.
Proof.
  intros Hh Hs0 Hs1 Hl0 Hl1 Hn. unfold hsl_channel. cbv zeta.
  assert (B0 : binary64 0) by (apply (binary64_int 0); discriminate).
  assert (B1 : binary64 1) by (apply (binary64_int 1); discriminate).
  destruct (percent_within s Hs0 Hs1) as (sv & Es & Bs & Hsv0 & Hsv1).
  destruct (percent_within l Hl0 Hl1) as (lv & El & Bl & Hlv0 & Hlv1).
  rewrite Es, El.
  destruct (hue_factor_within h n Hh Hn) as (cv & Ec & Hc1 & Hc2). rewrite Ec.
  assert (Eo : within 0 1 (num_sub (int 1) (Fin lv))).
  { unfold int. rewrite num_sub_Fin. change (inject_Z 1) with 1%Q.
    apply within_rounded; [exact B0 | exact B1 | lra | lra]. }
  assert (Exact : (1 # 2 <= lv)%Q ->
                  num_sub (int 1) (Fin lv) = fin (1 - lv)).
  { intros Hhalf. unfold int. rewrite num_sub_Fin.
    change (inject_Z 1) with 1%Q. now apply binary64_one_minus. }
  destruct Eo as (ov & Eo & Bo & Hov0 & Hov1). rewrite Eo in *.
  destruct (Math_min_Fin lv ov) as (mv & Em & Hm & Hm1 & Hm2). rewrite Em.
  assert (Bm : binary64 mv) by (destruct Hm as [-> | ->]; assumption).
  assert (Hm0 : (0 <= mv)%Q) by (destruct Hm as [-> | ->]; assumption).
  assert (Hsum : (lv + mv <= 1)%Q).
  { destruct (Qlt_le_dec lv (1 # 2)) as [Low|High]; [lra|].
    specialize (Exact High). unfold fin in Exact.
    assert (Eov : ov = Qred (1 - lv)) by congruence.
    assert (Eov' : (ov == 1 - lv)%Q) by (rewrite Eov; apply Qred_correct).
    lra. }
  assert (Ea : within 0 mv (num_mul (Fin sv) (Fin mv))).
  { cbn [num_mul]. apply within_rounded; [exact B0 | exact Bm | nra | nra]. }
  destruct Ea as (av & Ea & Ba & Ha0 & Ha1). rewrite Ea.
  assert (Ep : within (- av) av (num_mul (Fin av) (Fin cv))).
  { cbn [num_mul].
    apply within_rounded; [now apply binary64_opp | exact Ba | nra | nra]. }
  destruct Ep as (pv & Ep & _ & Hp0 & Hp1). rewrite Ep.
  assert (Ef : within 0 1 (num_sub (Fin lv) (Fin pv))).
  { rewrite num_sub_Fin.
    apply within_rounded; [exact B0 | exact B1 | lra | lra]. }
  destruct Ef as (fv & Ef & _ & Hf0 & Hf1). rewrite Ef.
  assert (Eg : within 0 (inject_Z 255) (num_mul (Fin fv) (int 255))).
  { cbn [num_mul int].
    apply within_rounded;
      [exact B0 | apply binary64_int; discriminate | |];
      change (inject_Z 255) with (255 # 1)%Q; lra. }
  destruct Eg as (gv & Eg & _ & Hg0 & Hg1). rewrite Eg.
  cbn [Math_round]. eexists. split; [reflexivity|].
  apply round_between; assumption.
Qed.

(** X17.  For a hue of magnitude up to 2^1023 and a saturation and a
    lightness between 0 and 100, the three channels that [hslToRgb]
    returns are integers from 0 to 255.  In particular
    hslToRgb(0, 75, 40) is (179, 25, 25), where the green and the blue
    channel round 25.499999999999993, and hslToRgb(-150, 100, 50) is
    (255, 128, 255). *)
Theorem hslToRgb_channels_in_range :
  (forall h s l : Q,
      (Qabs h <= pow2 1023)%Q ->
      (0 <= s)%Q -> (s <= 100)%Q -> (0 <= l)%Q -> (l <= 100)%Q ->
      exists r g b : Z,
        colors.hslToRgb (VNumber (Fin h)) (VNumber (Fin s)) (VNumber (Fin l))
        = Returns (mkRgb (int r) (int g) (int b))
        /\ 0 <= r <= 255 /\ 0 <= g <= 255 /\ 0 <= b <= 255)
  /\ colors.hslToRgb (VNumber (int 0)) (VNumber (int 75)) (VNumber (int 40))
     = Returns (mkRgb (int 179) (int 25) (int 25))
  /\ colors.hslToRgb (VNumber (int (-150))) (VNumber (int 100))
       (VNumber (int 50))
     = Returns (mkRgb (int 255) (int 128) (int 255)).
Proof.
  split; [|split; vm_compute; reflexivity].
  intros h s l Hh Hs0 Hs1 Hl0 Hl1. rewrite hslToRgb_unfold.
  destruct (hsl_channel_range h s l 0 Hh Hs0 Hs1 Hl0 Hl1 ltac:(lia))
    as (r & Er & Hr).
  destruct (hsl_channel_range h s l 8 Hh Hs0 Hs1 Hl0 Hl1 ltac:(lia))
    as (g & Eg & Hg).
  destruct (hsl_channel_range h s l 4 Hh Hs0 Hs1 Hl0 Hl1 ltac:(lia))
    as (b & Eb & Hb).
  exists r, g, b. rewrite Er, Eg, Eb. auto.
Qed.

Lemma hslToRgb_channels_in_range_witness :
  ((Qabs 210 <= pow2 1023)%Q
   /\ (0 <= 50)%Q /\ (50 <= 100)%Q /\ (0 <= 8)%Q /\ (8 <= 100)%Q)
  /\ exists r g b : Z,
      colors.hslToRgb (VNumber (Fin 210)) (VNumber (Fin 50)) (VNumber (Fin 8))
      = Returns (mkRgb (int r) (int g) (int b))
      /\ 0 <= r <= 255 /\ 0 <= g <= 255 /\ 0 <= b <= 255.
Proof.
  assert (Hh : (Qabs 210 <= pow2 1023)%Q) by (vm_compute; discriminate).
  assert (Hs0 : (0 <= 50)%Q) by (unfold Qle; simpl; lia).
  assert (Hs1 : (50 <= 100)%Q) by (unfold Qle; simpl; lia).
  assert (Hl0 : (0 <= 8)%Q) by (unfold Qle; simpl; lia).
  assert (Hl1 : (8 <= 100)%Q) by (unfold Qle; simpl; lia).
  split; [repeat split; assumption|].
  apply (proj1 hslToRgb_channels_in_range 210%Q 50%Q 8%Q Hh Hs0 Hs1 Hl0 Hl1).
Defined.

(** What rounding returns is in lowest terms. *)
Lemma to_binary64_reduced (x y : Q) : to_binary64 x = Fin y -> Qred y = y.
Proof.
  unfold to_binary64. destruct (Qis_zero (Qred x)).
  - intros E. assert (Ey : y = 0%Q) by congruence. now rewrite Ey.
  - cbv zeta. destruct (Qle_bool _ _);
      [destruct (Qis_neg _); discriminate|].
    unfold fin. intros E.
    match type of E with
    | Fin (Qred ?z) = _ =>
        assert (Ey : y = Qred z) by congruence; rewrite Ey;
        apply Qred_complete, Qred_correct
    end.
Qed.

Lemma num_mul_0_l (x : Q) : num_mul (Fin 0) (Fin x) = Fin 0.
Proof. cbn [num_mul]. apply to_binary64_zero. ring. Qed.

Lemma num_mul_0_r (x : Q) : num_mul (Fin x) (Fin 0) = Fin 0.
Proof. cbn [num_mul]. apply to_binary64_zero. ring. Qed.

Lemma num_sub_0_r (x : Q) :
  binary64 x -> Qred x = x -> num_sub (Fin x) (Fin 0) = Fin x.
Proof.
  intros Bx Rx. rewrite num_sub_Fin.
  rewrite (to_binary64_comp (x - 0) x) by ring.
  unfold binary64 in Bx. rewrite Bx. unfold fin. now rewrite Rx.
Qed.

(** With the amplitude at 0 a channel is the lightness scaled to 255,
    whatever the hue. *)
Lemma hsl_channel_flat (h : Q) (s l : number) (lv : Q) (n : Z) :
  (Qabs h <= pow2 1023)%Q -> 0 <= n <= 8 ->
  num_div l (int 100) = Fin lv -> binary64 lv -> Qred lv = lv ->
  num_mul (num_div s (int 100))
    (Math_min (Fin lv) (num_sub (int 1) (Fin lv))) = Fin 0 ->
  hsl_channel (Fin h) s l (int n) = Math_round (num_mul (Fin lv) (int 255)).
Proof.
  intros Hh Hn El Bl Rl Ea. unfold hsl_channel. cbv zeta.
  rewrite El, Ea.
  destruct (hue_factor_within h n Hh Hn) as (cv & Ec & _). rewrite Ec.
  now rewrite num_mul_0_l, num_sub_0_r.
Qed.

(** X18.  With a hue of magnitude up to 2^1023, [hslToRgb] gives a grey
    whenever the saturation is 0: the three channels are the lightness
    scaled to 255 and rounded, whatever the hue.  Lightness 0 gives
    black and lightness 100 gives white, whatever the hue and the
    saturation. *)
Theorem hslToRgb_grey (h : Q) :
  (Qabs h <= pow2 1023)%Q ->
  (forall l : Q,
      (Qabs l <= pow2 1023)%Q ->
      colors.hslToRgb (VNumber (Fin h)) (VNumber (int 0)) (VNumber (Fin l))
      = let v := Math_round (num_mul (num_div (Fin l) (int 100)) (int 255)) in
        Returns (mkRgb v v v))
  /\ (forall s : Q,
         (Qabs s <= pow2 1023)%Q ->
         colors.hslToRgb (VNumber (Fin h)) (VNumber (Fin s)) (VNumber (int 0))
         = Returns (mkRgb (int 0) (int 0) (int 0))
         /\ colors.hslToRgb (VNumber (Fin h)) (VNumber (Fin s))
              (VNumber (int 100))
            = Returns (mkRgb (int 255) (int 255) (int 255))).
Proof.
  intros Hh. split.
  - intros l Hl. rewrite hslToRgb_unfold. cbv zeta.
    destruct (scaled_down l 100 Hl ltac:(lia)) as (lv & El & Bl & Hl0 & Hl1).
    pose proof El as Rl. rewrite num_div_Fin_int in Rl by lia.
    apply to_binary64_reduced in Rl.
    assert (Ea : num_mul (num_div (int 0) (int 100))
                   (Math_min (Fin lv) (num_sub (int 1) (Fin lv))) = Fin 0).
    { assert (E0 : num_div (int 0) (int 100) = Fin 0)
        by (vm_compute; reflexivity).
      rewrite E0. unfold int. rewrite num_sub_Fin.
      pose proof (pow2_double 1019) as P1020.
      change (1019 + 1) with 1020 in P1020.
      pose proof (pow2_le 0 1019 ltac:(lia)) as P0.
      change (pow2 0) with 1%Q in P0. change (inject_Z 1) with 1%Q.
      destruct (within_rounded (- pow2 1020) (pow2 1020) (1 - lv))
        as (ov & Eo & _);
        [apply binary64_opp, binary64_pow2; lia
        | apply binary64_pow2; lia | lra | lra |].
      rewrite Eo. destruct (Math_min_Fin lv ov) as (mv & Em & _).
      rewrite Em. apply num_mul_0_l. }
    rewrite !(hsl_channel_flat h (int 0) (Fin l) lv)
      by (assumption || lia).
    now rewrite El.
  - intros s Hs. rewrite !hslToRgb_unfold.
    destruct (scaled_down s 100 Hs ltac:(lia)) as (sv & Es & _).
    assert (B0 : binary64 0) by (apply (binary64_int 0); discriminate).
    assert (B1 : binary64 1) by (apply (binary64_int 1); discriminate).
    assert (E0 : num_div (int 0) (int 100) = Fin 0)
      by (vm_compute; reflexivity).
    assert (E1 : num_div (int 100) (int 100) = Fin 1)
      by (vm_compute; reflexivity).
    assert (M0 : Math_min (Fin 0) (num_sub (int 1) (Fin 0)) = Fin 0)
      by (vm_compute; reflexivity).
    assert (M1 : Math_min (Fin 1) (num_sub (int 1) (Fin 1)) = Fin 0)
      by (vm_compute; reflexivity).
    assert (R0 : Math_round (num_mul (Fin 0) (int 255)) = int 0)
      by (vm_compute; reflexivity).
    assert (R1 : Math_round (num_mul (Fin 1) (int 255)) = int 255)
      by (vm_compute; reflexivity).
    split.
    + rewrite !(hsl_channel_flat h (Fin s) (int 0) 0)
        by (first [assumption | lia | reflexivity
                  | rewrite Es, M0; apply num_mul_0_r]).
      now rewrite R0.
    + rewrite !(hsl_channel_flat h (Fin s) (int 100) 1)
        by (first [assumption | lia | reflexivity
                  | rewrite Es, M1; apply num_mul_0_r]).
      now rewrite R1.
Qed.

Lemma hslToRgb_grey_witness :
  ((Qabs 210 <= pow2 1023)%Q /\ (Qabs 40 <= pow2 1023)%Q)
  /\ colors.hslToRgb (VNumber (Fin 210)) (VNumber (int 0)) (VNumber (Fin 40))
     = let v := Math_round (num_mul (num_div (Fin 40) (int 100)) (int 255)) in
       Returns (mkRgb v v v).
Proof.
  assert (Hh : (Qabs 210 <= pow2 1023)%Q) by (vm_compute; discriminate).
  assert (Hl : (Qabs 40 <= pow2 1023)%Q) by (vm_compute; discriminate).
  split; [split; assumption|].
  apply (proj1 (hslToRgb_grey 210 Hh) 40%Q Hl).
Defined.

(** ** colors.rgbToHsl *)

(** A channel scaled to [0,1]. *)
Lemma channel_within (x : Q) :
  (0 <= x)%Q -> (x <= 255)%Q -> within 0 1 (num_div (Fin x) (int 255)).
Proof.
  intros H0 H1. rewrite num_div_Fin_int by lia.
  change (inject_Z 255) with (255 # 1)%Q.
  apply within_rounded;
    [apply (binary64_int 0); discriminate
    | apply (binary64_int 1); discriminate
    | apply Qle_shift_div_l; [reflexivity | lra]
    | apply Qle_shift_div_r; [reflexivity | lra]].
Qed.

Lemma rgbToHsl_lightness (r g b : number) :
  exists h s : number,
    colors.rgbToHsl (VNumber r) (VNumber g) (VNumber b)
    = Returns (mkHsl h s (lightness_of r g b)).
Proof.
  unfold colors.rgbToHsl, lightness_of. cbv zeta.
  destruct (negb (num_eq _ _)); eexists; eexists; reflexivity.
Qed.

Lemma lightness_range (r g b : Q) :
  (0 <= r)%Q -> (r <= 255)%Q -> (0 <= g)%Q -> (g <= 255)%Q ->
  (0 <= b)%Q -> (b <= 255)%Q ->
  exists l : Z, lightness_of (Fin r) (Fin g) (Fin b) = int l /\ 0 <= l <= 100.
Proof.
  intros Hr0 Hr1 Hg0 Hg1 Hb0 Hb1. unfold lightness_of. cbv zeta.
  assert (B0 : binary64 0) by (apply (binary64_int 0); discriminate).
  assert (B1 : binary64 1) by (apply (binary64_int 1); discriminate).
  destruct (channel_within r Hr0 Hr1) as (rv & Er & _ & Hrv0 & Hrv1).
  destruct (channel_within g Hg0 Hg1) as (gv & Eg & _ & Hgv0 & Hgv1).
  destruct (channel_within b Hb0 Hb1) as (bv & Eb & _ & Hbv0 & Hbv1).
  rewrite Er, Eg, Eb.
  destruct (Math_max_Fin rv gv) as (m1 & E1 & H1 & _). rewrite E1.
  destruct (Math_max_Fin m1 bv) as (mx & E2 & H2 & _). rewrite E2.
  destruct (Math_min_Fin rv gv) as (n1 & E3 & H3 & _). rewrite E3.
  destruct (Math_min_Fin n1 bv) as (mn & E4 & H4 & _). rewrite E4.
  assert (Hmx : (0 <= mx)%Q /\ (mx <= 1)%Q).
  { destruct H2 as [-> | ->]; [destruct H1 as [-> | ->]|]; split; assumption. }
  assert (Hmn : (0 <= mn)%Q /\ (mn <= 1)%Q).
  { destruct H4 as [-> | ->]; [destruct H3 as [-> | ->]|]; split; assumption. }
  destruct Hmx as [Hmx0 Hmx1]. destruct Hmn as [Hmn0 Hmn1].
  assert (Es : within 0 (inject_Z 2) (num_add (Fin mx) (Fin mn))).
  { cbn [num_add].
    apply within_rounded;
      [exact B0 | apply binary64_int; discriminate | |];
      change (inject_Z 2) with (2 # 1)%Q; lra. }
  destruct Es as (sm & Es & _ & Hs0 & Hs1). rewrite Es.
  change (inject_Z 2) with (2 # 1)%Q in Hs1.
  assert (El : within 0 1 (num_div (Fin sm) (int 2))).
  { rewrite num_div_Fin_int by lia. change (inject_Z 2) with (2 # 1)%Q.
    apply within_rounded; [exact B0 | exact B1 | |];
      [apply Qle_shift_div_l | apply Qle_shift_div_r];
      try reflexivity; lra. }
  destruct El as (lq & El & _ & Hl0 & Hl1). rewrite El.
  assert (Ez : within 0 (inject_Z 100) (num_mul (Fin lq) (int 100))).
  { cbn [num_mul int].
    apply within_rounded;
      [exact B0 | apply binary64_int; discriminate | |];
      change (inject_Z 100) with (100 # 1)%Q; lra. }
  destruct Ez as (z & Ez & _ & Hz0 & Hz1). rewrite Ez.
  cbn [Math_round]. eexists. split; [reflexivity|].
  apply round_between; assumption.
Qed.

(** X19.  [rgbToHsl] returns on every three numbers, and for channels
    between 0 and 255 its lightness, the rounded percentage of the mean
    of the largest and the smallest channel, is an integer from 0 to
    100.  In particular the three primary colours have the hues 0, 120
    and 240 with saturation 100 and lightness 50, and rgbToHsl(0, 24, 1)
    is (122, 100, 5). *)
Theorem rgbToHsl_lightness_in_range :
  (forall r g b : number,
      exists h s : number,
        colors.rgbToHsl (VNumber r) (VNumber g) (VNumber b)
        = Returns (mkHsl h s (lightness_of r g b)))
  /\ (forall r g b : Q,
         (0 <= r)%Q -> (r <= 255)%Q -> (0 <= g)%Q -> (g <= 255)%Q ->
         (0 <= b)%Q -> (b <= 255)%Q ->
         exists l : Z,
           lightness_of (Fin r) (Fin g) (Fin b) = int l /\ 0 <= l <= 100)
  /\ colors.rgbToHsl (VNumber (int 255)) (VNumber (int 0)) (VNumber (int 0))
     = Returns (mkHsl (int 0) (int 100) (int 50))
  /\ colors.rgbToHsl (VNumber (int 0)) (VNumber (int 255)) (VNumber (int 0))
     = Returns (mkHsl (int 120) (int 100) (int 50))
  /\ colors.rgbToHsl (VNumber (int 0)) (VNumber (int 0)) (VNumber (int 255))
     = Returns (mkHsl (int 240) (int 100) (int 50))
  /\ colors.rgbToHsl (VNumber (int 0)) (VNumber (int 24)) (VNumber (int 1))
     = Returns (mkHsl (int 122) (int 100) (int 5)).
Proof.
  split; [exact rgbToHsl_lightness|]. split; [exact lightness_range|].
  repeat split; vm_compute; reflexivity.
Qed.

Lemma rgbToHsl_lightness_in_range_witness :
  ((0 <= 12)%Q /\ (12 <= 255)%Q /\ (0 <= 200)%Q /\ (200 <= 255)%Q
   /\ (0 <= 77)%Q /\ (77 <= 255)%Q)
  /\ exists l : Z,
      lightness_of (Fin 12) (Fin 200) (Fin 77) = int l /\ 0 <= l <= 100.
Proof.
  assert (H1 : (0 <= 12)%Q) by (unfold Qle; simpl; lia).
  assert (H2 : (12 <= 255)%Q) by (unfold Qle; simpl; lia).
  assert (H3 : (0 <= 200)%Q) by (unfold Qle; simpl; lia).
  assert (H4 : (200 <= 255)%Q) by (unfold Qle; simpl; lia).
  assert (H5 : (0 <= 77)%Q) by (unfold Qle; simpl; lia).
  assert (H6 : (77 <= 255)%Q) by (unfold Qle; simpl; lia).
  split; [repeat split; assumption|].
  apply (proj1 (proj2 rgbToHsl_lightness_in_range) 12%Q 200%Q 77%Q
           H1 H2 H3 H4 H5 H6).
Defined.

Lemma Math_max_same (x : Q) : Math_max (Fin x) (Fin x) = Fin x.
Proof.
  unfold Math_max, num_le.
  now rewrite (proj1 (Qeq_alt x x) (Qeq_refl x)).
Qed.

Lemma Math_min_same (x : Q) : Math_min (Fin x) (Fin x) = Fin x.
Proof.
  unfold Math_min, num_le.
  now rewrite (proj1 (Qeq_alt x x) (Qeq_refl x)).
Qed.

(** X20.  On three equal channels of magnitude up to 2^1023 (a grey)
    [rgbToHsl] returns hue 0 and saturation 0, with the lightness of
    the three. *)
Theorem rgbToHsl_grey (v : Q) :
  (Qabs v <= pow2 1023)%Q ->
  colors.rgbToHsl (VNumber (Fin v)) (VNumber (Fin v)) (VNumber (Fin v))
  = Returns (mkHsl (int 0) (int 0) (lightness_of (Fin v) (Fin v) (Fin v))).
Proof.
  intros Hv. unfold colors.rgbToHsl, lightness_of. cbv zeta.
  destruct (scaled_down v 255 Hv ltac:(lia)) as (x & Ex & _).
  rewrite Ex, !Math_max_same, !Math_min_same.
  assert (Ed : num_sub (Fin x) (Fin x) = Fin 0).
  { rewrite num_sub_Fin. apply to_binary64_zero. ring. }
  rewrite Ed.
  change (negb (num_eq (Fin 0) (int 0))) with false. cbv iota.
  assert (R0 : Math_round (int 0) = int 0) by (vm_compute; reflexivity).
  assert (R1 : Math_round (num_mul (int 0) (int 100)) = int 0)
    by (vm_compute; reflexivity).
  now rewrite R0, R1.
Qed.

Lemma rgbToHsl_grey_witness :
  (Qabs 128 <= pow2 1023)%Q
  /\ colors.rgbToHsl (VNumber (Fin 128)) (VNumber (Fin 128))
       (VNumber (Fin 128))
     = Returns
         (mkHsl (int 0) (int 0) (lightness_of (Fin 128) (Fin 128) (Fin 128))).
Proof.
  assert (Hv : (Qabs 128 <= pow2 1023)%Q) by (vm_compute; discriminate).
  split; [exact Hv | apply (rgbToHsl_grey 128 Hv)].
Defined.

(** ** colors.hexToHsl and colors.hslToHex *)

(** X21.  Whatever the string, [hexToHsl] returns: it is [rgbToHsl] on
    the channels of [hexToRgb], and its lightness is an integer from 0
    to 100. *)
Theorem hexToHsl_lightness_in_range (text : string) :
  exists (h s : number) (l : Z),
    colors.hexToHsl (VString text) = Returns (mkHsl h s (int l))
    /\ 0 <= l <= 100.
Proof.
  unfold colors.hexToHsl. rewrite hexToRgb_unfold. cbv zeta.
  cbn [bind rgb_r rgb_g rgb_b].
  destruct (channel_range (parseInt (remove_first "#" text) 16) 16)
    as (r & -> & Hr).
  destruct (channel_range (parseInt (remove_first "#" text) 16) 8)
    as (g & -> & Hg).
  destruct (num_and_255_range (parseInt (remove_first "#" text) 16))
    as (b & -> & Hb).
  destruct (rgbToHsl_lightness (int r) (int g) (int b)) as (h & s & E).
  rewrite E.
  destruct (lightness_range (inject_Z r) (inject_Z g) (inject_Z b))
    as (l & El & Hl);
    try (change 0%Q with (inject_Z 0); rewrite <- Zle_Qle; lia);
    try (change 255%Q with (inject_Z 255); rewrite <- Zle_Qle; lia).
  exists h, s, l. split; [|exact Hl].
  do 2 f_equal. exact El.
Qed.

(** X22.  For a hue of magnitude up to 2^1023 and a saturation and a
    lightness between 0 and 100, [hslToHex] returns '#' and exactly six
    characters: the text that [rgbToHex] prints for the channels of
    [hslToRgb]. *)
Theorem hslToHex_shape `{Host} (h s l : Q) :
  (Qabs h <= pow2 1023)%Q ->
  (0 <= s)%Q -> (s <= 100)%Q -> (0 <= l)%Q -> (l <= 100)%Q ->
  exists r g b : Z,
    colors.hslToRgb (VNumber (Fin h)) (VNumber (Fin s)) (VNumber (Fin l))
    = Returns (mkRgb (int r) (int g) (int b))
    /\ colors.hslToHex (VNumber (Fin h)) (VNumber (Fin s)) (VNumber (Fin l))
       = Returns (String "#" (string_of_digits (hex6 r g b)))
    /\ String.length (string_of_digits (hex6 r g b)) = 6%nat.
Proof.
  intros Hh Hs0 Hs1 Hl0 Hl1.
  destruct (hsl_channel_range h s l 0 Hh Hs0 Hs1 Hl0 Hl1 ltac:(lia))
    as (r & Er & Hr).
  destruct (hsl_channel_range h s l 8 Hh Hs0 Hs1 Hl0 Hl1 ltac:(lia))
    as (g & Eg & Hg).
  destruct (hsl_channel_range h s l 4 Hh Hs0 Hs1 Hl0 Hl1 ltac:(lia))
    as (b & Eb & Hb).
  exists r, g, b. unfold colors.hslToHex. rewrite hslToRgb_unfold, Er, Eg, Eb.
  split; [reflexivity|]. cbn [bind rgb_r rgb_g rgb_b].
  rewrite rgbToHex_in_range by assumption.
  split; [reflexivity | apply string_of_digits_length].
Qed.

Lemma hslToHex_shape_witness :
  ((Qabs 210 <= pow2 1023)%Q
   /\ (0 <= 50)%Q /\ (50 <= 100)%Q /\ (0 <= 8)%Q /\ (8 <= 100)%Q)
  /\ exists r g b : Z,
      colors.hslToRgb (VNumber (Fin 210)) (VNumber (Fin 50)) (VNumber (Fin 8))
      = Returns (mkRgb (int r) (int g) (int b))
      /\ @colors.hslToHex bare_host (VNumber (Fin 210)) (VNumber (Fin 50))
           (VNumber (Fin 8))
         = Returns (String "#" (string_of_digits (hex6 r g b)))
      /\ String.length (string_of_digits (hex6 r g b)) = 6%nat.
Proof.
  assert (Hh : (Qabs 210 <= pow2 1023)%Q) by (vm_compute; discriminate).
  assert (Hs0 : (0 <= 50)%Q) by (unfold Qle; simpl; lia).
  assert (Hs1 : (50 <= 100)%Q) by (unfold Qle; simpl; lia).
  assert (Hl0 : (0 <= 8)%Q) by (unfold Qle; simpl; lia).
  assert (Hl1 : (8 <= 100)%Q) by (unfold Qle; simpl; lia).
  split; [repeat split; assumption|].
  apply (@hslToHex_shape bare_host 210 50 8 Hh Hs0 Hs1 Hl0 Hl1).
Defined.

(** ** How the colour conversions compose *)

Lemma hexToRgb_hex6 (r g b : Z) :
  0 <= r <= 255 -> 0 <= g <= 255 -> 0 <= b <= 255 ->
  colors.hexToRgb (VString (String "#" (string_of_digits (hex6 r g b))))
  = Returns (mkRgb (int r) (int g) (int b)).
Proof.
  intros Hr Hg Hb. unfold hex6.
  rewrite hexToRgb_six_digits by (now apply hex6_digits).
  repeat f_equal; Z.div_mod_to_equations; lia.
Qed.

(** X23.  Going through the hexadecimal text changes nothing: for
    integer channels in [0,255], [hexToHsl] of the text of [rgbToHex] is
    [rgbToHsl] of the channels; and for a hue of magnitude up to 2^1023
    and a saturation and a lightness between 0 and 100, [hexToRgb] of
    the text of [hslToHex] is the colour of [hslToRgb]. *)
Theorem conversions_through_hex `{Host} :
  (forall r g b : Z,
      0 <= r <= 255 -> 0 <= g <= 255 -> 0 <= b <= 255 ->
      (hex <- colors.rgbToHex (VNumber (int r)) (VNumber (int g))
                (VNumber (int b)) ;;
       colors.hexToHsl (VString hex))
      = colors.rgbToHsl (VNumber (int r)) (VNumber (int g)) (VNumber (int b)))
  /\ (forall h s l : Q,
         (Qabs h <= pow2 1023)%Q ->
         (0 <= s)%Q -> (s <= 100)%Q -> (0 <= l)%Q -> (l <= 100)%Q ->
         (hex <- colors.hslToHex (VNumber (Fin h)) (VNumber (Fin s))
                   (VNumber (Fin l)) ;;
          colors.hexToRgb (VString hex))
         = colors.hslToRgb (VNumber (Fin h)) (VNumber (Fin s))
             (VNumber (Fin l))).
Proof.
  split.
  - intros r g b Hr Hg Hb. rewrite rgbToHex_in_range by assumption.
    cbn [bind]. unfold colors.hexToHsl.
    rewrite hexToRgb_hex6 by assumption. reflexivity.
  - intros h s l Hh Hs0 Hs1 Hl0 Hl1.
    destruct (hsl_channel_range h s l 0 Hh Hs0 Hs1 Hl0 Hl1 ltac:(lia))
      as (r & Er & Hr).
    destruct (hsl_channel_range h s l 8 Hh Hs0 Hs1 Hl0 Hl1 ltac:(lia))
      as (g & Eg & Hg).
    destruct (hsl_channel_range h s l 4 Hh Hs0 Hs1 Hl0 Hl1 ltac:(lia))
      as (b & Eb & Hb).
    unfold colors.hslToHex. rewrite hslToRgb_unfold, Er, Eg, Eb.
    cbn [bind rgb_r rgb_g rgb_b].
    rewrite rgbToHex_in_range by assumption. cbn [bind].
    now apply hexToRgb_hex6.
Qed.

Lemma conversions_through_hex_witness :
  ((0 <= 10 <= 255 /\ 0 <= 20 <= 255 /\ 0 <= 30 <= 255)
   /\ (Qabs 210 <= pow2 1023)%Q
   /\ (0 <= 50)%Q /\ (50 <= 100)%Q /\ (0 <= 8)%Q /\ (8 <= 100)%Q)
  /\ (hex <- @colors.rgbToHex bare_host (VNumber (int 10)) (VNumber (int 20))
               (VNumber (int 30)) ;;
      colors.hexToHsl (VString hex))
     = colors.rgbToHsl (VNumber (int 10)) (VNumber (int 20)) (VNumber (int 30))
  /\ (hex <- @colors.hslToHex bare_host (VNumber (Fin 210)) (VNumber (Fin 50))
               (VNumber (Fin 8)) ;;
      colors.hexToRgb (VString hex))
     = colors.hslToRgb (VNumber (Fin 210)) (VNumber (Fin 50)) (VNumber (Fin 8)).
Proof.
  assert (Hh : (Qabs 210 <= pow2 1023)%Q) by (vm_compute; discriminate).
  assert (Hs0 : (0 <= 50)%Q) by (unfold Qle; simpl; lia).
  assert (Hs1 : (50 <= 100)%Q) by (unfold Qle; simpl; lia).
  assert (Hl0 : (0 <= 8)%Q) by (unfold Qle; simpl; lia).
  assert (Hl1 : (8 <= 100)%Q) by (unfold Qle; simpl; lia).
  split; [repeat split; try assumption; lia|].
  split.
  - apply (proj1 (@conversions_through_hex bare_host) 10 20 30); lia.
  - apply (proj2 (@conversions_through_hex bare_host) 210%Q 50%Q 8%Q
             Hh Hs0 Hs1 Hl0 Hl1).
Defined.
